(** * Skychitect diagram pipeline: response extraction, image normalisation,
      PDF rasterisation and the analysis client.

    Shallow embedding of
      - [backend/agents/image_analysis_agent.py]
          ([_parse_analysis_response], [analyze_architecture_diagram],
           [ImageAnalysisAgent.__init__], [get_image_analysis_agent]),
      - [backend/utils/image_processor.py]
          ([validate_image], [process_image], [encode_image_base64],
           [get_image_info]),
      - [backend/utils/pdf_converter.py]
          ([pdf_to_image], [validate_pdf], [get_pdf_info]),
      - [backend/api/main.py]
          ([analyze_architecture_image], as far as the content that it
           passes on),
    together with the parts of the Python runtime they call: [str.find],
    slicing, [str.strip], [str.split], [str.lower], [json.loads] (CPython's
    [json.decoder] and [json.scanner]), [base64.b64encode],
    [bytes.decode] and the geometry and compositing of Pillow's [Image]. *)

From Stdlib Require Import Ascii String.
From Stdlib Require Import List ZArith NArith QArith Qround Qabs Bool Lia.
Import ListNotations.
Close Scope Q_scope.

Set Implicit Arguments.
Set Warnings "-register-all".

(* ================================================================== *)
(** * Part I. Definitions                                              *)
(* ================================================================== *)

(** ** Python strings

    A Python [str] is a sequence of Unicode code points. *)

Definition char := N.
Definition str := list char.

Definition lit (s : string) : str := map N_of_ascii (list_ascii_of_string s).
Arguments lit s%_string.

(** Test inputs are written with apostrophes standing for the double quote
    (code point 34). *)
Definition jq (s : string) : str :=
  map (fun c => if N.eqb c 39 then 34%N else c) (lit s).
Arguments jq s%_string.

Fixpoint str_eqb (a b : str) : bool :=
  match a, b with
  | [], [] => true
  | x :: a', y :: b' => N.eqb x y && str_eqb a' b'
  | _, _ => false
  end.

Module PyStr.

(** [s.startswith(p)] *)
Fixpoint starts_with (p s : str) : bool :=
  match p, s with
  | [], _ => true
  | a :: p', b :: s' => N.eqb a b && starts_with p' s'
  | _ :: _, [] => false
  end.

(** Leftmost occurrence of [sub] in [s]; [i] is the index of the head of
    [s] in the text searched. *)
Fixpoint find_from (sub s : str) (i : nat) : option nat :=
  match s with
  | [] => if starts_with sub [] then Some i else None
  | _ :: s' => if starts_with sub s then Some i else find_from sub s' (S i)
  end.

(** [PySlice_AdjustIndices] for one bound and step 1. *)
Definition adjust (len i : Z) : Z :=
  let i' := if (i <? 0)%Z then (i + len)%Z else i in
  Z.max 0 (Z.min len i').

(** [s.find(sub, start)]: the lowest index at or after [start] where
    [sub] occurs, [-1] when there is none. *)
Definition find (sub s : str) (start : Z) : Z :=
  let len := Z.of_nat (length s) in
  let st := if (start <? 0)%Z then Z.max 0 (start + len) else start in
  if (len <? st)%Z then (-1)%Z
  else match find_from sub (skipn (Z.to_nat st) s) (Z.to_nat st) with
       | Some i => Z.of_nat i
       | None => (-1)%Z
       end.

(** [sub in s] *)
Definition contains (sub s : str) : bool := (0 <=? find sub s 0)%Z.

(** [s[start:stop]] *)
Definition slice (s : str) (start stop : Z) : str :=
  let len := Z.of_nat (length s) in
  let a := adjust len start in
  let b := adjust len stop in
  firstn (Z.to_nat (b - a)) (skipn (Z.to_nat a) s).

(** [Py_UNICODE_ISSPACE] *)
Definition isspace (c : char) : bool :=
  ((9 <=? c) && (c <=? 13) || (28 <=? c) && (c <=? 32)
   || (c =? 133) || (c =? 160) || (c =? 5760)
   || (8192 <=? c) && (c <=? 8202)
   || (c =? 8232) || (c =? 8233) || (c =? 8239) || (c =? 8287)
   || (c =? 12288))%N.

Fixpoint lstrip (s : str) : str :=
  match s with
  | c :: s' => if isspace c then lstrip s' else s
  | [] => []
  end.

Definition rstrip (s : str) : str := rev (lstrip (rev s)).

(** [s.strip()] *)
Definition strip (s : str) : str := rstrip (lstrip s).

(** [str(n)] for an integer ([f"{n}"]). *)
Fixpoint digits_of (fuel : nat) (n : N) (acc : str) : str :=
  match fuel with
  | O => acc
  | S f =>
      let acc' := (48 + N.modulo n 10)%N :: acc in
      if (n <? 10)%N then acc' else digits_of f (N.div n 10) acc'
  end.

Definition of_int (z : Z) : str :=
  let n := Z.abs_N z in
  let ds := digits_of (S (N.to_nat (N.log2 n))) n [] in
  if (z <? 0)%Z then 45%N :: ds else ds.

End PyStr.

(** ** Python values and exceptions *)

Inductive json_const := NaN | Infinity | NegInfinity.

(** The values [json.loads] builds.  A float keeps the lexeme it was read
    from (integer part, fraction, exponent), which determines the binary64
    value [float(lexeme)]. *)
Inductive json :=
| JNull
| JBool (b : bool)
| JInt (z : Z)
| JFloat (lexeme : str)
| JConst (c : json_const)
| JStr (s : str)
| JList (l : list json)
| JDict (d : list (str * json)).

(** Exceptions by class; [str(e)] is kept where the code builds it.
    [LibraryError] stands for the exception classes of the libraries behind
    the model boundary (botocore). *)
Inductive exn :=
| JSONDecodeError
| ValueError (msg : str)
| TypeError
| AttributeError
| KeyError (key : json)
| IndexError
| LibraryError (cls msg : str).

(** What a call does: it returns a value or raises an exception of type [E].
    Every exception of the model is an instance of [Exception]. *)
Inductive outcome (E A : Type) :=
| Return (a : A)
| Raise (e : E).
Arguments Return {E A} a.
Arguments Raise {E A} e.

Definition bind {E A B} (m : outcome E A) (k : A -> outcome E B) : outcome E B :=
  match m with
  | Return a => k a
  | Raise e => Raise e
  end.

Declare Scope py_scope.
Delimit Scope py_scope with py.
Notation "x <- m ;; k" := (bind m (fun x => k))
  (at level 61, m at next level, right associativity) : py_scope.
Notation "m ;;; k" := (bind m (fun _ => k))
  (at level 61, right associativity) : py_scope.
Open Scope py_scope.

(** [try: body except Exception as e: handler(e)] *)
Definition try_except {E A} (body : outcome E A) (handler : E -> outcome E A)
  : outcome E A :=
  match body with
  | Return a => Return a
  | Raise e => handler e
  end.

(** ** [json.loads]

    The decoder of CPython's [json] package for a [str] argument with the
    default hooks.  The limits of the interpreter (recursion depth, the
    length of an integer literal) are left out: integers and nesting are
    unbounded here, whereas CPython raises [RecursionError] on nesting
    beyond the recursion limit and [ValueError] on an integer literal
    beyond its digit limit, neither of them a [JSONDecodeError].  The
    statements about the callers of [loads] are therefore made on the
    outcome of [loads], a value or a [JSONDecodeError], and say what the
    caller does with an exception of another class. *)

Module Json.

(** [dict(pairs)]: a repeated key keeps its first position and takes the
    last value. *)
Fixpoint dict_set (d : list (str * json)) (k : str) (v : json) :=
  match d with
  | [] => [(k, v)]
  | (k', v') :: d' =>
      if str_eqb k' k then (k', v) :: d' else (k', v') :: dict_set d' k v
  end.

Definition dict_of_pairs (pairs : list (str * json)) : list (str * json) :=
  fold_left (fun d kv => dict_set d (fst kv) (snd kv)) pairs [].

Fixpoint dict_get (d : list (str * json)) (k : str) : option json :=
  match d with
  | [] => None
  | (k', v) :: d' => if str_eqb k' k then Some v else dict_get d' k
  end.

(** [WHITESPACE_STR = ' \t\n\r'] *)
Definition is_ws (c : char) : bool :=
  ((c =? 32) || (c =? 9) || (c =? 10) || (c =? 13))%N.

(** [_w(s, end).end()] *)
Fixpoint skip_ws (s : str) : str :=
  match s with
  | c :: s' => if is_ws c then skip_ws s' else s
  | [] => []
  end.

Definition is_digit (c : char) : bool := ((48 <=? c) && (c <=? 57))%N.

Definition hex_val (c : char) : option N :=
  if is_digit c then Some (c - 48)%N
  else if ((97 <=? c) && (c <=? 102))%N then Some (c - 87)%N
  else if ((65 <=? c) && (c <=? 70))%N then Some (c - 55)%N
  else None.

(** [_decode_uXXXX] on the four characters after [\u]. *)
Definition hex4 (a b c d : char) : option N :=
  match hex_val a, hex_val b, hex_val c, hex_val d with
  | Some x, Some y, Some z, Some w => Some (((x * 16 + y) * 16 + z) * 16 + w)%N
  | _, _, _, _ => None
  end.

(** [BACKSLASH] *)
Definition unescape (e : char) : option char :=
  if (e =? 34)%N then Some 34%N
  else if (e =? 92)%N then Some 92%N
  else if (e =? 47)%N then Some 47%N
  else if (e =? 98)%N then Some 8%N
  else if (e =? 102)%N then Some 12%N
  else if (e =? 110)%N then Some 10%N
  else if (e =? 114)%N then Some 13%N
  else if (e =? 116)%N then Some 9%N
  else None.

Definition is_high_surrogate (u : N) : bool := ((55296 <=? u) && (u <=? 56319))%N.
Definition is_low_surrogate (u : N) : bool := ((56320 <=? u) && (u <=? 57343))%N.
Definition join_surrogates (u u2 : N) : N :=
  (65536 + N.lor (N.shiftl (u - 55296) 10) (u2 - 56320))%N.

(** [scanstring(s, end, strict=True)]: [s] is the text after the opening
    quote, [acc] the characters decoded so far, most recent first.  [None]
    is [JSONDecodeError]. *)
Fixpoint scanstring (s : str) (acc : str) : option (str * str) :=
  match s with
  | [] => None
  | c :: r =>
      if (c =? 34)%N then Some (rev acc, r)
      else if (c =? 92)%N then
        match r with
        | [] => None
        | e :: r1 =>
            if (e =? 117)%N then
              match r1 with
              | h1 :: h2 :: h3 :: h4 :: r2 =>
                  match hex4 h1 h2 h3 h4 with
                  | None => None
                  | Some uni =>
                      if is_high_surrogate uni then
                        match r2 with
                        | b :: u :: r3 =>
                            if ((b =? 92) && (u =? 117))%N then
                              match r3 with
                              | g1 :: g2 :: g3 :: g4 :: r4 =>
                                  match hex4 g1 g2 g3 g4 with
                                  | None => None
                                  | Some uni2 =>
                                      if is_low_surrogate uni2
                                      then scanstring r4 (join_surrogates uni uni2 :: acc)
                                      else scanstring r2 (uni :: acc)
                                  end
                              | _ => None
                              end
                            else scanstring r2 (uni :: acc)
                        | _ => scanstring r2 (uni :: acc)
                        end
                      else scanstring r2 (uni :: acc)
                  end
              | _ => None
              end
            else
              match unescape e with
              | Some ch => scanstring r1 (ch :: acc)
              | None => None
              end
        end
      else if (c <? 32)%N then None
      else scanstring r (c :: acc)
  end.

Fixpoint span_digits (s : str) : str * str :=
  match s with
  | c :: s' =>
      if is_digit c then let (ds, r) := span_digits s' in (c :: ds, r)
      else ([], s)
  | [] => ([], [])
  end.

(** [int(lexeme)] on the digits of an integer lexeme. *)
Definition int_of_digits (ds : str) : Z :=
  fold_left (fun acc c => (acc * 10 + Z.of_N (c - 48))%Z) ds 0%Z.

(** [NUMBER_RE.match]: an optional minus sign and either a single zero or
    a non-zero digit followed by digits; then optionally a dot and one or
    more digits; then optionally [e] or [E], an optional sign and one or
    more digits.  Digits are the ASCII ones, as in the accelerated
    scanner. *)
Definition match_integer (s : str) : option (str * str) :=
  let (sign, s1) :=
    match s with
    | c :: r => if (c =? 45)%N then ([45%N], r) else ([], s)
    | [] => ([], s)
    end in
  match s1 with
  | d :: r =>
      if (d =? 48)%N then Some (sign ++ [d], r)
      else if is_digit d then
        let (ds, r') := span_digits r in Some (sign ++ d :: ds, r')
      else None
  | [] => None
  end.

Definition match_frac (s : str) : str * str :=
  match s with
  | c :: r =>
      if (c =? 46)%N then
        match span_digits r with
        | ([], _) => ([], s)
        | (ds, r') => (c :: ds, r')
        end
      else ([], s)
  | [] => ([], s)
  end.

Definition match_exp (s : str) : str * str :=
  match s with
  | c :: r =>
      if ((c =? 101) || (c =? 69))%N then
        let (sign, r1) :=
          match r with
          | g :: r0 => if ((g =? 45) || (g =? 43))%N then ([g], r0) else ([], r)
          | [] => ([], r)
          end in
        match span_digits r1 with
        | ([], _) => ([], s)
        | (ds, r') => (c :: sign ++ ds, r')
        end
      else ([], s)
  | [] => ([], s)
  end.

Definition match_number (s : str) : option (json * str) :=
  match match_integer s with
  | None => None
  | Some (integer, r) =>
      let (frac, r1) := match_frac r in
      let (exp, r2) := match_exp r1 in
      match frac, exp with
      | [], [] =>
          Some (JInt (match integer with
                      | 45%N :: ds => - int_of_digits ds
                      | ds => int_of_digits ds
                      end), r2)
      | _, _ => Some (JFloat (integer ++ frac ++ exp), r2)
      end
  end.

(** Result of a scanner step: a value and the unread text, a
    [JSONDecodeError], or recursion budget used up. *)
Inductive pres :=
| POk (v : json) (rest : str)
| PErr
| PFuel.

(** [scan_once], [JSONArray] and [JSONObject].  The text is passed as the
    unread suffix rather than as an index.  The loops' one- and
    two-character look-ahead before [_w] is the same skip of white space. *)
Fixpoint scan_once (fuel : nat) (s : str) : pres :=
  match fuel with
  | O => PFuel
  | S f =>
      match s with
      | [] => PErr
      | c :: r =>
          if (c =? 34)%N then
            match scanstring r [] with
            | Some (v, r') => POk (JStr v) r'
            | None => PErr
            end
          else if (c =? 123)%N then
            match skip_ws r with
            | d :: r1 =>
                if (d =? 125)%N then POk (JDict []) r1
                else if (d =? 34)%N then object_loop f r1 []
                else PErr
            | [] => PErr
            end
          else if (c =? 91)%N then
            match skip_ws r with
            | d :: r1 =>
                if (d =? 93)%N then POk (JList []) r1
                else array_loop f (d :: r1) []
            | [] => PErr
            end
          else if PyStr.starts_with (lit "null") s then POk JNull (skipn 4 s)
          else if PyStr.starts_with (lit "true") s then POk (JBool true) (skipn 4 s)
          else if PyStr.starts_with (lit "false") s then POk (JBool false) (skipn 5 s)
          else
            match match_number s with
            | Some (v, r') => POk v r'
            | None =>
                if PyStr.starts_with (lit "NaN") s then POk (JConst NaN) (skipn 3 s)
                else if PyStr.starts_with (lit "Infinity") s
                then POk (JConst Infinity) (skipn 8 s)
                else if PyStr.starts_with (lit "-Infinity") s
                then POk (JConst NegInfinity) (skipn 9 s)
                else PErr
            end
      end
  end

with array_loop (fuel : nat) (s : str) (values : list json) : pres :=
  match fuel with
  | O => PFuel
  | S f =>
      match scan_once f s with
      | POk value r =>
          match skip_ws r with
          | d :: r1 =>
              if (d =? 93)%N then POk (JList (rev (value :: values))) r1
              else if (d =? 44)%N then array_loop f (skip_ws r1) (value :: values)
              else PErr
          | [] => PErr
          end
      | PErr => PErr
      | PFuel => PFuel
      end
  end

(** [s] starts just after the opening quote of a key. *)
with object_loop (fuel : nat) (s : str) (pairs : list (str * json)) : pres :=
  match fuel with
  | O => PFuel
  | S f =>
      match scanstring s [] with
      | None => PErr
      | Some (key, r) =>
          match skip_ws r with
          | c :: r1 =>
              if (c =? 58)%N then
                match scan_once f (skip_ws r1) with
                | POk value r2 =>
                    match skip_ws r2 with
                    | d :: r3 =>
                        if (d =? 125)%N
                        then POk (JDict (dict_of_pairs (rev ((key, value) :: pairs)))) r3
                        else if (d =? 44)%N then
                          match skip_ws r3 with
                          | q :: r4 =>
                              if (q =? 34)%N
                              then object_loop f r4 ((key, value) :: pairs)
                              else PErr
                          | [] => PErr
                          end
                        else PErr
                    | [] => PErr
                    end
                | PErr => PErr
                | PFuel => PFuel
                end
              else PErr
          | [] => PErr
          end
      end
  end.

(** A scanner step that stays within budget and, when it succeeds, leaves
    fewer than [n] characters unread. *)
Definition within (p : pres) (n : nat) : Prop :=
  p <> PFuel /\ forall v r, p = POk v r -> length r < n.

(** Recursion budget that [decode] gives the scanner; [scan_once_fuel]
    below shows it is never used up. *)
Definition budget (s : str) : nat := 2 * length s + 2.

(** [JSONDecoder.decode]: one value, white space around it, nothing else. *)
Definition decode (s : str) : option json :=
  match scan_once (budget s) (skip_ws s) with
  | POk v r => match skip_ws r with [] => Some v | _ :: _ => None end
  | _ => None
  end.

(** [json.loads(s)] for a [str]: a leading U+FEFF is refused. *)
Definition loads (s : str) : outcome exn json :=
  if PyStr.starts_with [65279%N] s then Raise JSONDecodeError
  else match decode s with
       | Some v => Return v
       | None => Raise JSONDecodeError
       end.

End Json.

(** ** Response extractor: [ImageAnalysisAgent._parse_analysis_response] *)

Module Extractor.

(** [field in data] *)
Definition py_contains (data : json) (field : str) : outcome exn bool :=
  match data with
  | JDict d =>
      Return (match Json.dict_get d field with Some _ => true | None => false end)
  | JList l =>
      Return (existsb (fun x => match x with
                                | JStr s => str_eqb s field
                                | _ => false
                                end) l)
  | JStr s => Return (PyStr.contains field s)
  | JNull | JBool _ | JInt _ | JFloat _ | JConst _ => Raise TypeError
  end.

(** [data[key]] for a [str] key *)
Definition py_getitem (data : json) (key : str) : outcome exn json :=
  match data with
  | JDict d =>
      match Json.dict_get d key with
      | Some v => Return v
      | None => Raise (KeyError (JStr key))
      end
  | _ => Raise TypeError
  end.

(** [v.upper()]; only the raising matters to the caller. *)
Definition py_upper (v : json) : outcome exn unit :=
  match v with
  | JStr _ => Return tt
  | _ => Raise AttributeError
  end.

(** [len(v)] *)
Definition py_len (v : json) : outcome exn nat :=
  match v with
  | JStr s => Return (length s)
  | JList l => Return (length l)
  | JDict d => Return (length d)
  | _ => Raise TypeError
  end.

Definition required_fields : list str :=
  [lit "provider"; lit "detected_components"; lit "complexity";
   lit "estimated_monthly_cost"].

(** [for field in required_fields: if field not in data: raise ValueError] *)
Fixpoint check_required (fields : list str) (data : json) : outcome exn unit :=
  match fields with
  | [] => Return tt
  | field :: rest =>
      present <- py_contains data field ;;
      if negb present
      then Raise (ValueError (lit "Missing required field: " ++ field))
      else check_required rest data
  end.

(** The arguments of the [logger.info] f-string, evaluated left to right. *)
Definition log_parsed (data : json) : outcome exn unit :=
  p <- py_getitem data (lit "provider") ;;
  py_upper p ;;;
  c <- py_getitem data (lit "detected_components") ;;
  py_len c ;;;
  py_getitem data (lit "estimated_monthly_cost") ;;;
  Return tt.

(** The three-branch choice of the text handed to [json.loads]. *)
Definition select_json_str (response_text : str) : str :=
  if PyStr.contains (lit "```json") response_text then
    let start := (PyStr.find (lit "```json") response_text 0 + 7)%Z in
    let end_ := PyStr.find (lit "```") response_text start in
    PyStr.strip (PyStr.slice response_text start end_)
  else if PyStr.contains (lit "```") response_text then
    let start := (PyStr.find (lit "```") response_text 0 + 3)%Z in
    let end_ := PyStr.find (lit "```") response_text start in
    PyStr.strip (PyStr.slice response_text start end_)
  else PyStr.strip response_text.

(** What follows [json.loads] inside the [try]: the check of the required
    fields, the log line, [return data]. *)
Definition validate (data : json) : outcome exn json :=
  check_required required_fields data ;;;
  log_parsed data ;;;
  Return data.

(** The body of the [try]. *)
Definition parse_body (response_text : str) : outcome exn json :=
  data <- Json.loads (select_json_str response_text) ;;
  validate data.

(** The dictionary built by the [except json.JSONDecodeError] handler. *)
Definition failure_default (response_text : str) : json :=
  JDict [(lit "provider", JStr (lit "aws"));
         (lit "detected_components", JList []);
         (lit "complexity", JStr (lit "medium"));
         (lit "estimated_monthly_cost", JInt 0);
         (lit "connections", JList []);
         (lit "error", JStr (lit "Failed to parse AI response"));
         (lit "raw_response", JStr (PyStr.slice response_text 0 500))].

(** [try: ... except json.JSONDecodeError: return {...}]: every other
    exception class passes through the handler. *)
Definition _parse_analysis_response (response_text : str) : outcome exn json :=
  match parse_body response_text with
  | Raise JSONDecodeError => Return (failure_default response_text)
  | r => r
  end.

(** The first required field that a dictionary lacks. *)
Definition first_missing (d : list (str * json)) : option str :=
  List.find (fun f => match Json.dict_get d f with Some _ => false | None => true end)
    required_fields.

(** A dictionary with the four required fields whose provider is a [str]
    and whose components have a length. *)
Definition well_shaped (v : json) : bool :=
  match v with
  | JDict d =>
      match first_missing d with Some _ => false | None => true end
      && match Json.dict_get d (lit "provider") with
         | Some (JStr _) => true
         | _ => false
         end
      && match Json.dict_get d (lit "detected_components") with
         | Some (JStr _) | Some (JList _) | Some (JDict _) => true
         | _ => false
         end
  | _ => false
  end.

(** [v.get(k)] on a result. *)
Definition field (v : json) (k : str) : option json :=
  match v with
  | JDict d => Json.dict_get d k
  | _ => None
  end.

(** Modelled from the spec: the two wrappers of its round-trip property,
    which the source does not define.  A payload inside a fence tagged
    [json], and inside an untagged fence, each fence on a line of its
    own. *)
Definition wrap_in_json_fence (payload : str) : str :=
  lit "```json" ++ [10%N] ++ payload ++ [10%N] ++ lit "```".

Definition wrap_in_generic_fence (payload : str) : str :=
  lit "```" ++ [10%N] ++ payload ++ [10%N] ++ lit "```".

End Extractor.

(** ** Images: the part of Pillow that [ImageProcessor] and [PDFConverter]
       rely on *)

Module Imaging.

Definition bytes := list Byte.byte.

(** An exception raised by Pillow, pdf2image or the interpreter while an
    image is handled: its class name and [str(e)]. *)
Record error := mkError { err_class : str; err_str : str }.

Definition result := outcome error.

(** A pixel is the list of its band values: [[r; g; b]] in mode RGB,
    [[r; g; b; a]] in RGBA, [[l; a]] in LA, [[index]] in P,
    [[index; a]] in PA. *)
Definition pixel := list Z.

Record image := mkImage {
  format : option str;      (* [img.format] *)
  mode : str;               (* [img.mode] *)
  width : Z;                (* [img.size[0]] *)
  height : Z;               (* [img.size[1]] *)
  palette : list pixel;     (* RGBA entries, transparency folded in *)
  data : list pixel         (* rows from the top, left to right *)
}.

Definition size (img : image) : Z * Z := (width img, height img).

(** The codecs and resamplers behind the model boundary.  Each may raise. *)
Class Library := {
(** [Image.open(io.BytesIO(b))]: identifies the format from the header
    and reads mode and size; pixel data are decoded on demand. *)
Image_open : bytes -> result image;
(** [img.load()]: the decoded pixel data. *)
Image_load : image -> result (list pixel);
(** Pixel data of [img.convert(mode)] for the conversions that are not
    written out below. *)
convert_data : image -> str -> result (list pixel);
(** Pixel data of [img.resize(size, Image.Resampling.LANCZOS)]. *)
resize_data : image -> Z * Z -> result (list pixel);
(** [img.save(output, format='PNG', optimize=True); output.getvalue()] *)
save_png : image -> result bytes;
(** [pdf2image.convert_from_bytes(b, dpi, first_page, last_page, fmt='png')] *)
convert_from_bytes : bytes -> Z -> Z -> Z -> result (list image);
(** The order in which the interpreter iterates a [set] of strings. *)
set_iter : list str -> list str
}.

Definition mode_in (m : str) (modes : list str) : bool :=
  existsb (str_eqb m) modes.

Definition set_mode_data (img : image) (m : str) (px : list pixel) : image :=
  mkImage (format img) m (width img) (height img) (palette img) px.

(** [Image.new(mode, size, color)] *)
Definition Image_new (m : str) (sz : Z * Z) (color : pixel) : image :=
  mkImage None m (fst sz) (snd sz) [] (repeat color (Z.to_nat (fst sz * snd sz))).

(** A palette has 256 entries; those never set are opaque black. *)
Definition palette_entry (pal : list pixel) (index : Z) : pixel :=
  nth (Z.to_nat index) pal [0; 0; 0; 255]%Z.

Definition band (px : pixel) (i : nat) : Z := nth i px 0%Z.

(** Per-pixel conversions written out: [p2rgba], [p2rgb] and [pa2rgb]
    (palette look-up; the last two drop alpha), [l2rgb], [bit2rgb]. *)
Definition convert_pixel (pal : list pixel) (from to : str) : option (pixel -> pixel) :=
  if str_eqb from (lit "P") && str_eqb to (lit "RGBA") then
    Some (fun px => palette_entry pal (band px 0))
  else if (str_eqb from (lit "P") || str_eqb from (lit "PA")) && str_eqb to (lit "RGB") then
    Some (fun px => firstn 3 (palette_entry pal (band px 0)))
  else if str_eqb from (lit "L") && str_eqb to (lit "RGB") then
    Some (fun px => [band px 0; band px 0; band px 0])
  else if str_eqb from (lit "1") && str_eqb to (lit "RGB") then
    Some (fun px => let v := if (band px 0 =? 0)%Z then 0%Z else 255%Z in [v; v; v])
  else None.

(** The alpha band of a mode that carries one ([img.split()[-1]]). *)
Definition alpha (px : pixel) : Z := last px 0%Z.

(** The colour bytes of a pixel as pasted into an RGB image: LA pixels are
    stored as (L, L, L, A). *)
Definition colour_bands (m : str) (px : pixel) : pixel :=
  if str_eqb m (lit "LA") then [band px 0; band px 0; band px 0]
  else [band px 0; band px 1; band px 2].

(** [DIV255] and [BLEND] of Pillow's [Paste.c]. *)
Definition DIV255 (a : Z) : Z :=
  let tmp := (a + 128)%Z in Z.shiftr (Z.shiftr tmp 8 + tmp) 8.

Definition BLEND (mask in1 in2 : Z) : Z :=
  DIV255 (in1 * (255 - mask) + in2 * mask).

Definition blend_pixel (mask : Z) (out inp : pixel) : pixel :=
  [BLEND mask (band out 0) (band inp 0);
   BLEND mask (band out 1) (band inp 1);
   BLEND mask (band out 2) (band inp 2)].

(** Pixel data after [background.paste(img, mask=m)] with the box at the
    origin and source, mask and background of one size. *)
Fixpoint paste_data (bg src : list pixel) (mask : option (list Z)) : list pixel :=
  match bg, src with
  | b :: bg', s :: src' =>
      match mask with
      | Some (m :: mask') => blend_pixel m b s :: paste_data bg' src' (Some mask')
      | Some [] => bg
      | None => s :: paste_data bg' src' None
      end
  | _, _ => bg
  end.


Definition white : pixel := [255; 255; 255]%Z.

Definition MAX_WIDTH : Z := 1920.
Definition MAX_HEIGHT : Z := 1920.
Definition MAX_FILE_SIZE : Z := 10 * 1024 * 1024.
Definition SUPPORTED_FORMATS : list str :=
  [lit "PNG"; lit "JPEG"; lit "JPG"; lit "WEBP"].

Definition PDF_MAX_FILE_SIZE : Z := 20 * 1024 * 1024.
Definition RENDER_DPI : Z := 200.

(** [round_aspect] of [Image.thumbnail]:
    [max(min(math.floor(number), math.ceil(number), key=key), 1)];
    [min] keeps its first argument unless the second has a smaller key. *)
Definition round_aspect (number : Q) (key : Z -> Q) : Z :=
  let lo := Qfloor number in
  let hi := Qceiling number in
  Z.max (if Qle_bool (key lo) (key hi) then lo else hi) 1.

Definition ZeroDivisionError : error :=
  mkError (lit "ZeroDivisionError") (lit "division by zero").

(** [preserve_aspect_ratio] of [Image.thumbnail] (Pillow 7 and later) for
    the requested size [(x, y)]; the quotients are exact rationals here,
    binary64 in Pillow. *)
Definition preserve_aspect_ratio (img : image) (x y : Z)
  : result (option (Z * Z)) :=
  if ((x >=? width img) && (y >=? height img))%Z then Return None
  else if (height img =? 0)%Z then Raise ZeroDivisionError
  else
    let aspect := (inject_Z (width img) / inject_Z (height img))%Q in
    if Qle_bool aspect (inject_Z x / inject_Z y)%Q then
      Return (Some (round_aspect (inject_Z y * aspect)%Q
                      (fun n => Qabs.Qabs (aspect - inject_Z n / inject_Z y)%Q), y))
    else
      Return (Some (x, round_aspect (inject_Z x / aspect)%Q
                      (fun n => if (n =? 0)%Z then 0%Q
                                else Qabs.Qabs (aspect - inject_Z x / inject_Z n)%Q)))
  .

Section WithLibrary.
Context {lib : Library}.

(** [img.load()] *)
Definition load (img : image) : result image :=
  px <- Image_load img ;;
  Return (set_mode_data img (mode img) px).

(** [img.convert(m)] of a loaded image *)
Definition convert (img : image) (m : str) : result image :=
  match convert_pixel (palette img) (mode img) m with
  | Some f => Return (set_mode_data img m (map f (data img)))
  | None => px <- convert_data img m ;; Return (set_mode_data img m px)
  end.

(** [background.paste(img, mask=mask)] *)
Definition paste (background img : image) (mask : option (list Z)) : image :=
  set_mode_data background (mode background)
    (paste_data (data background)
       (map (colour_bands (mode img)) (data img)) mask).

(** The statements under "Convert to RGB if necessary", which
    [process_image] and [pdf_to_image] both contain. *)
Definition convert_to_rgb (img : image) : result image :=
  if mode_in (mode img) [lit "RGBA"; lit "LA"; lit "P"] then
    let background := Image_new (lit "RGB") (size img) white in
    img1 <- (if str_eqb (mode img) (lit "P")
             then convert img (lit "RGBA") else Return img) ;;
    let mask :=
      if mode_in (mode img1) [lit "RGBA"; lit "LA"]
      then Some (map alpha (data img1)) else None in
    Return (paste background img1 mask)
  else if negb (str_eqb (mode img) (lit "RGB")) then convert img (lit "RGB")
  else Return img.

(** [img.thumbnail(size, Image.Resampling.LANCZOS)] *)
Definition thumbnail (img : image) (sz : Z * Z) : result image :=
  final <- preserve_aspect_ratio img (fst sz) (snd sz) ;;
  match final with
  | None => Return img
  | Some final_size =>
      if ((fst final_size =? width img) && (snd final_size =? height img))%Z
      then Return img
      else
        px <- resize_data img final_size ;;
        Return (mkImage (format img) (mode img) (fst final_size)
                  (snd final_size) (palette img) px)
  end.

(** The image that [process_image] hands to the PNG encoder. *)
Definition normalized (file_content : bytes) : result image :=
  img <- Image_open file_content ;;
  img <- load img ;;
  img <- convert_to_rgb img ;;
  if ((width img >? MAX_WIDTH) || (height img >? MAX_HEIGHT))%Z
  then thumbnail img (MAX_WIDTH, MAX_HEIGHT)
  else Return img.

(** [ImageProcessor.process_image] *)
Definition process_image (file_content : bytes)
  : result (option bytes * option str) :=
  try_except
    (img <- normalized file_content ;;
     processed_bytes <- save_png img ;;
     Return (Some processed_bytes, None))
    (fun e => Return (None, Some (err_str e))).

(** [', '.join(xs)] *)
Fixpoint join (sep : str) (xs : list str) : str :=
  match xs with
  | [] => []
  | [x] => x
  | x :: rest => x ++ sep ++ join sep rest
  end.

(** [f"{img.format}"] *)
Definition format_str (f : option str) : str :=
  match f with Some s => s | None => lit "None" end.

Definition format_supported (f : option str) : bool :=
  match f with Some s => mode_in s SUPPORTED_FORMATS | None => false end.

(** [ImageProcessor.validate_image]; [MAX_FILE_SIZE / 1024 / 1024]
    prints as [10.0]. *)
Definition validate_image (file_content : bytes) (filename : str)
  : result (bool * str) :=
  if (Z.of_nat (length file_content) >? MAX_FILE_SIZE)%Z then
    Return (false, lit "File size exceeds maximum of " ++ lit "10.0" ++ lit "MB")
  else
    try_except
      (img <- Image_open file_content ;;
       if negb (format_supported (format img)) then
         Return (false, lit "Unsupported format: " ++ format_str (format img)
                        ++ lit ". Supported: "
                        ++ join (lit ", ") (set_iter SUPPORTED_FORMATS))
       else Return (true, []))
      (fun e => Return (false, lit "Invalid image file: " ++ err_str e)).

(** [PDFConverter.pdf_to_image] *)
Definition pdf_to_image (pdf_content : bytes) (page_number : Z)
  : result (option bytes * option str) :=
  try_except
    (images <- convert_from_bytes pdf_content RENDER_DPI page_number page_number ;;
     match images with
     | [] => Return (None, Some (lit "Could not convert PDF page "
                                 ++ PyStr.of_int page_number))
     | img :: _ =>
         img <- convert_to_rgb img ;;
         image_bytes <- save_png img ;;
         Return (Some image_bytes, None)
     end)
    (fun e => Return (None, Some (err_str e))).

End WithLibrary.

(** The two shapes of the pair that [process_image] and [pdf_to_image]
    return. *)
Definition bytes_or_error (r : option bytes * option str) : Prop :=
  (exists b, r = (Some b, None)) \/ (exists e, r = (None, Some e)).

End Imaging.

(** ** A small library instance for examples

    One-pixel images only: three bytes are an RGB pixel of a PNG, four an
    RGBA pixel of a PNG, two an (index, alpha) pixel of a TIFF with a
    one-entry palette; a single byte is the header of a 4000 x 3000 JPEG
    whose pixel data are left out.  The encoder writes one-pixel RGB
    images. *)

Module Fixture.
Import Imaging.

Definition byte_val (b : Byte.byte) : Z := Z.of_N (Byte.to_N b).

Definition Image_open (b : bytes) : result image :=
  match b with
  | [_] => Return (mkImage (Some (lit "JPEG")) (lit "RGB") 4000 3000 [] [])
  | [i; a] =>
      Return (mkImage (Some (lit "TIFF")) (lit "PA") 1 1 [[0; 0; 0; 255]%Z]
                [[byte_val i; byte_val a]])
  | [r; g; bl] =>
      Return (mkImage (Some (lit "PNG")) (lit "RGB") 1 1 []
                [[byte_val r; byte_val g; byte_val bl]])
  | [r; g; bl; a] =>
      Return (mkImage (Some (lit "PNG")) (lit "RGBA") 1 1 []
                [[byte_val r; byte_val g; byte_val bl; byte_val a]])
  | _ => Raise (mkError (lit "UnidentifiedImageError")
                  (lit "cannot identify image file"))
  end.

Definition to_byte (z : Z) : option Byte.byte :=
  if (z <? 0)%Z then None else Byte.of_N (Z.to_N z).

Definition save_png (img : image) : result bytes :=
  let refuse := Raise (mkError (lit "OSError") (lit "encoder error")) in
  if str_eqb (mode img) (lit "RGB") && (width img =? 1)%Z && (height img =? 1)%Z
  then
    match data img with
    | [[r; g; bl]] =>
        match to_byte r, to_byte g, to_byte bl with
        | Some r', Some g', Some b' => Return [r'; g'; b']
        | _, _, _ => refuse
        end
    | _ => refuse
    end
  else refuse.

Definition library : Library := {|
  Imaging.Image_open := Image_open;
  Image_load := fun img => Return (data img);
  convert_data := fun _ _ =>
    Raise (mkError (lit "ValueError") (lit "conversion not supported"));
  resize_data := fun _ _ => Return [];
  Imaging.save_png := save_png;
  convert_from_bytes := fun _ _ _ _ => Return [];
  set_iter := fun xs => xs
|}.

End Fixture.

(** ** Diagram analysis client: [ImageAnalysisAgent.analyze_architecture_diagram] *)

Module Client.

(** The lines of the prompt of [_create_analysis_prompt], written with an
    apostrophe for the double quote and a caret for the arrow U+2192. *)
Definition prompt_lines : list string :=
  [     "You are an expert cloud architecture analyst. Analyze this cloud architecture diagram and extract the following information:"%string;
   EmptyString;
   "1. **Cloud Provider**: Identify the cloud provider (AWS, Azure, or GCP) based on the service icons and naming conventions visible in the diagram."%string;
   EmptyString;
   "2. **Components**: Identify all cloud services and components shown in the diagram. For each component, provide:"%string;
   "   - Component type (load_balancer, compute, database, storage, cache, cdn, networking, security, serverless, etc.)"%string;
   "   - Specific service name (e.g., 'Application Load Balancer', 'EC2', 'RDS', 'S3', etc.)"%string;
   "   - Confidence score (0-100%) indicating how certain you are about the identification"%string;
   EmptyString;
   "3. **Architecture Complexity**: Assess the overall complexity as:"%string;
   "   - 'low' - Simple, few components (1-3)"%string;
   "   - 'medium' - Moderate complexity (4-8 components)"%string;
   "   - 'high' - Complex architecture (9+ components)"%string;
   EmptyString;
   "4. **Connections**: Identify the relationships and data flow between components"%string;
   EmptyString;
   "5. **Estimated Cost**: Provide a rough monthly cost estimate in USD based on typical usage"%string;
   EmptyString;
   "Return your analysis as a JSON object with this exact structure:"%string;
   EmptyString;
   "```json"%string;
   "{"%string;
   "  'provider': 'aws' | 'azure' | 'gcp',"%string;
   "  'detected_components': ["%string;
   "    {"%string;
   "      'type': 'component_type',"%string;
   "      'service_name': 'Specific Service Name',"%string;
   "      'confidence': 95,"%string;
   "      'category': 'network' | 'compute' | 'database' | 'storage' | 'cache' | 'cdn' | 'security' | 'serverless',"%string;
   "      'description': 'Brief description of what this component does'"%string;
   "    }"%string;
   "  ],"%string;
   "  'complexity': 'low' | 'medium' | 'high',"%string;
   "  'estimated_monthly_cost': 245.50,"%string;
   "  'connections': ["%string;
   "    {"%string;
   "      'from': 'component_index',"%string;
   "      'to': 'component_index',"%string;
   "      'type': 'http' | 'tcp' | 'data_flow' | 'api_call'"%string;
   "    }"%string;
   "  ],"%string;
   "  'architecture_pattern': 'Brief description of the overall architecture pattern',"%string;
   "  'recommendations': ["%string;
   "    'Optional: List any recommendations for improvement'"%string;
   "  ]"%string;
   "}"%string;
   "```"%string;
   EmptyString;
   "**Important Guidelines:**"%string;
   "- Only include components you can clearly identify with >70% confidence"%string;
   "- Use standard cloud service names (e.g., 'Application Load Balancer' not 'ALB')"%string;
   "- Be conservative with cost estimates"%string;
   "- Identify the provider based on visual clues like icons, service names, and diagram style"%string;
   "- If the diagram is unclear or unreadable, set low confidence scores"%string;
   EmptyString;
   "**Component Type Mapping:**"%string;
   "- Load Balancers ^ type: 'load_balancer', category: 'network'"%string;
   "- VMs/Instances ^ type: 'virtual_machine', category: 'compute'"%string;
   "- Containers/ECS/AKS ^ type: 'container', category: 'compute'"%string;
   "- Lambda/Functions ^ type: 'function', category: 'serverless'"%string;
   "- Databases ^ type: 'database', category: 'database'"%string;
   "- Object Storage ^ type: 'object_storage', category: 'storage'"%string;
   "- Cache (Redis/Memcached) ^ type: 'cache', category: 'cache'"%string;
   "- CDN ^ type: 'cdn', category: 'cdn'"%string;
   "- VPC/VNet ^ type: 'vpc', category: 'network'"%string;
   "- API Gateway ^ type: 'api_gateway', category: 'serverless'"%string;
   EmptyString;
   "Return ONLY the JSON object, no additional text."%string].

Definition prompt_char (c : char) : char :=
  if N.eqb c 39 then 34%N else if N.eqb c 94 then 8594%N else c.

Fixpoint unlines (ls : list str) : str :=
  match ls with
  | [] => []
  | [l] => l
  | l :: rest => l ++ 10%N :: unlines rest
  end.

Definition _create_analysis_prompt : str :=
  map prompt_char (unlines (map lit prompt_lines)).

(** One [invoke_model] call: the model id and the request body before
    [json.dumps]. *)
Record call := mkCall { modelId : str; body : json }.

(** The Bedrock runtime behind [bedrock_client.invoke_model]: given the
    calls made so far and a new call, the text that the bytes of
    [response['body'].read()] decode to, or the exception that botocore or
    the decoding raises. *)
Definition endpoint := list call -> call -> outcome exn str.

(** [json.loads] of the bytes of the body: the encoding is detected and a
    byte-order mark dropped by the decoding, so that the refusal of U+FEFF,
    which is for [str] arguments, does not apply. *)
Definition loads_body (text : str) : outcome exn json :=
  match Json.decode text with
  | Some v => Return v
  | None => Raise JSONDecodeError
  end.

Definition request_body (image_base64 image_format : str) : json :=
  JDict
    [(lit "anthropic_version", JStr (lit "bedrock-2023-05-31"));
     (lit "max_tokens", JInt 4096);
     (lit "temperature", JFloat (lit "0.3"));
     (lit "messages",
      JList
        [JDict
           [(lit "role", JStr (lit "user"));
            (lit "content",
             JList
               [JDict
                  [(lit "type", JStr (lit "image"));
                   (lit "source",
                    JDict
                      [(lit "type", JStr (lit "base64"));
                       (lit "media_type", JStr (lit "image/" ++ image_format));
                       (lit "data", JStr image_base64)])];
                JDict
                  [(lit "type", JStr (lit "text"));
                   (lit "text", JStr _create_analysis_prompt)]])]])].

(** [v[0]]; a dictionary read by [json.loads] has only [str] keys. *)
Definition py_first (v : json) : outcome exn json :=
  match v with
  | JList (x :: _) => Return x
  | JList [] => Raise IndexError
  | JStr (c :: _) => Return (JStr [c])
  | JStr [] => Raise IndexError
  | JDict _ => Raise (KeyError (JInt 0))
  | _ => Raise TypeError
  end.

(** [analysis_text[:200]] in the [logger.debug] f-string, then the call of
    [_parse_analysis_response], for a reply whose text field holds [v].
    A list is sliced and then fails at its first [str] method; the other
    values cannot be sliced. *)
Definition parse_reply (v : json) : outcome exn json :=
  match v with
  | JStr analysis_text => Extractor._parse_analysis_response analysis_text
  | JList _ => Raise AttributeError
  | _ => Raise TypeError
  end.

(** The body of the [try]; the trace of calls is threaded through. *)
Definition analyze_body (ep : endpoint) (model_id image_base64 image_format : str)
           (calls : list call) : outcome exn json * list call :=
  let c := mkCall model_id (request_body image_base64 image_format) in
  (raw <- ep calls c ;;
   response_body <- loads_body raw ;;
   content <- Extractor.py_getitem response_body (lit "content") ;;
   first <- py_first content ;;
   analysis_text <- Extractor.py_getitem first (lit "text") ;;
   parse_reply analysis_text,
   calls ++ [c]).

(** [except Exception as e: logger.error(...); raise] *)
Definition analyze_architecture_diagram (ep : endpoint)
           (model_id image_base64 image_format : str) (calls : list call)
  : outcome exn json * list call :=
  let (r, calls') := analyze_body ep model_id image_base64 image_format calls in
  (try_except r (fun e => Raise e), calls').

End Client.

(** ** Base64 text of an image: [ImageProcessor.encode_image_base64] *)

Module Base64.

(** [table_b2a_base64] and [BASE64_PAD] of CPython's [binascii]. *)
Definition table_b2a_base64 : str :=
  lit "ABCDEFGHIJKLMNOPQRSTUVWXYZabcdefghijklmnopqrstuvwxyz0123456789+/".

Definition BASE64_PAD : N := 61.

Definition b2a (this_ch : N) : N := nth (N.to_nat this_ch) table_b2a_base64 0%N.

(** An [unsigned int] of 32 bits. *)
Definition uint (x : N) : N := N.land x 4294967295.

(** [while (leftbits >= 6)]: the six-bit groups that are ready; each round
    takes six bits, so [fuel] rounds suffice when [leftbits <= 6 * fuel + 5]. *)
Fixpoint ready (fuel : nat) (leftchar leftbits : N) : list N * N :=
  match fuel with
  | O => ([], leftbits)
  | S fuel' =>
      if (6 <=? leftbits)%N then
        let this_ch := N.land (N.shiftr leftchar (leftbits - 6)) 63 in
        let (out, left) := ready fuel' leftchar (leftbits - 6) in
        (b2a this_ch :: out, left)
      else ([], leftbits)
  end.

(** The loop of [binascii.b2a_base64] over the bytes of the input and the
    padding after it; no newline is appended ([newline=False]). *)
Fixpoint b2a_loop (bin_data : list N) (leftchar leftbits : N) : list N :=
  match bin_data with
  | d :: rest =>
      let leftchar := uint (N.lor (N.shiftl leftchar 8) d) in
      let (out, leftbits) := ready (N.to_nat (leftbits + 8)) leftchar (leftbits + 8) in
      out ++ b2a_loop rest leftchar leftbits
  | [] =>
      if (leftbits =? 2)%N then
        [b2a (N.shiftl (N.land leftchar 3) 4); BASE64_PAD; BASE64_PAD]
      else if (leftbits =? 4)%N then
        [b2a (N.shiftl (N.land leftchar 15) 2); BASE64_PAD]
      else []
  end.

(** [base64.b64encode(s)]: the byte values of the encoded text. *)
Definition b64encode (s : Imaging.bytes) : list N :=
  b2a_loop (map Byte.to_N s) 0 0.

(** [UnicodeDecodeError]; [start] is the index of the first byte of the
    sequence that is not well formed. *)
Inductive decode_error := UnicodeDecodeError (start : nat).

Definition continuation (b : N) : bool := ((128 <=? b) && (b <=? 191))%N.

Definition between (lo b hi : N) : bool := ((lo <=? b) && (b <=? hi))%N.

(** The range of the second byte after the lead byte [b1] of a sequence of
    three or four bytes: overlong forms, surrogates and code points above
    U+10FFFF are not well formed. *)
Definition second_ok (b1 b2 : N) : bool :=
  if (b1 =? 224)%N then between 160 b2 191
  else if (b1 =? 237)%N then between 128 b2 159
  else if (b1 =? 240)%N then between 144 b2 191
  else if (b1 =? 244)%N then between 128 b2 143
  else continuation b2.

Definition low6 (b : N) : N := N.land b 63.

(** [bytes.decode('utf-8')] with the default error handler [strict]. *)
Fixpoint utf8_decode (s : list N) (pos : nat) : outcome decode_error str :=
  match s with
  | [] => Return []
  | b1 :: r1 =>
      if (b1 <? 128)%N then
        t <- utf8_decode r1 (pos + 1) ;; Return (b1 :: t)
      else if between 194 b1 223 then
        match r1 with
        | b2 :: r2 =>
            if continuation b2 then
              t <- utf8_decode r2 (pos + 2) ;;
              Return (N.lor (N.shiftl (N.land b1 31) 6) (low6 b2) :: t)
            else Raise (UnicodeDecodeError pos)
        | _ => Raise (UnicodeDecodeError pos)
        end
      else if between 224 b1 239 then
        match r1 with
        | b2 :: b3 :: r3 =>
            if second_ok b1 b2 && continuation b3 then
              t <- utf8_decode r3 (pos + 3) ;;
              Return (N.lor (N.shiftl (N.land b1 15) 12)
                        (N.lor (N.shiftl (low6 b2) 6) (low6 b3)) :: t)
            else Raise (UnicodeDecodeError pos)
        | _ => Raise (UnicodeDecodeError pos)
        end
      else if between 240 b1 244 then
        match r1 with
        | b2 :: b3 :: b4 :: r4 =>
            if second_ok b1 b2 && continuation b3 && continuation b4 then
              t <- utf8_decode r4 (pos + 4) ;;
              Return (N.lor (N.shiftl (N.land b1 7) 18)
                        (N.lor (N.shiftl (low6 b2) 12)
                           (N.lor (N.shiftl (low6 b3) 6) (low6 b4))) :: t)
            else Raise (UnicodeDecodeError pos)
        | _ => Raise (UnicodeDecodeError pos)
        end
      else Raise (UnicodeDecodeError pos)
  end.

(** [ImageProcessor.encode_image_base64]:
    [base64.b64encode(image_bytes).decode('utf-8')] *)
Definition encode_image_base64 (image_bytes : Imaging.bytes)
  : outcome decode_error str :=
  utf8_decode (b64encode image_bytes) 0.

End Base64.

(** ** Metadata of uploads: [ImageProcessor.get_image_info],
       [PDFConverter.validate_pdf], [PDFConverter.get_pdf_info] *)

Module Info.
Import Imaging.

(** A [PdfReader] of PyPDF2 as far as the code reads it.  The page tree and
    the information dictionary are parsed when they are asked for, so each
    attribute may raise. *)
Record reader := mkReader {
  pages_len : result nat;                          (* [len(pdf.pages)] *)
  metadata : result (option (list (str * json)))
    (* [pdf.metadata]: [None], or the entries of the information
       dictionary as Python values *)
}.

Class PdfLibrary := {
(** [PdfReader(io.BytesIO(b))] *)
PdfReader : bytes -> result reader
}.

(** [img.format] as a value of a dictionary. *)
Definition format_value (f : option str) : json :=
  match f with Some s => JStr s | None => JNull end.

Section WithLibrary.
Context {lib : Library} {pdflib : PdfLibrary}.

(** [ImageProcessor.get_image_info] *)
Definition get_image_info (file_content : bytes) : result json :=
  try_except
    (img <- Image_open file_content ;;
     Return (JDict [(lit "format", format_value (format img));
                    (lit "mode", JStr (mode img));
                    (lit "width", JInt (width img));
                    (lit "height", JInt (height img));
                    (lit "size_bytes", JInt (Z.of_nat (length file_content)))]))
    (fun e => Return (JDict [])).

(** [PDFConverter.validate_pdf]; [MAX_FILE_SIZE / 1024 / 1024] prints as
    [20.0]. *)
Definition validate_pdf (file_content : bytes) (filename : str)
  : result (bool * str) :=
  if (Z.of_nat (length file_content) >? PDF_MAX_FILE_SIZE)%Z then
    Return (false, lit "PDF size exceeds maximum of " ++ lit "20.0" ++ lit "MB")
  else
    try_except
      (pdf <- PdfReader file_content ;;
       page_count <- pages_len pdf ;;
       if Nat.eqb page_count 0 then Return (false, lit "PDF has no pages")
       else Return (true, []))
      (fun e => Return (false, lit "Invalid PDF file: " ++ err_str e)).

(** [dict(pdf.metadata) if pdf.metadata else {}]: the attribute is read for
    the test and read again, with the same outcome, for the copy; a missing
    and an empty dictionary are both false and give [{}]. *)
Definition metadata_dict (pdf : reader) : result json :=
  m <- metadata pdf ;;
  match m with
  | Some (entry :: entries) => Return (JDict (entry :: entries))
  | _ => Return (JDict [])
  end.

(** [PDFConverter.get_pdf_info] *)
Definition get_pdf_info (pdf_content : bytes) : result json :=
  try_except
    (pdf <- PdfReader pdf_content ;;
     page_count <- pages_len pdf ;;
     md <- metadata_dict pdf ;;
     Return (JDict [(lit "page_count", JInt (Z.of_nat page_count));
                    (lit "size_bytes", JInt (Z.of_nat (length pdf_content)));
                    (lit "metadata", md)]))
    (fun e => Return (JDict [])).

End WithLibrary.
End Info.

(** ** A PDF library instance for examples

    A file is a PDF when it starts with a percent sign; each further byte
    is a page, rendered at 200 dpi as a letter page of 1700 x 2200 pixels
    whose pixel data are left out.  The encoder writes the PNG signature
    for every RGB image. *)

Module PdfFixture.
Import Imaging Info.

Definition starts_as_pdf (b : bytes) : bool :=
  match b with
  | Byte.x25 :: _ => true
  | _ => false
  end.

Definition PdfReader (b : bytes) : result reader :=
  if starts_as_pdf b
  then Return (mkReader (Return (length b - 1)) (Return None))
  else Raise (mkError (lit "PdfReadError") (lit "EOF marker not found")).

Definition convert_from_bytes (b : bytes) (dpi first_page last_page : Z)
  : result (list image) :=
  if starts_as_pdf b then
    if ((1 <=? first_page) && (first_page <=? Z.of_nat (length b - 1)))%Z
    then Return [mkImage (Some (lit "PPM")) (lit "RGB") 1700 2200 [] []]
    else Return []
  else Raise (mkError (lit "PDFPageCountError") (lit "Unable to get page count.")).

Definition save_png (img : image) : result bytes :=
  if str_eqb (mode img) (lit "RGB")
  then Return [Byte.x89; Byte.x50; Byte.x4e; Byte.x47]
  else Raise (mkError (lit "OSError") (lit "encoder error")).

Definition library : Library := {|
  Imaging.Image_open := Fixture.Image_open;
  Image_load := fun img => Return (data img);
  convert_data := fun _ _ =>
    Raise (mkError (lit "ValueError") (lit "conversion not supported"));
  resize_data := fun _ _ => Return [];
  Imaging.save_png := save_png;
  Imaging.convert_from_bytes := convert_from_bytes;
  set_iter := fun xs => xs
|}.

Definition pdf_library : PdfLibrary := {| Info.PdfReader := PdfReader |}.

End PdfFixture.

(** ** The analysis agent and its singleton: [ImageAnalysisAgent.__init__],
       [get_image_analysis_agent] *)

Module Agent.
Import Client.

(** [os.environ] *)
Definition environ := str -> option str.

(** [os.getenv(key, default)] *)
Definition getenv (env : environ) (key default : str) : str :=
  match env key with
  | Some value => value
  | None => default
  end.

(** [boto3.client(service_name, region_name=...)]: the runtime client, or
    the exception that botocore raises. *)
Definition boto3_client := str -> str -> outcome exn endpoint.

Record ImageAnalysisAgent := mkAgent {
  bedrock_client : endpoint;
  model_id : str
}.

(** [ImageAnalysisAgent.__init__] *)
Definition __init__ (client : boto3_client) (env : environ)
  : outcome exn ImageAnalysisAgent :=
  bedrock <- client (lit "bedrock-runtime")
               (getenv env (lit "AWS_DEFAULT_REGION") (lit "us-west-2")) ;;
  Return (mkAgent bedrock
            (getenv env (lit "BEDROCK_MODEL_ID")
               (lit "anthropic.claude-3-5-sonnet-20241022-v2:0"))).

(** [get_image_analysis_agent]; the module variable
    [_image_analysis_agent] is passed in and handed back. *)
Definition get_image_analysis_agent (client : boto3_client) (env : environ)
           (_image_analysis_agent : option ImageAnalysisAgent)
  : outcome exn ImageAnalysisAgent * option ImageAnalysisAgent :=
  match _image_analysis_agent with
  | None =>
      match __init__ client env with
      | Return agent => (Return agent, Some agent)
      | Raise e => (Raise e, None)
      end
  | Some agent => (Return agent, Some agent)
  end.

(** [agent.analyze_architecture_diagram(image_base64, image_format)] *)
Definition analyze (agent : ImageAnalysisAgent) (image_base64 image_format : str)
           (calls : list call) : outcome exn json * list call :=
  analyze_architecture_diagram (bedrock_client agent) (model_id agent)
    image_base64 image_format calls.

End Agent.

(** ** The upload endpoint: [analyze_architecture_image] of [api/main.py],
       from the reading of the upload to the content that is passed on *)

Module Api.
Import Imaging Info.

(** The [UploadFile] of the request; a part of the form is taken for a
    file only when it carries a file name. *)
Record UploadFile := mkUploadFile {
  filename : str;               (* [file.filename] *)
  content_type : option str;    (* [file.content_type] *)
  read : result bytes           (* [await file.read()] *)
}.

Record HTTPException := mkHTTPException { status_code : Z; detail : str }.

(** What the body of the [try] raises: an [HTTPException], or any other
    exception. *)
Inductive raised :=
| Http (h : HTTPException)
| Other (e : error).

Definition lift {A} (r : result A) : outcome raised A :=
  match r with
  | Return a => Return a
  | Raise e => Raise (Other e)
  end.

(** [str.lower] for a text with characters outside ASCII: the case
    mappings of the Unicode database. *)
Class Unicode := { unicode_lower : str -> str }.

Definition is_ascii (s : str) : bool := forallb (fun c => (c <? 128)%N) s.

Definition ascii_lower (c : char) : char :=
  if ((65 <=? c) && (c <=? 90))%N then (c + 32)%N else c.

(** [s.split(sep)] for a separator of one character. *)
Fixpoint split (sep : char) (s : str) : list str :=
  match s with
  | [] => [[]]
  | c :: rest =>
      if (c =? sep)%N then [] :: split sep rest
      else match split sep rest with
           | part :: parts => (c :: part) :: parts
           | [] => [[c]]
           end
  end.

(** A value is true unless it is [None] or empty. *)
Definition truthy (s : option str) : bool :=
  match s with
  | Some (_ :: _) => true
  | _ => false
  end.

(** [f"{s}"] *)
Definition fmt (s : option str) : str :=
  match s with Some t => t | None => lit "None" end.

Section WithLibrary.
Context {lib : Library} {pdflib : PdfLibrary} {uni : Unicode}.

(** [s.lower()]; CPython lowers a text of ASCII characters byte by byte. *)
Definition lower (s : str) : str :=
  if is_ascii s then map ascii_lower s else unicode_lower s.

(** [file.filename.split('.')[-1].lower() if '.' in file.filename else ''] *)
Definition file_extension (file : UploadFile) : str :=
  if PyStr.contains (lit ".") (filename file)
  then lower (last (split 46%N (filename file)) [])
  else [].

(** [file_extension == 'pdf' or file.content_type == 'application/pdf'] *)
Definition is_pdf (file : UploadFile) : bool :=
  str_eqb (file_extension file) (lit "pdf")
  || match content_type file with
     | Some t => str_eqb t (lit "application/pdf")
     | None => false
     end.

(** The body of the [try] down to the assignment of [processed_content]. *)
Definition processed_content_body (file : UploadFile) : outcome raised (option bytes) :=
  file_content <- lift (read file) ;;
  if is_pdf file then
    v <- lift (validate_pdf file_content (filename file)) ;;
    let (is_valid, error_msg) := v in
    if negb is_valid then Raise (Http (mkHTTPException 400 error_msg))
    else
      r <- lift (pdf_to_image file_content 1) ;;
      let (image_bytes, pdf_error) := r in
      if truthy pdf_error
      then Raise (Http (mkHTTPException 400
                          (lit "PDF conversion failed: " ++ fmt pdf_error)))
      else Return image_bytes
  else
    v <- lift (validate_image file_content (filename file)) ;;
    let (is_valid, error_msg) := v in
    if negb is_valid then Raise (Http (mkHTTPException 400 error_msg))
    else
      r <- lift (process_image file_content) ;;
      let (processed_bytes, img_error) := r in
      if truthy img_error
      then Raise (Http (mkHTTPException 400
                          (lit "Image processing failed: " ++ fmt img_error)))
      else Return processed_bytes.

(** [except HTTPException: raise] and
    [except Exception as e: raise HTTPException(status_code=500, detail=str(e))]
    around it: the content that [analyze_architecture_image] backs up and
    analyses, or the exception with which it ends before that. *)
Definition processed_content (file : UploadFile)
  : outcome HTTPException (option bytes) :=
  match processed_content_body file with
  | Return content => Return content
  | Raise (Http h) => Raise h
  | Raise (Other e) => Raise (mkHTTPException 500 (err_str e))
  end.

End WithLibrary.
End Api.

(** The case mapping of the examples, whose file names are ASCII. *)

Module ApiFixture.
Definition unicode : Api.Unicode := {| Api.unicode_lower := fun s => s |}.
End ApiFixture.

(** ** Notions used in the proofs about the JSON scanner *)

Module JsonAux.
Import Json.

(** A text of JSON white space only. *)
Definition all_ws (s : str) : Prop := Forall (fun c => is_ws c = true) s.

(** Two texts that differ only in a tail of white space. *)
Inductive same_but_tail : str -> str -> Prop :=
| tail_ws (w w' : str) : all_ws w -> all_ws w' -> same_but_tail w w'
| tail_cons (c : char) (r r' : str) :
    same_but_tail r r' -> same_but_tail (c :: r) (c :: r').

(** The digits of the integer part after an optional sign. *)
Definition unsigned_part (sign s1 : str) : option (str * str) :=
  match s1 with
  | d :: r =>
      if (d =? 48)%N then Some (sign ++ [d], r)
      else if is_digit d then
        let (ds, r') := span_digits r in Some (sign ++ d :: ds, r')
      else None
  | [] => None
  end.

(** The digits of an exponent after its marker. *)
Definition exp_digits (c : char) (s r : str) : str * str :=
  let (sign, r1) :=
    match r with
    | g :: r0 => if ((g =? 45) || (g =? 43))%N then ([g], r0) else ([], r)
    | [] => ([], r)
    end in
  match span_digits r1 with
  | ([], _) => ([], s)
  | (ds, r') => (c :: sign ++ ds, r')
  end.

(** A text free of JSON white space. *)
Definition no_ws (p : str) : Prop := Forall (fun c => is_ws c = false) p.

(** What [scanstring] finds after a high surrogate: the escape of a low
    surrogate and the text after it, a malformed escape, or neither. *)
Inductive look :=
| LPair (uni2 : N) (r4 : str)
| LError
| LNone.

Definition look_low (r2 : str) : look :=
  match r2 with
  | b :: u :: r3 =>
      if ((b =? 92) && (u =? 117))%N then
        match r3 with
        | g1 :: g2 :: g3 :: g4 :: r4 =>
            match hex4 g1 g2 g3 g4 with
            | None => LError
            | Some uni2 => if is_low_surrogate uni2 then LPair uni2 r4 else LNone
            end
        | _ => LError
        end
      else LNone
  | _ => LNone
  end.

(** Whatever the first scan gives, the second gives with a rest that
    differs in the tail of white space only. *)
Definition simulates (p p' : pres) : Prop :=
  forall v r, p = POk v r -> exists r', p' = POk v r' /\ same_but_tail r r'.

(** [r] is what is left of [s] after some prefix. *)
Definition suffix (r s : str) : Prop := exists x, s = x ++ r.

(** [r] is what is left of [s] after a prefix that ends in a character which
    is not white space for [str.strip]. *)
Definition ends_solid (s r : str) : Prop :=
  exists body c, s = body ++ c :: r /\ PyStr.isspace c = false.

(** [r] is left of [s] after a prefix that is empty or ends in a digit. *)
Definition digits_before (s r : str) : Prop :=
  s = r \/ exists body c, s = body ++ c :: r /\ is_digit c = true.

End JsonAux.

(** ** Notions used in the proofs about the Base64 encoder *)

Module Base64Aux.
Import Base64.

(** The encoding written by groups of three bytes. *)
Fixpoint groups (data : list N) : list N :=
  match data with
  | d0 :: d1 :: d2 :: rest =>
      b2a (d0 / 4) :: b2a (d0 mod 4 * 16 + d1 / 16)
        :: b2a (d1 mod 16 * 4 + d2 / 64) :: b2a (d2 mod 64) :: groups rest
  | [d0; d1] =>
      [b2a (d0 / 4); b2a (d0 mod 4 * 16 + d1 / 16); b2a (d1 mod 16 * 4); BASE64_PAD]
  | [d0] => [b2a (d0 / 4); b2a (d0 mod 4 * 16); BASE64_PAD; BASE64_PAD]
  | [] => []
  end.

(** The index of a character in the table. *)
Fixpoint index_of (c : N) (table : list N) : N :=
  match table with
  | [] => 0
  | x :: rest => if (x =? c)%N then 0 else N.succ (index_of c rest)
  end.

Definition a2b (c : N) : N := index_of c table_b2a_base64.

(** The bytes that a text of whole groups stands for. *)
Fixpoint ungroups (s : list N) : list N :=
  match s with
  | c1 :: c2 :: c3 :: c4 :: rest =>
      let d0 := (a2b c1 * 4 + a2b c2 / 16)%N in
      let d1 := (a2b c2 mod 16 * 16 + a2b c3 / 4)%N in
      let d2 := (a2b c3 mod 4 * 64 + a2b c4)%N in
      if (c3 =? BASE64_PAD)%N then [d0]
      else if (c4 =? BASE64_PAD)%N then [d0; d1]
      else d0 :: d1 :: d2 :: ungroups rest
  | _ => []
  end.

(** The buffer after one more byte is shifted in. *)
Definition next (lc d : N) : N := uint (N.lor (N.shiftl lc 8) d).

Definition is_byte (d : N) : Prop := (d < 256)%N.

Definition sextet (x : N) : Prop := (x < 64)%N.

(** The number of padding characters after [n] bytes. *)
Definition padding (n : nat) : nat := (3 - n mod 3) mod 3.

End Base64Aux.

(** ** Notions used in the proofs about language tags *)

Module TagAux.

(** The characters with which a JSON value can begin: a quote, a bracket,
    a brace, a sign, a digit, or the first letter of [null], [true],
    [false], [NaN] or [Infinity]. *)
Definition json_start (c : char) : bool :=
  ((c =? 34) || (c =? 123) || (c =? 91) || (c =? 45) || Json.is_digit c
   || (c =? 110) || (c =? 116) || (c =? 102) || (c =? 78) || (c =? 73))%N.

End TagAux.

(* ================================================================== *)
(** * Part II. Theorems                                                *)
(* ================================================================== *)

Unset Implicit Arguments.

(** ** Strings *)

Lemma str_eqb_eq (a b : str) : str_eqb a b = true <-> a = b.
Proof.
  revert b; induction a as [|x a IH]; intros [|y b]; simpl; split;
    try congruence; try reflexivity.
  - intros H. apply andb_true_iff in H as [Hx Hab].
    apply N.eqb_eq in Hx. apply IH in Hab. congruence.
  - intros H. injection H as -> ->. rewrite N.eqb_refl. simpl. now apply IH.
Qed.

Lemma str_eqb_refl (a : str) : str_eqb a a = true.
Proof. now apply str_eqb_eq. Qed.

Module PyStrFacts.
Import PyStr.

Lemma starts_with_app (p s : str) : starts_with p (p ++ s) = true.
Proof.
  induction p as [|a p IH]; simpl; [reflexivity|].
  now rewrite N.eqb_refl.
Qed.

(** A text that starts with [p ++ q] starts with [p]. *)
Lemma starts_with_prefix (p q s : str) :
  starts_with (p ++ q) s = true -> starts_with p s = true.
Proof.
  revert s; induction p as [|a p IH]; intros s H; simpl in *; [reflexivity|].
  destruct s as [|b s]; [discriminate|].
  apply andb_true_iff in H as [Hab H]. rewrite Hab. simpl. now apply IH.
Qed.

Lemma starts_with_length (p s : str) :
  starts_with p s = true -> length p <= length s.
Proof.
  revert s; induction p as [|a p IH]; intros s H; simpl in *; [lia|].
  destruct s as [|b s]; [discriminate|].
  apply andb_true_iff in H as [_ H]. apply IH in H. simpl. lia.
Qed.

(** Where [find_from] reports an occurrence, there is room for it. *)
Lemma find_from_bounds (sub s : str) (i j : nat) :
  find_from sub s i = Some j -> i <= j /\ j + length sub <= i + length s.
Proof.
  revert i; induction s as [|c s IH]; intros i; simpl.
  - destruct (starts_with sub []) eqn:E; [|discriminate].
    intros [= <-]. apply starts_with_length in E. simpl in E. lia.
  - destruct (starts_with sub (c :: s)) eqn:E.
    + intros [= <-]. apply starts_with_length in E. simpl in E. lia.
    + intros H. apply IH in H. lia.
Qed.

Lemma find_zero (sub s : str) :
  find sub s 0 =
  match find_from sub s 0 with Some i => Z.of_nat i | None => (-1)%Z end.
Proof.
  unfold find. simpl.
  destruct (Z.ltb_spec (Z.of_nat (length s)) 0); [lia|reflexivity].
Qed.

Lemma contains_false (sub s : str) :
  contains sub s = false <-> find_from sub s 0 = None.
Proof.
  unfold contains. rewrite find_zero.
  destruct (find_from sub s 0); split; intros H; try discriminate; try reflexivity.
  apply Z.leb_gt in H. lia.
Qed.

Lemma contains_true (sub s : str) :
  contains sub s = true <->
  exists i, find_from sub s 0 = Some i /\ find sub s 0 = Z.of_nat i.
Proof.
  unfold contains. rewrite find_zero.
  destruct (find_from sub s 0) as [i|]; split.
  - intros _. now exists i.
  - intros _. apply Z.leb_le. lia.
  - intros H. discriminate.
  - intros [i [H _]]. discriminate.
Qed.

(** A text without [sub] has no longer marker that begins with [sub]. *)
Lemma find_from_none_longer (sub ext s : str) (i j : nat) :
  find_from sub s i = None -> find_from (sub ++ ext) s j = None.
Proof.
  revert i j; induction s as [|c s IH]; intros i j; simpl.
  - destruct (starts_with sub []) eqn:E; [discriminate|]. intros _.
    destruct (starts_with (sub ++ ext) []) eqn:E'; [|reflexivity].
    apply starts_with_prefix in E'. congruence.
  - destruct (starts_with sub (c :: s)) eqn:E; [discriminate|]. intros H.
    destruct (starts_with (sub ++ ext) (c :: s)) eqn:E'.
    + apply starts_with_prefix in E'. congruence.
    + eapply IH, H.
Qed.

Lemma contains_false_longer (sub ext s : str) :
  contains sub s = false -> contains (sub ++ ext) s = false.
Proof.
  rewrite !contains_false. apply find_from_none_longer.
Qed.

(** [s[a:-1]] drops the last character of [s[a:]]. *)
Lemma slice_to_minus_one (s : str) (a : Z) :
  (0 <= a <= Z.of_nat (length s))%Z ->
  slice s a (-1) = removelast (skipn (Z.to_nat a) s).
Proof.
  intros Ha. unfold slice, adjust.
  rewrite removelast_firstn_len, length_skipn.
  destruct (Z.ltb_spec a 0); [lia|].
  change (-1 <? 0)%Z with true. cbv iota.
  f_equal; [lia|f_equal; lia].
Qed.

Lemma slice_prefix (s : str) (n : nat) :
  slice s 0 (Z.of_nat n) = firstn n s.
Proof.
  unfold slice, adjust. change (0 <? 0)%Z with false. cbv iota.
  destruct (Z.ltb_spec (Z.of_nat n) 0); [lia|].
  replace (Z.max 0 (Z.min (Z.of_nat (length s)) 0)) with 0%Z by lia.
  simpl skipn. rewrite Z.sub_0_r.
  destruct (Nat.le_gt_cases n (length s)).
  - f_equal. lia.
  - rewrite !firstn_all2; [reflexivity|lia|lia].
Qed.

Lemma lstrip_snoc (p : str) (w : char) :
  isspace w = true ->
  (lstrip (p ++ [w]) = [] /\ lstrip p = []) \/ lstrip (p ++ [w]) = lstrip p ++ [w].
Proof.
  intros Hw. induction p as [|c p IH]; simpl.
  - rewrite Hw. now left.
  - destruct (isspace c); [exact IH|now right].
Qed.

Lemma rstrip_snoc (p : str) (w : char) :
  isspace w = true -> rstrip (p ++ [w]) = rstrip p.
Proof.
  intros Hw. unfold rstrip. rewrite rev_app_distr. simpl. now rewrite Hw.
Qed.

(** White space around a text does not survive [strip]. *)
Lemma strip_padded (p : str) (w1 w2 : char) :
  isspace w1 = true -> isspace w2 = true ->
  strip (w1 :: p ++ [w2]) = strip p.
Proof.
  intros H1 H2. unfold strip. simpl. rewrite H1.
  destruct (lstrip_snoc p w2 H2) as [[E1 E2] | E]; rewrite ?E1, ?E2, ?E; [reflexivity|].
  now apply rstrip_snoc.
Qed.

End PyStrFacts.

(** ** The JSON scanner never uses up its recursion budget *)

Module JsonFacts.
Import Json.

Lemma skip_ws_length (s : str) : length (skip_ws s) <= length s.
Proof.
  induction s as [|c s IH]; simpl; [lia|].
  destruct (is_ws c); simpl; lia.
Qed.

Lemma span_digits_length (s : str) : length (snd (span_digits s)) <= length s.
Proof.
  induction s as [|c s IH]; simpl; [lia|].
  destruct (is_digit c); simpl; [|lia].
  destruct (span_digits s). simpl in *. lia.
Qed.

Ltac break_match H :=
  match type of H with
  | context [match ?x with _ => _ end] => destruct x eqn:?
  end.

(** A string literal ends after the text it was read from begins. *)
Lemma scanstring_length (n : nat) :
  forall s acc v r,
    length s <= n -> scanstring s acc = Some (v, r) -> length r < length s.
Proof.
  induction n as [|n IH]; intros s acc v r Hn H.
  - destruct s; [discriminate|simpl in Hn; lia].
  - destruct s as [|c s]; [discriminate|].
    simpl in H, Hn.
    repeat (break_match H; try discriminate; simpl in Hn);
      try (injection H as <- <-; simpl; lia);
      try (apply IH in H; simpl in *; lia).
Qed.

Ltac use_span_digits :=
  repeat match goal with
         | E : span_digits ?x = _ |- _ =>
             pose proof (span_digits_length x); rewrite E in *; clear E
         end.

Lemma match_integer_length (s i r : str) :
  match_integer s = Some (i, r) -> length r < length s.
Proof.
  unfold match_integer. intros H.
  match type of H with
  | context [let (_, _) := ?x in _] => destruct x as [sign s1] eqn:E
  end.
  assert (length s1 <= length s) as Hs.
  { destruct s as [|c r0]; [injection E as <- <-; lia|].
    destruct (c =? 45)%N; injection E as <- <-; simpl; lia. }
  clear E.
  repeat (break_match H; try discriminate); use_span_digits;
    injection H as <- <-; simpl in *; lia.
Qed.

Lemma match_frac_length (s f r : str) :
  match_frac s = (f, r) -> length r <= length s.
Proof.
  unfold match_frac. intros H.
  repeat (break_match H; try discriminate);
    use_span_digits; injection H as <- <-; simpl in *; lia.
Qed.

Lemma match_exp_length (s f r : str) :
  match_exp s = (f, r) -> length r <= length s.
Proof.
  unfold match_exp. intros H.
  destruct s as [|c s]; [injection H as <- <-; lia|].
  destruct ((c =? 101) || (c =? 69))%N; [|injection H as <- <-; lia].
  match type of H with
  | context [let (_, _) := ?x in _] => destruct x as [sign s1] eqn:E
  end.
  assert (length s1 <= length s) as Hs.
  { destruct s as [|g r0]; [injection E as <- <-; lia|].
    destruct ((g =? 45) || (g =? 43))%N; injection E as <- <-; simpl; lia. }
  clear E.
  repeat (break_match H; try discriminate); use_span_digits;
    injection H as <- <-; simpl in *; lia.
Qed.

Lemma match_number_length (s : str) (v : json) (r : str) :
  match_number s = Some (v, r) -> length r < length s.
Proof.
  unfold match_number. intros H.
  destruct (match_integer s) as [[i r0]|] eqn:Ei; [|discriminate].
  destruct (match_frac r0) as [f r1] eqn:Ef.
  destruct (match_exp r1) as [e r2] eqn:Ee.
  apply match_integer_length in Ei. apply match_frac_length in Ef.
  apply match_exp_length in Ee.
  assert (r = r2) as -> by (destruct f, e; congruence).
  lia.
Qed.

Lemma literal_length (p s : str) :
  PyStr.starts_with p s = true -> p <> [] ->
  length (skipn (length p) s) < length s.
Proof.
  intros H Hp. apply PyStrFacts.starts_with_length in H.
  rewrite length_skipn. destruct p; [congruence|]. simpl in *. lia.
Qed.

End JsonFacts.

Module JsonFuel.
Import Json JsonFacts.

Lemma within_ok (v : json) (r : str) (n : nat) :
  length r < n -> within (POk v r) n.
Proof. intros H. split; [discriminate|]. now intros ? ? [= <- <-]. Qed.

Lemma within_err (n : nat) : within PErr n.
Proof. split; discriminate. Qed.

Lemma within_weaken (p : pres) (m n : nat) :
  within p m -> m <= n -> within p n.
Proof.
  intros [H1 H2] Hmn. split; [exact H1|].
  intros v r E. apply H2 in E. lia.
Qed.

Ltac length_facts :=
  repeat match goal with
         | E : scanstring ?s ?acc = Some (_, _) |- _ =>
             apply (scanstring_length (length s)) in E; [|lia]
         | E : skip_ws ?r = _ |- _ =>
             let H := fresh "Hws" in
             pose proof (skip_ws_length r) as H; rewrite E in H; clear E
         | E : match_number _ = Some (_, _) |- _ =>
             apply match_number_length in E
         | E : PyStr.starts_with _ _ = true |- _ =>
             apply literal_length in E; [|discriminate]
         end;
  simpl in *.

Ltac split_goal :=
  repeat match goal with
         | |- within (if ?b then _ else _) _ => destruct b eqn:?
         | |- within (match ?x with _ => _ end) _ => destruct x eqn:?
         | |- within (let (_, _) := ?x in _) _ => destruct x eqn:?
         end.

Lemma scan_fuel (f : nat) :
  (forall s, 2 * length s < f -> within (scan_once f s) (length s))
  /\ (forall s vs, 2 * length s + 1 < f -> within (array_loop f s vs) (length s))
  /\ (forall s ps, 2 * length s < f -> within (object_loop f s ps) (length s)).
Proof.
  induction f as [|f (IHs & IHa & IHo)].
  - repeat split; intros; lia.
  - split; [|split].
    + intros [|c r] Hf; cbn [scan_once]; [apply within_err|].
      simpl in Hf. split_goal;
        try apply within_err;
        try (apply within_ok; length_facts; lia).
      * eapply within_weaken; [apply IHo|]; length_facts; lia.
      * eapply within_weaken; [apply IHa|]; length_facts; lia.
    + intros s vs Hf. cbn [array_loop].
      destruct (scan_once f s) as [value r| |] eqn:E.
      * destruct (IHs s ltac:(lia)) as [_ Hr]. rewrite E in Hr.
        specialize (Hr _ _ eq_refl).
        split_goal; try apply within_err;
          try (apply within_ok; length_facts; lia).
        eapply within_weaken; [apply IHa|]; length_facts;
          match goal with
          | |- context [skip_ws ?x] => pose proof (skip_ws_length x)
          end; lia.
      * apply within_err.
      * destruct (IHs s ltac:(lia)) as [Hn _]. congruence.
    + intros s ps Hf. cbn [object_loop].
      destruct (scanstring s []) as [[key r]|] eqn:Ek; [|apply within_err].
      destruct (skip_ws r) as [|c r1] eqn:E1; [apply within_err|].
      destruct (c =? 58)%N; [|apply within_err].
      length_facts.
      pose proof (skip_ws_length r1) as Hr1.
      destruct (scan_once f (skip_ws r1)) as [value r2| |] eqn:E.
      * destruct (IHs (skip_ws r1) ltac:(lia)) as [_ Hr]. rewrite E in Hr.
        specialize (Hr _ _ eq_refl).
        split_goal; try apply within_err;
          try (apply within_ok; length_facts; lia).
        eapply within_weaken; [apply IHo|]; length_facts; lia.
      * apply within_err.
      * destruct (IHs (skip_ws r1) ltac:(lia)) as [Hn _]. congruence.
Qed.

(** [decode] gives the scanner more budget than it can use. *)
Lemma scan_once_fuel (s : str) : scan_once (budget s) (skip_ws s) <> PFuel.
Proof.
  pose proof (skip_ws_length s).
  apply (proj1 (scan_fuel (budget s))). unfold budget. lia.
Qed.

End JsonFuel.

(** ** Trailing white space and the JSON scanner *)

Module TailFacts.
Import Json JsonAux JsonFacts.

Lemma is_ws_cases (c : char) :
  is_ws c = true -> c = 32%N \/ c = 9%N \/ c = 10%N \/ c = 13%N.
Proof.
  unfold is_ws. intros H.
  repeat (apply orb_true_iff in H as [H|H]); apply N.eqb_eq in H; tauto.
Qed.

Ltac ws_cases H :=
  apply is_ws_cases in H; destruct H as [H|[H|[H|H]]]; subst.

Lemma same_but_tail_sym (s s' : str) : same_but_tail s s' -> same_but_tail s' s.
Proof. induction 1; [now apply tail_ws|now apply tail_cons]. Qed.

Lemma same_but_tail_refl (s : str) : same_but_tail s s.
Proof.
  induction s; [apply tail_ws; constructor|now apply tail_cons].
Qed.

Lemma same_but_tail_drop (x w : str) : all_ws w -> same_but_tail (x ++ w) x.
Proof.
  intros Hw. induction x as [|c x IH]; simpl.
  - apply tail_ws; [assumption|constructor].
  - now apply tail_cons.
Qed.

Lemma same_but_tail_all_ws (s s' : str) :
  same_but_tail s s' -> all_ws s -> all_ws s'.
Proof.
  induction 1 as [w w' Hw Hw'|c r r' HT IH]; intros H; [assumption|].
  inversion H; subst. constructor; [assumption|now apply IH].
Qed.

(** Either both texts start with the same character, or both are white
    space throughout. *)
Lemma same_but_tail_uncons (s s' : str) :
  same_but_tail s s' ->
  (exists c r r', s = c :: r /\ s' = c :: r' /\ same_but_tail r r')
  \/ (all_ws s /\ all_ws s').
Proof.
  intros [w w' Hw Hw'|c r r' HT]; [now right|left; now exists c, r, r'].
Qed.

Lemma skip_ws_all_ws (s : str) : all_ws s -> skip_ws s = [].
Proof.
  induction 1 as [|c s Hc Hs IH]; simpl; [reflexivity|]. now rewrite Hc.
Qed.

Lemma skip_ws_nil_all_ws (s : str) : skip_ws s = [] -> all_ws s.
Proof.
  induction s as [|c s IH]; simpl; [constructor|].
  destruct (is_ws c) eqn:E; [|discriminate]. intros H.
  constructor; [exact E|exact (IH H)].
Qed.

Lemma same_but_tail_skip_ws (s s' : str) :
  same_but_tail s s' -> same_but_tail (skip_ws s) (skip_ws s').
Proof.
  induction 1 as [w w' Hw Hw'|c r r' HT IH].
  - rewrite !skip_ws_all_ws by assumption. apply tail_ws; constructor.
  - simpl. destruct (is_ws c); [assumption|now apply tail_cons].
Qed.

(** After [skip_ws] a text does not start with white space. *)
Lemma skip_ws_head (s : str) (c : char) (r : str) :
  skip_ws s = c :: r -> is_ws c = false.
Proof.
  induction s as [|d s IH]; simpl; [discriminate|].
  destruct (is_ws d) eqn:E; [exact IH|]. now intros [= <- <-].
Qed.

(** Case analysis on the head of two texts related by [same_but_tail],
    for what follows [skip_ws]. *)
Lemma same_but_tail_skipped (s s' : str) :
  same_but_tail (skip_ws s) (skip_ws s') ->
  (exists c r r', skip_ws s = c :: r /\ skip_ws s' = c :: r'
                  /\ same_but_tail r r')
  \/ (skip_ws s = [] /\ skip_ws s' = []).
Proof.
  intros H. destruct (same_but_tail_uncons _ _ H) as [?|[H1 H2]]; [now left|right].
  split.
  - destruct (skip_ws s) as [|c r] eqn:E; [reflexivity|].
    apply skip_ws_head in E. inversion H1; congruence.
  - destruct (skip_ws s') as [|c r] eqn:E; [reflexivity|].
    apply skip_ws_head in E. inversion H2; congruence.
Qed.

End TailFacts.

Module TailLex.
Import Json JsonAux JsonFacts TailFacts.

Lemma same_but_tail_cons_inv (c : char) (r s' : str) :
  same_but_tail (c :: r) s' -> is_ws c = false ->
  exists r', s' = c :: r' /\ same_but_tail r r'.
Proof.
  intros H Hc. inversion H as [w w' Hw Hw'|c0 r0 r' HT]; subst.
  - inversion Hw; congruence.
  - now exists r'.
Qed.

Lemma digit_not_ws (c : char) : is_digit c = true -> is_ws c = false.
Proof.
  unfold is_digit. intros H. apply andb_true_iff in H as [H1 H2].
  apply N.leb_le in H1, H2.
  destruct (is_ws c) eqn:E; [|reflexivity]. ws_cases E; lia.
Qed.

Lemma eqb_not_ws (c k : char) :
  (c =? k)%N = true -> is_ws k = false -> is_ws c = false.
Proof. intros H. apply N.eqb_eq in H. now subst. Qed.

(** A hypothesis that a white-space character passes a test which digits,
    letters and punctuation reserve for themselves is absurd. *)
Ltac ws_absurd :=
  match goal with
  | Hc : is_ws ?c = true |- _ =>
      ws_cases Hc; simpl in *; try discriminate; try reflexivity
  end.

Lemma span_digits_ws (s : str) : all_ws s -> span_digits s = ([], s).
Proof.
  intros [|c r Hc Hr]; [reflexivity|]. simpl.
  now ws_cases Hc.
Qed.

Lemma span_digits_tail (s s' ds r : str) :
  span_digits s = (ds, r) -> same_but_tail s s' ->
  exists r', span_digits s' = (ds, r') /\ same_but_tail r r'.
Proof.
  intros H HT. revert ds r H.
  induction HT as [w w' Hw Hw'|c t t' HT IH]; intros ds r H.
  - rewrite span_digits_ws in H by assumption. injection H as <- <-.
    exists w'. split; [now apply span_digits_ws|now apply tail_ws].
  - simpl in H |- *. destruct (is_digit c).
    + destruct (span_digits t) as [ds0 r0]. injection H as <- <-.
      destruct (IH ds0 r0 eq_refl) as (r' & -> & HT'). now exists r'.
    + injection H as <- <-. exists (c :: t'). split; [reflexivity|].
      now apply tail_cons.
Qed.

Lemma match_integer_ws (s : str) : all_ws s -> match_integer s = None.
Proof.
  intros [|c r Hc Hr]; [reflexivity|]. unfold match_integer. now ws_cases Hc.
Qed.

Lemma unsigned_part_tail (sign s s' i r : str) :
  unsigned_part sign s = Some (i, r) -> same_but_tail s s' ->
  exists r', unsigned_part sign s' = Some (i, r') /\ same_but_tail r r'.
Proof.
  intros H HT.
  destruct (same_but_tail_uncons _ _ HT) as [(d & t & t' & -> & -> & HT')|[Hw _]].
  - simpl in H |- *. destruct (d =? 48)%N.
    + injection H as <- <-. now exists t'.
    + destruct (is_digit d); [|discriminate].
      destruct (span_digits t) as [ds r0] eqn:E. injection H as <- <-.
      destruct (span_digits_tail _ _ _ _ E HT') as (r' & -> & HT''). now exists r'.
  - destruct Hw as [|d t Hd Ht]; [discriminate|]. simpl in H. now ws_cases Hd.
Qed.

Lemma match_integer_unfold (s : str) :
  match_integer s =
  match s with
  | c :: r => if (c =? 45)%N then unsigned_part [45%N] r else unsigned_part [] s
  | [] => None
  end.
Proof.
  unfold match_integer, unsigned_part. destruct s as [|c r]; [reflexivity|].
  destruct (c =? 45)%N; reflexivity.
Qed.

Lemma match_integer_tail (s s' i r : str) :
  match_integer s = Some (i, r) -> same_but_tail s s' ->
  exists r', match_integer s' = Some (i, r') /\ same_but_tail r r'.
Proof.
  intros H HT. rewrite match_integer_unfold in *.
  destruct (same_but_tail_uncons _ _ HT) as [(c & t & t' & -> & -> & HT')|[Hw _]].
  - destruct (c =? 45)%N.
    + eapply unsigned_part_tail; eassumption.
    + eapply unsigned_part_tail; [eassumption|]. now apply tail_cons.
  - rewrite <- match_integer_unfold in H.
    rewrite match_integer_ws in H by assumption. discriminate.
Qed.

Lemma match_frac_ws (s : str) : all_ws s -> match_frac s = ([], s).
Proof.
  intros [|c r Hc Hr]; [reflexivity|]. unfold match_frac. now ws_cases Hc.
Qed.

Lemma match_frac_tail (s s' f r : str) :
  match_frac s = (f, r) -> same_but_tail s s' ->
  exists r', match_frac s' = (f, r') /\ same_but_tail r r'.
Proof.
  intros H HT.
  destruct (same_but_tail_uncons _ _ HT) as [(c & t & t' & -> & -> & HT')|[Hw Hw']].
  - unfold match_frac in *. destruct (c =? 46)%N.
    + destruct (span_digits t) as [ds r0] eqn:E.
      destruct (span_digits_tail _ _ _ _ E HT') as (r' & -> & HT'').
      destruct ds; injection H as <- <-.
      * exists (c :: t'). split; [reflexivity|now apply tail_cons].
      * now exists r'.
    + injection H as <- <-. exists (c :: t'). split; [reflexivity|now apply tail_cons].
  - rewrite match_frac_ws in * by assumption. injection H as <- <-.
    exists s'. split; [reflexivity|now apply tail_ws].
Qed.

Lemma match_exp_ws (s : str) : all_ws s -> match_exp s = ([], s).
Proof.
  intros [|c r Hc Hr]; [reflexivity|]. unfold match_exp. now ws_cases Hc.
Qed.

Lemma match_exp_unfold (s : str) :
  match_exp s =
  match s with
  | c :: r => if ((c =? 101) || (c =? 69))%N then exp_digits c s r else ([], s)
  | [] => ([], s)
  end.
Proof. reflexivity. Qed.

Lemma exp_digits_tail (c : char) (t t' f r : str) :
  exp_digits c (c :: t) t = (f, r) -> same_but_tail t t' ->
  exists r', exp_digits c (c :: t') t' = (f, r') /\ same_but_tail r r'.
Proof.
  intros H HT. unfold exp_digits in *.
  assert (forall sign x x' f r,
             match span_digits x with
             | ([], _) => ([], c :: t)
             | (ds, r') => (c :: sign ++ ds, r')
             end = (f, r) ->
             same_but_tail x x' ->
             exists r',
               match span_digits x' with
               | ([], _) => ([], c :: t')
               | (ds, r') => (c :: sign ++ ds, r')
               end = (f, r') /\ same_but_tail r r') as K.
  { intros sign x x' f0 r0 H0 HT0.
    destruct (span_digits x) as [ds r1] eqn:E.
    destruct (span_digits_tail _ _ _ _ E HT0) as (r' & -> & HT'').
    destruct ds; injection H0 as <- <-.
    - exists (c :: t'). split; [reflexivity|now apply tail_cons].
    - now exists r'. }
  destruct (same_but_tail_uncons _ _ HT) as [(g & u & u' & -> & -> & HT')|[Hw Hw']].
  - destruct ((g =? 45) || (g =? 43))%N.
    + eapply K; eassumption.
    + eapply K; [eassumption|now apply tail_cons].
  - assert (forall w, all_ws w ->
                      match w with
                      | g :: r0 => if ((g =? 45) || (g =? 43))%N then ([g], r0) else ([], w)
                      | [] => ([], w)
                      end = (@nil char, w)) as Kw.
    { intros w [|g r0 Hg Hr0]; [reflexivity|]. now ws_cases Hg. }
    rewrite (Kw t Hw) in H. rewrite (Kw t' Hw').
    rewrite span_digits_ws in * by assumption. injection H as <- <-.
    exists (c :: t'). split; [reflexivity|]. apply tail_cons. now apply tail_ws.
Qed.

Lemma match_exp_tail (s s' f r : str) :
  match_exp s = (f, r) -> same_but_tail s s' ->
  exists r', match_exp s' = (f, r') /\ same_but_tail r r'.
Proof.
  intros H HT.
  destruct (same_but_tail_uncons _ _ HT) as [(c & t & t' & -> & -> & HT')|[Hw Hw']].
  - rewrite match_exp_unfold in *. destruct ((c =? 101) || (c =? 69))%N.
    + eapply exp_digits_tail; eassumption.
    + injection H as <- <-. exists (c :: t'). split; [reflexivity|now apply tail_cons].
  - rewrite match_exp_ws in * by assumption. injection H as <- <-.
    exists s'. split; [reflexivity|now apply tail_ws].
Qed.

Lemma match_number_tail (s s' : str) (v : json) (r : str) :
  match_number s = Some (v, r) -> same_but_tail s s' ->
  exists r', match_number s' = Some (v, r') /\ same_but_tail r r'.
Proof.
  unfold match_number. intros H HT.
  destruct (match_integer s) as [[i r0]|] eqn:Ei; [|discriminate].
  destruct (match_integer_tail _ _ _ _ Ei HT) as (r0' & -> & HT0).
  destruct (match_frac r0) as [f r1] eqn:Ef.
  destruct (match_frac_tail _ _ _ _ Ef HT0) as (r1' & -> & HT1).
  destruct (match_exp r1) as [e r2] eqn:Ee.
  destruct (match_exp_tail _ _ _ _ Ee HT1) as (r2' & -> & HT2).
  exists r2'. split; [|now destruct f, e; injection H as <- <-].
  destruct f, e; injection H as <- <-; reflexivity.
Qed.

Lemma match_number_none_tail (s s' : str) :
  match_number s = None -> same_but_tail s s' -> match_number s' = None.
Proof.
  intros H HT. destruct (match_number s') as [[v r']|] eqn:E; [|reflexivity].
  destruct (match_number_tail _ _ _ _ E (same_but_tail_sym _ _ HT)) as (r & Hr & _).
  congruence.
Qed.

Lemma starts_with_tail (p s s' : str) :
  no_ws p -> same_but_tail s s' ->
  PyStr.starts_with p s = PyStr.starts_with p s'.
Proof.
  intros Hp. revert s s'. induction Hp as [|a p Ha Hp IH]; intros s s' HT.
  - reflexivity.
  - destruct (same_but_tail_uncons _ _ HT) as [(c & t & t' & -> & -> & HT')|[Hw Hw']].
    + simpl. now rewrite (IH _ _ HT').
    + assert (forall w, all_ws w -> PyStr.starts_with (a :: p) w = false) as K.
      { intros w [|c r Hc Hr]; [reflexivity|]. simpl.
        destruct (a =? c)%N eqn:E; [|reflexivity].
        apply N.eqb_eq in E. congruence. }
      now rewrite !K.
Qed.

Lemma skipn_literal_tail (p s s' : str) :
  no_ws p -> PyStr.starts_with p s = true -> same_but_tail s s' ->
  same_but_tail (skipn (length p) s) (skipn (length p) s').
Proof.
  intros Hp. revert s s'. induction Hp as [|a p Ha Hp IH]; intros s s' H HT.
  - exact HT.
  - destruct s as [|c t]; [discriminate|]. simpl in H.
    apply andb_true_iff in H as [Hac H]. apply N.eqb_eq in Hac. subst c.
    destruct (same_but_tail_cons_inv _ _ _ HT Ha) as (t' & -> & HT').
    simpl. now apply IH.
Qed.

End TailLex.

Module TailString.
Import Json JsonAux JsonFacts TailFacts TailLex.

Lemma scanstring_u (c e h1 h2 h3 h4 : char) (r2 acc : str) (uni : N) :
  (c =? 34)%N = false -> (c =? 92)%N = true -> (e =? 117)%N = true ->
  hex4 h1 h2 h3 h4 = Some uni ->
  scanstring (c :: e :: h1 :: h2 :: h3 :: h4 :: r2) acc =
  if is_high_surrogate uni then
    match look_low r2 with
    | LPair uni2 r4 => scanstring r4 (join_surrogates uni uni2 :: acc)
    | LError => None
    | LNone => scanstring r2 (uni :: acc)
    end
  else scanstring r2 (uni :: acc).
Proof.
  intros H1 H2 H3 H4. simpl. rewrite H1, H2, H3, H4.
  destruct (is_high_surrogate uni); [|reflexivity]. unfold look_low.
  destruct r2 as [|b [|u r3]]; try reflexivity.
  destruct ((b =? 92) && (u =? 117))%N; [|reflexivity].
  destruct r3 as [|g1 [|g2 [|g3 [|g4 r4]]]]; try reflexivity.
  destruct (hex4 g1 g2 g3 g4); [|reflexivity].
  destruct (is_low_surrogate n); reflexivity.
Qed.

Lemma hex_val_not_ws (c : char) (x : N) : hex_val c = Some x -> is_ws c = false.
Proof.
  intros H. destruct (is_ws c) eqn:E; [|reflexivity]. ws_cases E; discriminate.
Qed.

Lemma hex4_not_ws (a b c d : char) (u : N) :
  hex4 a b c d = Some u ->
  is_ws a = false /\ is_ws b = false /\ is_ws c = false /\ is_ws d = false.
Proof.
  unfold hex4. intros H.
  destruct (hex_val a) eqn:Ea; [|discriminate].
  destruct (hex_val b) eqn:Eb; [|discriminate].
  destruct (hex_val c) eqn:Ec; [|discriminate].
  destruct (hex_val d) eqn:Ed; [|discriminate].
  repeat split; eapply hex_val_not_ws; eassumption.
Qed.

Lemma unescape_not_ws (e ch : char) : unescape e = Some ch -> is_ws e = false.
Proof.
  intros H. destruct (is_ws e) eqn:E; [|reflexivity]. ws_cases E; discriminate.
Qed.

Lemma scanstring_ws (s : str) : all_ws s -> forall acc, scanstring s acc = None.
Proof.
  induction 1 as [|c r Hc Hr IH]; intros acc; [reflexivity|].
  ws_cases Hc; simpl; try reflexivity. apply IH.
Qed.

Lemma look_low_ws (s : str) : all_ws s -> look_low s = LNone.
Proof.
  intros [|b r Hb Hr]; [reflexivity|]. destruct r as [|u r]; [reflexivity|].
  unfold look_low. now ws_cases Hb.
Qed.

Lemma look_low_length (r2 : str) (uni2 : N) (r4 : str) :
  look_low r2 = LPair uni2 r4 -> length r4 < length r2.
Proof.
  unfold look_low.
  destruct r2 as [|b [|u r3]]; try discriminate.
  destruct ((b =? 92) && (u =? 117))%N; [|discriminate].
  destruct r3 as [|g1 [|g2 [|g3 [|g4 r]]]]; try discriminate.
  destruct (hex4 g1 g2 g3 g4); [|discriminate].
  destruct (is_low_surrogate n); [|discriminate].
  intros [= <- <-]. simpl. lia.
Qed.

(** The look-ahead after a high surrogate does not depend on a tail of
    white space. *)
Lemma look_low_tail (r2 r2' : str) :
  same_but_tail r2 r2' -> look_low r2 <> LError ->
  (look_low r2 = LNone /\ look_low r2' = LNone)
  \/ (exists uni2 r4 r4',
         look_low r2 = LPair uni2 r4 /\ look_low r2' = LPair uni2 r4'
         /\ same_but_tail r4 r4').
Proof.
  intros HT Hne.
  destruct (same_but_tail_uncons _ _ HT) as [(b & t & t' & -> & -> & HT1)|[Hw Hw']];
    [|left; split; now apply look_low_ws].
  destruct (same_but_tail_uncons _ _ HT1) as [(u & r3 & r3' & -> & -> & HT2)|[Hw Hw']].
  - unfold look_low in *.
    destruct ((b =? 92) && (u =? 117))%N; [|now left].
    destruct r3 as [|g1 [|g2 [|g3 [|g4 r4]]]]; try congruence.
    destruct (hex4 g1 g2 g3 g4) as [uni2|] eqn:Eh; [|congruence].
    destruct (hex4_not_ws _ _ _ _ _ Eh) as (N1 & N2 & N3 & N4).
    destruct (same_but_tail_cons_inv _ _ _ HT2 N1) as (x1 & -> & T1).
    destruct (same_but_tail_cons_inv _ _ _ T1 N2) as (x2 & -> & T2).
    destruct (same_but_tail_cons_inv _ _ _ T2 N3) as (x3 & -> & T3).
    destruct (same_but_tail_cons_inv _ _ _ T3 N4) as (r4' & -> & T4).
    rewrite Eh. destruct (is_low_surrogate uni2); [right|now left].
    now exists uni2, r4, r4'.
  - left.
    assert (forall w, all_ws w -> look_low (b :: w) = LNone) as K.
    { intros w [|u r Hu Hr]; [reflexivity|]. unfold look_low.
      ws_cases Hu; now rewrite andb_false_r. }
    split; now apply K.
Qed.

Lemma scanstring_tail (n : nat) :
  forall s s' acc v r,
    length s <= n -> scanstring s acc = Some (v, r) -> same_but_tail s s' ->
    exists r', scanstring s' acc = Some (v, r') /\ same_but_tail r r'.
Proof.
  induction n as [|n IH]; intros s s' acc v r Hn H HT.
  - destruct s; [discriminate|simpl in Hn; lia].
  - destruct (same_but_tail_uncons _ _ HT) as [(c & s0 & s0' & -> & -> & HT0)|[Hw _]];
      [|rewrite scanstring_ws in H by assumption; discriminate].
    simpl in Hn.
    destruct (c =? 34)%N eqn:E34.
    { simpl in H |- *. rewrite E34 in *. injection H as <- <-. now exists s0'. }
    destruct (c =? 92)%N eqn:E92.
    + destruct s0 as [|e r1]; [simpl in H; rewrite E34, E92 in H; discriminate|].
      destruct (e =? 117)%N eqn:E117.
      * destruct (same_but_tail_cons_inv _ _ _ HT0
                    (eqb_not_ws _ _ E117 eq_refl)) as (r1' & -> & HT1).
        destruct r1 as [|h1 [|h2 [|h3 [|h4 r2]]]];
          try (simpl in H; rewrite E34, E92, E117 in H; discriminate).
        destruct (hex4 h1 h2 h3 h4) as [uni|] eqn:Eh;
          [|simpl in H; rewrite E34, E92, E117, Eh in H; discriminate].
        destruct (hex4_not_ws _ _ _ _ _ Eh) as (N1 & N2 & N3 & N4).
        destruct (same_but_tail_cons_inv _ _ _ HT1 N1) as (x1 & -> & T1).
        destruct (same_but_tail_cons_inv _ _ _ T1 N2) as (x2 & -> & T2).
        destruct (same_but_tail_cons_inv _ _ _ T2 N3) as (x3 & -> & T3).
        destruct (same_but_tail_cons_inv _ _ _ T3 N4) as (r2' & -> & T4).
        rewrite (scanstring_u c e h1 h2 h3 h4 r2 acc uni E34 E92 E117 Eh) in H.
        rewrite (scanstring_u c e h1 h2 h3 h4 r2' acc uni E34 E92 E117 Eh).
        simpl in Hn.
        destruct (is_high_surrogate uni).
        -- destruct (look_low_tail _ _ T4) as [[L L']|(uni2 & r4 & r4' & L & L' & T5)].
           ++ intros E. rewrite E in H. discriminate.
           ++ rewrite L in H. rewrite L'. apply (IH r2); [lia|assumption|assumption].
           ++ rewrite L in H. rewrite L'. apply look_low_length in L.
              apply (IH r4); [lia|assumption|assumption].
        -- apply (IH r2); [lia|assumption|assumption].
      * simpl in H. rewrite E34, E92, E117 in H.
        destruct (unescape e) as [ch|] eqn:Eu; [|discriminate].
        destruct (same_but_tail_cons_inv _ _ _ HT0 (unescape_not_ws _ _ Eu))
          as (r1' & -> & HT1).
        simpl. rewrite E34, E92, E117, Eu.
        apply (IH r1); [simpl in Hn; lia|assumption|assumption].
    + simpl in H |- *. rewrite E34, E92 in *.
      destruct (c <? 32)%N; [discriminate|].
      apply (IH s0); [lia|assumption|assumption].
Qed.

End TailString.

Module TailScan.
Import Json JsonAux JsonFacts TailFacts TailLex TailString.

Lemma no_ws_lit_null : no_ws (lit "null"). Proof. repeat constructor. Qed.
Lemma no_ws_lit_true : no_ws (lit "true"). Proof. repeat constructor. Qed.
Lemma no_ws_lit_false : no_ws (lit "false"). Proof. repeat constructor. Qed.
Lemma no_ws_lit_nan : no_ws (lit "NaN"). Proof. repeat constructor. Qed.
Lemma no_ws_lit_inf : no_ws (lit "Infinity"). Proof. repeat constructor. Qed.
Lemma no_ws_lit_neginf : no_ws (lit "-Infinity"). Proof. repeat constructor. Qed.

Lemma scan_once_ws (f : nat) (s : str) (v : json) (r : str) :
  all_ws s -> scan_once f s <> POk v r.
Proof.
  intros Hw. destruct f as [|f]; [discriminate|].
  destruct Hw as [|c t Hc Ht]; [discriminate|].
  cbn [scan_once]. ws_cases Hc; simpl; discriminate.
Qed.

(** A literal found at the head of a text is found whatever white space
    the text ends in, and so is what follows it. *)
Lemma literal_tail (p s s' : str) (n : nat) :
  no_ws p -> n = length p -> same_but_tail s s' ->
  PyStr.starts_with p s' = PyStr.starts_with p s
  /\ (PyStr.starts_with p s = true -> same_but_tail (skipn n s) (skipn n s')).
Proof.
  intros Hp -> HT. split.
  - symmetry. now apply starts_with_tail.
  - intros H. now apply skipn_literal_tail.
Qed.

Lemma simulates_err (p' : pres) : simulates PErr p'.
Proof. intros v r H. discriminate. Qed.

Lemma simulates_fuel (p' : pres) : simulates PFuel p'.
Proof. intros v r H. discriminate. Qed.

Lemma simulates_ok (v : json) (r r' : str) :
  same_but_tail r r' -> simulates (POk v r) (POk v r').
Proof. intros HT v0 r0 [= <- <-]. now exists r'. Qed.

Lemma scan_tail (f : nat) :
  (forall s s', same_but_tail s s' -> simulates (scan_once f s) (scan_once f s'))
  /\ (forall s s' vs, same_but_tail s s' ->
                      simulates (array_loop f s vs) (array_loop f s' vs))
  /\ (forall s s' ps, same_but_tail s s' ->
                      simulates (object_loop f s ps) (object_loop f s' ps)).
Proof.
  induction f as [|f (IHs & IHa & IHo)].
  - repeat split; intros; apply simulates_fuel.
  - split; [|split].
    + intros s s' HT.
      destruct (same_but_tail_uncons _ _ HT) as [(c & t & t' & -> & -> & HT0)|[Hw _]];
        [|intros v r H; now apply scan_once_ws in H].
      cbn [scan_once].
      destruct (c =? 34)%N.
      { destruct (scanstring t []) as [[v0 r0]|] eqn:E; [|apply simulates_err].
        destruct (scanstring_tail _ _ _ _ _ _ (le_n _) E HT0) as (r0' & -> & HT1).
        now apply simulates_ok. }
      destruct (c =? 123)%N.
      { destruct (same_but_tail_skipped _ _ (same_but_tail_skip_ws _ _ HT0))
          as [(d & r1 & r1' & -> & -> & HT1)|[-> ->]]; [|apply simulates_err].
        destruct (d =? 125)%N; [now apply simulates_ok|].
        destruct (d =? 34)%N; [now apply IHo|apply simulates_err]. }
      destruct (c =? 91)%N.
      { destruct (same_but_tail_skipped _ _ (same_but_tail_skip_ws _ _ HT0))
          as [(d & r1 & r1' & -> & -> & HT1)|[-> ->]]; [|apply simulates_err].
        destruct (d =? 93)%N; [now apply simulates_ok|].
        apply IHa. now apply tail_cons. }
      destruct (literal_tail (lit "null") _ _ 4 no_ws_lit_null eq_refl HT) as [-> K1].
      destruct (PyStr.starts_with (lit "null") (c :: t));
        [apply simulates_ok; now apply K1|clear K1].
      destruct (literal_tail (lit "true") _ _ 4 no_ws_lit_true eq_refl HT) as [-> K1].
      destruct (PyStr.starts_with (lit "true") (c :: t));
        [apply simulates_ok; now apply K1|clear K1].
      destruct (literal_tail (lit "false") _ _ 5 no_ws_lit_false eq_refl HT) as [-> K1].
      destruct (PyStr.starts_with (lit "false") (c :: t));
        [apply simulates_ok; now apply K1|clear K1].
      destruct (match_number (c :: t)) as [[v0 r0]|] eqn:En.
      { destruct (match_number_tail _ _ _ _ En HT) as (r0' & -> & HT1).
        now apply simulates_ok. }
      rewrite (match_number_none_tail _ _ En HT).
      destruct (literal_tail (lit "NaN") _ _ 3 no_ws_lit_nan eq_refl HT) as [-> K1].
      destruct (PyStr.starts_with (lit "NaN") (c :: t));
        [apply simulates_ok; now apply K1|clear K1].
      destruct (literal_tail (lit "Infinity") _ _ 8 no_ws_lit_inf eq_refl HT) as [-> K1].
      destruct (PyStr.starts_with (lit "Infinity") (c :: t));
        [apply simulates_ok; now apply K1|clear K1].
      destruct (literal_tail (lit "-Infinity") _ _ 9 no_ws_lit_neginf eq_refl HT)
        as [-> K1].
      destruct (PyStr.starts_with (lit "-Infinity") (c :: t));
        [apply simulates_ok; now apply K1|apply simulates_err].
    + intros s s' vs HT. cbn [array_loop].
      destruct (scan_once f s) as [value r| |] eqn:E;
        [|apply simulates_err|apply simulates_fuel].
      destruct (IHs s s' HT value r E) as (r' & -> & HT1).
      destruct (same_but_tail_skipped _ _ (same_but_tail_skip_ws _ _ HT1))
        as [(d & r1 & r1' & -> & -> & HT2)|[-> ->]]; [|apply simulates_err].
      destruct (d =? 93)%N; [now apply simulates_ok|].
      destruct (d =? 44)%N; [|apply simulates_err].
      apply IHa. now apply same_but_tail_skip_ws.
    + intros s s' ps HT. cbn [object_loop].
      destruct (scanstring s []) as [[key r]|] eqn:E; [|apply simulates_err].
      destruct (scanstring_tail _ _ _ _ _ _ (le_n _) E HT) as (r' & -> & HT1).
      destruct (same_but_tail_skipped _ _ (same_but_tail_skip_ws _ _ HT1))
        as [(c & r1 & r1' & -> & -> & HT2)|[-> ->]]; [|apply simulates_err].
      destruct (c =? 58)%N; [|apply simulates_err].
      destruct (scan_once f (skip_ws r1)) as [value r2| |] eqn:E2;
        [|apply simulates_err|apply simulates_fuel].
      destruct (IHs _ _ (same_but_tail_skip_ws _ _ HT2) value r2 E2) as (r2' & -> & HT3).
      destruct (same_but_tail_skipped _ _ (same_but_tail_skip_ws _ _ HT3))
        as [(d & r3 & r3' & -> & -> & HT4)|[-> ->]]; [|apply simulates_err].
      destruct (d =? 125)%N; [now apply simulates_ok|].
      destruct (d =? 44)%N; [|apply simulates_err].
      destruct (same_but_tail_skipped _ _ (same_but_tail_skip_ws _ _ HT4))
        as [(q & r4 & r4' & -> & -> & HT5)|[-> ->]]; [|apply simulates_err].
      destruct (q =? 34)%N; [now apply IHo|apply simulates_err].
Qed.

(** More budget never changes what a scan within budget gives. *)
Lemma scan_mono (f : nat) :
  (forall f' s, f <= f' -> scan_once f s <> PFuel -> scan_once f' s = scan_once f s)
  /\ (forall f' s vs, f <= f' -> array_loop f s vs <> PFuel ->
                      array_loop f' s vs = array_loop f s vs)
  /\ (forall f' s ps, f <= f' -> object_loop f s ps <> PFuel ->
                      object_loop f' s ps = object_loop f s ps).
Proof.
  induction f as [|f (IHs & IHa & IHo)].
  - repeat split; intros; simpl in *; congruence.
  - split; [|split].
    + intros [|f'] s Hle H; [lia|]. apply le_S_n in Hle.
      cbn [scan_once] in *. destruct s as [|c t]; [reflexivity|].
      repeat match goal with
             | |- context [if ?b then _ else _] => destruct b
             | |- context [match scanstring ?x ?y with _ => _ end] =>
                 destruct (scanstring x y) as [[? ?]|]
             | |- context [match skip_ws ?x with _ => _ end] => destruct (skip_ws x)
             | |- context [match match_number ?x with _ => _ end] =>
                 destruct (match_number x) as [[? ?]|]
             end; try reflexivity; auto.
    + intros [|f'] s vs Hle H; [lia|]. apply le_S_n in Hle.
      cbn [array_loop] in *.
      destruct (scan_once f s) as [value r| |] eqn:E; [| |congruence];
        rewrite (IHs f' s Hle) by congruence; rewrite E; [|reflexivity].
      destruct (skip_ws r) as [|d r1]; [reflexivity|].
      destruct (d =? 93)%N; [reflexivity|].
      destruct (d =? 44)%N; [|reflexivity]. now apply IHa.
    + intros [|f'] s ps Hle H; [lia|]. apply le_S_n in Hle.
      cbn [object_loop] in *.
      destruct (scanstring s []) as [[key r]|]; [|reflexivity].
      destruct (skip_ws r) as [|c r1]; [reflexivity|].
      destruct (c =? 58)%N; [|reflexivity].
      destruct (scan_once f (skip_ws r1)) as [value r2| |] eqn:E; [| |congruence];
        rewrite (IHs f' _ Hle) by congruence; rewrite E; [|reflexivity].
      destruct (skip_ws r2) as [|d r3]; [reflexivity|].
      destruct (d =? 125)%N; [reflexivity|].
      destruct (d =? 44)%N; [|reflexivity].
      destruct (skip_ws r3) as [|q r4]; [reflexivity|].
      destruct (q =? 34)%N; [|reflexivity]. now apply IHo.
Qed.

End TailScan.

Module SolidEnd.
Import Json JsonAux JsonFacts TailFacts TailLex TailString.

Lemma suffix_refl (s : str) : suffix s s.
Proof. now exists []. Qed.

Lemma suffix_trans (a b c : str) : suffix a b -> suffix b c -> suffix a c.
Proof. intros [x ->] [y ->]. exists (y ++ x). now rewrite app_assoc. Qed.

Lemma suffix_cons (c : char) (r s : str) : suffix r s -> suffix r (c :: s).
Proof. intros [x ->]. now exists (c :: x). Qed.

Lemma suffix_tail (c : char) (r : str) : suffix r (c :: r).
Proof. now exists [c]. Qed.

Lemma suffix_skip_ws (s : str) : suffix (skip_ws s) s.
Proof.
  induction s as [|c s IH]; simpl; [apply suffix_refl|].
  destruct (is_ws c); [now apply suffix_cons|apply suffix_refl].
Qed.

Lemma suffix_skipn (n : nat) (s : str) : suffix (skipn n s) s.
Proof. exists (firstn n s). symmetry. apply firstn_skipn. Qed.

Lemma ends_solid_intro (c : char) (r s : str) :
  suffix (c :: r) s -> PyStr.isspace c = false -> ends_solid s r.
Proof. intros [x ->] H. now exists x, c. Qed.

Lemma ends_solid_lift (x s r : str) : suffix x s -> ends_solid x r -> ends_solid s r.
Proof.
  intros [y ->] (body & c & -> & H). exists (y ++ body), c.
  split; [now rewrite app_assoc|assumption].
Qed.

Lemma ends_solid_suffix (s r : str) : ends_solid s r -> suffix r s.
Proof.
  intros (body & c & -> & _). exists (body ++ [c]). now rewrite <- app_assoc.
Qed.

Lemma skip_ws_eq_suffix (r : str) (d : char) (r1 : str) :
  skip_ws r = d :: r1 -> suffix (d :: r1) r.
Proof. intros H. rewrite <- H. apply suffix_skip_ws. Qed.

(** A string literal ends with its closing quote. *)
Lemma scanstring_quote (n : nat) :
  forall s acc v r,
    length s <= n -> scanstring s acc = Some (v, r) -> suffix (34%N :: r) s.
Proof.
  induction n as [|n IH]; intros s acc v r Hn H.
  - destruct s; [discriminate|simpl in Hn; lia].
  - destruct s as [|c s]; [discriminate|].
    simpl in H, Hn.
    destruct (c =? 34)%N eqn:E34.
    { injection H as <- <-. apply N.eqb_eq in E34. subst. apply suffix_refl. }
    apply suffix_cons.
    repeat (break_match H; try discriminate; simpl in Hn);
      apply IH in H; try (simpl; lia);
      repeat first [exact H | apply suffix_cons].
Qed.

Lemma scanstring_solid (s acc v r : str) :
  scanstring s acc = Some (v, r) -> ends_solid s r.
Proof.
  intros H. apply (scanstring_quote _ _ _ _ _ (le_n _)) in H.
  now apply (ends_solid_intro 34%N).
Qed.

Lemma digit_solid (c : char) : is_digit c = true -> PyStr.isspace c = false.
Proof.
  unfold is_digit, PyStr.isspace. intros H.
  apply andb_true_iff in H as [H1 H2]. apply N.leb_le in H1, H2.
  repeat match goal with
         | |- context [(?a <=? ?b)%N] => destruct (N.leb_spec a b); try lia
         | |- context [(?a =? ?b)%N] => destruct (N.eqb_spec a b); try lia
         end; reflexivity.
Qed.

Lemma span_digits_before (s ds r : str) :
  span_digits s = (ds, r) ->
  match ds with
  | [] => r = s
  | _ :: _ => exists body c, s = body ++ c :: r /\ is_digit c = true
  end.
Proof.
  revert ds r. induction s as [|c s IH]; intros ds r H; simpl in H.
  - now injection H as <- <-.
  - destruct (is_digit c) eqn:E.
    + destruct (span_digits s) as [ds0 r0]. injection H as <- <-.
      specialize (IH ds0 r0 eq_refl). destruct ds0.
      * subst. now exists [], c.
      * destruct IH as (body & d & -> & Hd). now exists (c :: body), d.
    + now injection H as <- <-.
Qed.

Lemma digits_before_cons (d : char) (s r : str) :
  is_digit d = true -> digits_before s r ->
  exists body c, d :: s = body ++ c :: r /\ is_digit c = true.
Proof.
  intros Hd [->|(body & c & -> & Hc)]; [now exists [], d|now exists (d :: body), c].
Qed.

Lemma digits_before_lift (x : str) (s r : str) :
  (exists body c, s = body ++ c :: r /\ is_digit c = true) ->
  exists body c, x ++ s = body ++ c :: r /\ is_digit c = true.
Proof.
  intros (body & c & -> & Hc). exists (x ++ body), c.
  split; [now rewrite app_assoc|assumption].
Qed.

Lemma unsigned_part_digit (sign s i r : str) :
  unsigned_part sign s = Some (i, r) ->
  exists body c, s = body ++ c :: r /\ is_digit c = true.
Proof.
  destruct s as [|d t]; [discriminate|]. simpl.
  destruct (d =? 48)%N eqn:E.
  - intros [= <- <-]. apply N.eqb_eq in E. subst. now exists [], 48%N.
  - destruct (is_digit d) eqn:Ed; [|discriminate].
    destruct (span_digits t) as [ds r0] eqn:Es. intros [= <- <-].
    apply span_digits_before in Es. destruct ds as [|x ds].
    + subst. now exists [], d.
    + destruct Es as (body & c & -> & Hc). now exists (d :: body), c.
Qed.

Lemma match_integer_digit (s i r : str) :
  match_integer s = Some (i, r) ->
  exists body c, s = body ++ c :: r /\ is_digit c = true.
Proof.
  rewrite match_integer_unfold. destruct s as [|c t]; [discriminate|].
  destruct (c =? 45)%N.
  - intros H. apply unsigned_part_digit in H.
    now apply (digits_before_lift [c]) in H.
  - apply unsigned_part_digit.
Qed.

Lemma match_frac_before (s f r : str) :
  match_frac s = (f, r) -> digits_before s r.
Proof.
  unfold match_frac. destruct s as [|c t]; [intros [= <- <-]; now left|].
  destruct (c =? 46)%N; [|intros [= <- <-]; now left].
  destruct (span_digits t) as [ds r0] eqn:Es.
  apply span_digits_before in Es.
  destruct ds; intros [= <- <-]; [now left|]. right.
  now apply (digits_before_lift [c]) in Es.
Qed.

Lemma match_exp_before (s f r : str) :
  match_exp s = (f, r) -> digits_before s r.
Proof.
  rewrite match_exp_unfold. destruct s as [|c t]; [intros [= <- <-]; now left|].
  destruct ((c =? 101) || (c =? 69))%N; [|intros [= <- <-]; now left].
  unfold exp_digits.
  match goal with
  | |- context [let (_, _) := ?x in _] => destruct x as [sign r1] eqn:E
  end.
  assert (suffix r1 t) as Hs.
  { destruct t as [|g r0]; [injection E as <- <-; apply suffix_refl|].
    destruct ((g =? 45) || (g =? 43))%N; injection E as <- <-;
      [apply suffix_tail|apply suffix_refl]. }
  destruct (span_digits r1) as [ds r0] eqn:Es.
  apply span_digits_before in Es.
  destruct ds; intros [= <- <-]; [now left|]. right.
  destruct Hs as [x ->]. now apply (digits_before_lift (c :: x)) in Es.
Qed.

Lemma digits_before_trans (a b c : str) :
  (exists body d, a = body ++ d :: b /\ is_digit d = true) ->
  digits_before b c ->
  exists body d, a = body ++ d :: c /\ is_digit d = true.
Proof.
  intros H [->|(body2 & d2 & -> & H2)]; [assumption|].
  destruct H as (body & d & -> & _).
  exists (body ++ d :: body2), d2. split; [|assumption].
  now rewrite <- app_assoc.
Qed.

Lemma match_number_solid (s : str) (v : json) (r : str) :
  match_number s = Some (v, r) -> ends_solid s r.
Proof.
  unfold match_number. intros H.
  destruct (match_integer s) as [[i r0]|] eqn:Ei; [|discriminate].
  destruct (match_frac r0) as [f r1] eqn:Ef.
  destruct (match_exp r1) as [e r2] eqn:Ee.
  assert (r = r2) as -> by (destruct f, e; congruence).
  apply match_integer_digit in Ei. apply match_frac_before in Ef.
  apply match_exp_before in Ee.
  destruct (digits_before_trans _ _ _ (digits_before_trans _ _ _ Ei Ef) Ee)
    as (body & d & -> & Hd).
  exists body, d. split; [reflexivity|now apply digit_solid].
Qed.

(** A literal whose last character is not white space. *)
Lemma literal_solid (p s : str) (n : nat) :
  n = length p ->
  (exists b c, p = b ++ [c] /\ PyStr.isspace c = false) ->
  PyStr.starts_with p s = true -> ends_solid s (skipn n s).
Proof.
  intros -> (b & c & -> & Hc) H.
  assert (forall p s, PyStr.starts_with p s = true -> s = p ++ skipn (length p) s) as K.
  { induction p as [|a p IH]; intros [|x t] Hp; try reflexivity; try discriminate.
    simpl in Hp. apply andb_true_iff in Hp as [E Hp]. apply N.eqb_eq in E. subst.
    simpl. f_equal. now apply IH. }
  exists b, c. split; [|assumption].
  rewrite (K _ _ H) at 1. now rewrite <- app_assoc.
Qed.

Ltac solve_literal :=
  match goal with
  | E : PyStr.starts_with (lit ?x) ?s = true |- ends_solid ?s _ =>
      change (ends_solid s (skipn (length (lit x)) s));
      apply (literal_solid (lit x) s (length (lit x)) eq_refl); [|exact E];
      exists (removelast (lit x)), (last (lit x) 0%N); split; reflexivity
  end.

Lemma scan_solid (f : nat) :
  (forall s v r, scan_once f s = POk v r -> ends_solid s r)
  /\ (forall s vs v r, array_loop f s vs = POk v r -> ends_solid s r)
  /\ (forall s ps v r, object_loop f s ps = POk v r -> ends_solid s r).
Proof.
  induction f as [|f (IHs & IHa & IHo)].
  - repeat split; intros; discriminate.
  - split; [|split].
    + intros [|c t] v r H; [discriminate|]. cbn [scan_once] in H.
      destruct (c =? 34)%N.
      { destruct (scanstring t []) as [[v0 r0]|] eqn:E; [|discriminate].
        injection H as <- <-. apply scanstring_solid in E.
        eapply ends_solid_lift; [apply suffix_tail|exact E]. }
      destruct (c =? 123)%N.
      { destruct (skip_ws t) as [|d r1] eqn:E; [discriminate|].
        apply skip_ws_eq_suffix in E. apply (suffix_cons c) in E.
        destruct (d =? 125)%N eqn:Ed.
        - injection H as <- <-. apply N.eqb_eq in Ed. subst.
          now apply (ends_solid_intro 125%N).
        - destruct (d =? 34)%N; [|discriminate]. apply IHo in H.
          eapply ends_solid_lift; [|exact H].
          eapply suffix_trans; [apply suffix_tail|exact E]. }
      destruct (c =? 91)%N.
      { destruct (skip_ws t) as [|d r1] eqn:E; [discriminate|].
        apply skip_ws_eq_suffix in E. apply (suffix_cons c) in E.
        destruct (d =? 93)%N eqn:Ed.
        - injection H as <- <-. apply N.eqb_eq in Ed. subst.
          now apply (ends_solid_intro 93%N).
        - apply IHa in H. eapply ends_solid_lift; [exact E|exact H]. }
      destruct (PyStr.starts_with (lit "null") (c :: t)) eqn:E1;
        [injection H as <- <-; solve_literal|].
      destruct (PyStr.starts_with (lit "true") (c :: t)) eqn:E2;
        [injection H as <- <-; solve_literal|].
      destruct (PyStr.starts_with (lit "false") (c :: t)) eqn:E3;
        [injection H as <- <-; solve_literal|].
      destruct (match_number (c :: t)) as [[v0 r0]|] eqn:En.
      { injection H as <- <-. now apply match_number_solid in En. }
      destruct (PyStr.starts_with (lit "NaN") (c :: t)) eqn:E4;
        [injection H as <- <-; solve_literal|].
      destruct (PyStr.starts_with (lit "Infinity") (c :: t)) eqn:E5;
        [injection H as <- <-; solve_literal|].
      destruct (PyStr.starts_with (lit "-Infinity") (c :: t)) eqn:E6;
        [injection H as <- <-; solve_literal|discriminate].
    + intros s vs v r H. cbn [array_loop] in H.
      destruct (scan_once f s) as [value r0| |] eqn:E; try discriminate.
      apply IHs, ends_solid_suffix in E.
      destruct (skip_ws r0) as [|d r1] eqn:E1; [discriminate|].
      apply skip_ws_eq_suffix in E1.
      pose proof (suffix_trans _ _ _ E1 E) as E2.
      destruct (d =? 93)%N eqn:Ed.
      * injection H as <- <-. apply N.eqb_eq in Ed. subst.
        now apply (ends_solid_intro 93%N).
      * destruct (d =? 44)%N; [|discriminate]. apply IHa in H.
        eapply ends_solid_lift; [|exact H].
        eapply suffix_trans; [apply suffix_skip_ws|].
        eapply suffix_trans; [apply suffix_tail|exact E2].
    + intros s ps v r H. cbn [object_loop] in H.
      destruct (scanstring s []) as [[key r0]|] eqn:E; [|discriminate].
      apply scanstring_solid, ends_solid_suffix in E.
      destruct (skip_ws r0) as [|c r1] eqn:E1; [discriminate|].
      apply skip_ws_eq_suffix in E1.
      pose proof (suffix_trans _ _ _ (suffix_tail c r1) (suffix_trans _ _ _ E1 E)) as E2.
      destruct (c =? 58)%N; [|discriminate].
      destruct (scan_once f (skip_ws r1)) as [value r2| |] eqn:E3; try discriminate.
      apply IHs, ends_solid_suffix in E3.
      pose proof (suffix_trans _ _ _ E3 (suffix_trans _ _ _ (suffix_skip_ws r1) E2)) as E4.
      destruct (skip_ws r2) as [|d r3] eqn:E5; [discriminate|].
      apply skip_ws_eq_suffix in E5.
      pose proof (suffix_trans _ _ _ E5 E4) as E6.
      destruct (d =? 125)%N eqn:Ed.
      * injection H as <- <-. apply N.eqb_eq in Ed. subst.
        now apply (ends_solid_intro 125%N).
      * destruct (d =? 44)%N; [|discriminate].
        destruct (skip_ws r3) as [|q r4] eqn:E7; [discriminate|].
        apply skip_ws_eq_suffix in E7.
        destruct (q =? 34)%N; [|discriminate]. apply IHo in H.
        eapply ends_solid_lift; [|exact H].
        eapply suffix_trans; [apply suffix_tail|].
        eapply suffix_trans; [exact E7|].
        eapply suffix_trans; [apply suffix_tail|exact E6].
Qed.

End SolidEnd.

Module StripJson.
Import Json JsonAux JsonFacts JsonFuel TailFacts TailLex TailString TailScan SolidEnd.

Lemma ws_isspace (c : char) : is_ws c = true -> PyStr.isspace c = true.
Proof. intros H. now ws_cases H. Qed.

Lemma skip_ws_prefix (s : str) : exists w, all_ws w /\ s = w ++ skip_ws s.
Proof.
  induction s as [|c s (w & Hw & IH)]; simpl.
  - exists []. split; [constructor|reflexivity].
  - destruct (is_ws c) eqn:E.
    + exists (c :: w). split; [now constructor|]. simpl. now f_equal.
    + exists []. split; [constructor|reflexivity].
Qed.

Lemma lstrip_ws_prefix (w : str) (c : char) (t : str) :
  all_ws w -> PyStr.isspace c = false -> PyStr.lstrip (w ++ c :: t) = c :: t.
Proof.
  intros Hw Hc. induction Hw as [|d w Hd Hw IH]; simpl.
  - now rewrite Hc.
  - now rewrite (ws_isspace _ Hd).
Qed.

Lemma rstrip_solid (body : str) (c : char) (r : str) :
  PyStr.isspace c = false -> all_ws r ->
  PyStr.rstrip (body ++ c :: r) = body ++ [c].
Proof.
  intros Hc Hr. unfold PyStr.rstrip.
  rewrite rev_app_distr. simpl. rewrite <- app_assoc. simpl.
  assert (all_ws (rev r)) as Hr' by (apply Forall_rev; exact Hr).
  rewrite (lstrip_ws_prefix _ _ _ Hr' Hc). simpl. now rewrite rev_involutive.
Qed.

(** A JSON value starts with a quote, a bracket, a letter, a sign or a
    digit. *)
Lemma scan_head (f : nat) (c : char) (t : str) (v : json) (r : str) :
  scan_once f (c :: t) = POk v r ->
  PyStr.isspace c = false /\ (c =? 65279)%N = false /\ is_ws c = false.
Proof.
  destruct f as [|f]; [discriminate|]. cbn [scan_once].
  assert (forall k, (c =? k)%N = true -> PyStr.isspace k = false ->
                    (k =? 65279)%N = false -> is_ws k = false ->
                    PyStr.isspace c = false /\ (c =? 65279)%N = false
                    /\ is_ws c = false) as K.
  { intros k E. apply N.eqb_eq in E. now subst. }
  assert (forall p k, PyStr.starts_with (k :: p) (c :: t) = true -> (c =? k)%N = true) as L.
  { intros p k E. cbn [PyStr.starts_with] in E. apply andb_true_iff in E as [E _].
    now rewrite N.eqb_sym. }
  destruct (c =? 34)%N eqn:E1; [intros _; now apply (K _ E1)|].
  destruct (c =? 123)%N eqn:E2; [intros _; now apply (K _ E2)|].
  destruct (c =? 91)%N eqn:E3; [intros _; now apply (K _ E3)|].
  destruct (PyStr.starts_with (lit "null") (c :: t)) eqn:E4;
    [intros _; now apply (K _ (L _ _ E4))|].
  destruct (PyStr.starts_with (lit "true") (c :: t)) eqn:E5;
    [intros _; now apply (K _ (L _ _ E5))|].
  destruct (PyStr.starts_with (lit "false") (c :: t)) eqn:E6;
    [intros _; now apply (K _ (L _ _ E6))|].
  destruct (match_number (c :: t)) as [[v0 r0]|] eqn:E7.
  { intros _. unfold match_number in E7.
    destruct (match_integer (c :: t)) as [[i r1]|] eqn:Ei; [|discriminate].
    rewrite match_integer_unfold in Ei.
    destruct (c =? 45)%N eqn:E45; [now apply (K _ E45)|].
    simpl in Ei. destruct (c =? 48)%N eqn:E48; [now apply (K _ E48)|].
    destruct (is_digit c) eqn:Ed; [|discriminate].
    split; [now apply digit_solid|]. split; [|now apply digit_not_ws].
    unfold is_digit in Ed. apply andb_true_iff in Ed as [_ Ed].
    apply N.leb_le in Ed. apply N.eqb_neq. lia. }
  destruct (PyStr.starts_with (lit "NaN") (c :: t)) eqn:E8;
    [intros _; now apply (K _ (L _ _ E8))|].
  destruct (PyStr.starts_with (lit "Infinity") (c :: t)) eqn:E9;
    [intros _; now apply (K _ (L _ _ E9))|].
  destruct (PyStr.starts_with (lit "-Infinity") (c :: t)) eqn:E10;
    [intros _; now apply (K _ (L _ _ E10))|discriminate].
Qed.

(** Trimming a text that [decode] accepts leaves the value with nothing
    around it, and [decode] accepts that too. *)
Lemma decode_strip (s : str) (v : json) :
  decode s = Some v ->
  decode (PyStr.strip s) = Some v
  /\ PyStr.starts_with [65279%N] (PyStr.strip s) = false.
Proof.
  unfold decode. intros H.
  destruct (scan_once (budget s) (skip_ws s)) as [v0 r| |] eqn:E; try discriminate.
  destruct (skip_ws r) eqn:Er; [|discriminate]. injection H as ->.
  apply skip_ws_nil_all_ws in Er.
  destruct (proj1 (scan_solid _) _ _ _ E) as (body & c & Es & Hc).
  destruct (skip_ws_prefix s) as (w & Hw & Hs).
  assert (exists c1 t1, body ++ [c] = c1 :: t1
                        /\ PyStr.isspace c1 = false /\ (c1 =? 65279)%N = false
                        /\ is_ws c1 = false) as (c1 & t1 & Eb & H1 & H2 & H3).
  { rewrite Es in E. destruct body as [|c1 body].
    - exists c, []. split; [reflexivity|]. now apply scan_head in E.
    - exists c1, (body ++ [c]). split; [reflexivity|]. now apply scan_head in E. }
  assert (PyStr.strip s = body ++ [c]) as Hstrip.
  { unfold PyStr.strip. rewrite Hs, Es.
    replace (body ++ c :: r) with ((body ++ [c]) ++ r) by now rewrite <- app_assoc.
    rewrite Eb. simpl app. rewrite (lstrip_ws_prefix _ _ _ Hw H1).
    change (c1 :: t1 ++ r) with ((c1 :: t1) ++ r). rewrite <- Eb, <- app_assoc.
    now apply rstrip_solid. }
  rewrite Hstrip.
  split; [|rewrite Eb; cbn [PyStr.starts_with]; now rewrite N.eqb_sym, H2].
  assert (skip_ws (body ++ [c]) = body ++ [c]) as ->
      by (rewrite Eb; cbn [skip_ws]; now rewrite H3).
  assert (same_but_tail (skip_ws s) (body ++ [c])) as HT.
  { rewrite Es. replace (body ++ c :: r) with ((body ++ [c]) ++ r)
      by now rewrite <- app_assoc.
    now apply same_but_tail_drop. }
  destruct (proj1 (scan_tail _) _ _ HT _ _ E) as (r' & E' & HT').
  assert (length (body ++ [c]) <= length s) as Hlen.
  { rewrite Hs, Es, !length_app. simpl. lia. }
  assert (scan_once (budget (body ++ [c])) (body ++ [c]) = POk v r') as ->.
  { rewrite <- E'. symmetry. apply (proj1 (scan_mono _)).
    - unfold budget. lia.
    - apply (proj1 (scan_fuel _)). unfold budget. lia. }
  now rewrite (skip_ws_all_ws _ (same_but_tail_all_ws _ _ HT' Er)).
Qed.

(** Valid JSON stays valid JSON, of the same value, when it is trimmed. *)
Lemma loads_strip (s : str) (v : json) :
  loads s = Return v -> loads (PyStr.strip s) = Return v.
Proof.
  unfold loads. destruct (PyStr.starts_with [65279%N] s); [discriminate|].
  destruct (decode s) as [v0|] eqn:E; [|discriminate]. intros [= <-].
  destruct (decode_strip _ _ E) as [-> ->]. reflexivity.
Qed.

End StripJson.

(** ** Response extractor *)

Module ExtractorFacts.
Import Json Extractor PyStr PyStrFacts.

Lemma loads_raises (s : str) (e : exn) :
  loads s = Raise e -> e = JSONDecodeError.
Proof.
  unfold loads. destruct (starts_with [65279%N] s); [congruence|].
  destruct (decode s); [discriminate|congruence].
Qed.

Lemma check_required_raises (fields : list str) (data : json) (e : exn) :
  check_required fields data = Raise e -> e <> JSONDecodeError.
Proof.
  induction fields as [|f fields IH]; simpl; [discriminate|].
  destruct (py_contains data f) as [present|e'] eqn:E; simpl.
  - destruct present; simpl; [exact IH|]. intros [= <-]. discriminate.
  - intros [= <-]. destruct data; simpl in E; try discriminate;
      injection E as <-; discriminate.
Qed.

Lemma log_parsed_raises (data : json) (e : exn) :
  log_parsed data = Raise e -> e <> JSONDecodeError.
Proof.
  unfold log_parsed, py_getitem, py_upper, py_len. intros H.
  repeat match type of H with
         | context [match ?x with _ => _ end] => destruct x; simpl in H
         end;
    try discriminate; injection H as <-; discriminate.
Qed.

Lemma validate_raises (data : json) (e : exn) :
  validate data = Raise e -> e <> JSONDecodeError.
Proof.
  unfold validate.
  destruct (check_required required_fields data) eqn:E1; simpl.
  - destruct (log_parsed data) eqn:E2; simpl; [discriminate|].
    intros [= <-]. eapply log_parsed_raises, E2.
  - intros [= <-]. eapply check_required_raises, E1.
Qed.

(** The handler leaves what [validate] does untouched. *)
Lemma parse_parsed (text : str) (data : json) :
  loads (select_json_str text) = Return data ->
  _parse_analysis_response text = validate data.
Proof.
  intros H. unfold _parse_analysis_response, parse_body. rewrite H. simpl.
  destruct (validate data) as [v|e] eqn:E; [reflexivity|].
  apply validate_raises in E. destruct e; congruence.
Qed.

Lemma parse_unparsed (text : str) :
  loads (select_json_str text) = Raise JSONDecodeError ->
  _parse_analysis_response text = Return (failure_default text).
Proof.
  intros H. unfold _parse_analysis_response, parse_body. now rewrite H.
Qed.

Lemma check_required_missing (d : list (str * json)) (f : str) :
  first_missing d = Some f ->
  check_required required_fields (JDict d)
  = Raise (ValueError (lit "Missing required field: " ++ f)).
Proof.
  unfold first_missing, required_fields. simpl.
  repeat match goal with
         | |- context [dict_get d ?k] => destruct (dict_get d k); simpl
         end;
    intros H; try discriminate; now injection H as <-.
Qed.

Lemma check_required_present (d : list (str * json)) :
  first_missing d = None <->
  check_required required_fields (JDict d) = Return tt.
Proof.
  unfold first_missing, required_fields. simpl.
  repeat match goal with
         | |- context [dict_get d ?k] => destruct (dict_get d k); simpl
         end;
    split; intros H; try discriminate; reflexivity.
Qed.

(** [validate] returns only dictionaries that hold the four fields. *)
Lemma validate_returns (data v : json) :
  validate data = Return v ->
  exists d, v = JDict d /\ data = v /\ first_missing d = None.
Proof.
  unfold validate. intros H.
  destruct (check_required required_fields data) as [[]|] eqn:E1;
    simpl in H; [|discriminate].
  destruct (log_parsed data) as [[]|] eqn:E2; simpl in H; [|discriminate].
  injection H as <-.
  destruct data; try discriminate E2.
  exists d. repeat split. now apply check_required_present.
Qed.

Lemma first_missing_default (text : str) :
  exists d, failure_default text = JDict d /\ first_missing d = None.
Proof. eexists. split; reflexivity. Qed.

End ExtractorFacts.

Module FenceFacts.
Import Json Extractor PyStr PyStrFacts.

(** A fence marker cannot straddle the end of a text that is followed by
    a line feed. *)
Lemma fence_not_across (q tail : str) :
  starts_with (lit "```") q = false ->
  starts_with (lit "```") (q ++ 10%N :: tail) = false.
Proof.
  intros H.
  destruct q as [|a [|b [|c q]]]; simpl in *;
    repeat match goal with
           | |- context [(?x =? ?y)%N] => destruct (x =? y)%N; simpl in *
           end; congruence.
Qed.

(** Searching for a marker that begins with three backquotes passes over
    a fence-free text that is followed by a line feed. *)
Lemma find_from_past (sub p tail : str) (i j : nat) :
  (forall x, starts_with sub x = true -> starts_with (lit "```") x = true) ->
  find_from (lit "```") p i = None ->
  find_from sub (p ++ 10%N :: tail) j = find_from sub (10%N :: tail) (j + length p).
Proof.
  intros Hsub. revert i j. induction p as [|c p IH]; intros i j H.
  - simpl app. simpl length. now rewrite Nat.add_0_r.
  - cbn [find_from] in H.
    destruct (starts_with (lit "```") (c :: p)) eqn:E; [discriminate|].
    change ((c :: p) ++ 10%N :: tail) with (c :: (p ++ 10%N :: tail)).
    cbn [find_from].
    destruct (starts_with sub (c :: p ++ 10%N :: tail)) eqn:E'.
    + apply Hsub in E'.
      pose proof (fence_not_across (c :: p) tail E) as F.
      change ((c :: p) ++ 10%N :: tail) with (c :: p ++ 10%N :: tail) in F.
      congruence.
    + rewrite (IH (S i) (S j) H). simpl length.
      now replace (j + S (length p)) with (S j + length p) by lia.
Qed.

Lemma find_at (sub s : str) (start : nat) :
  start <= length s ->
  find sub s (Z.of_nat start) =
  match find_from sub (skipn start s) start with
  | Some i => Z.of_nat i
  | None => (-1)%Z
  end.
Proof.
  intros H. unfold find.
  destruct (Z.ltb_spec (Z.of_nat start) 0); [lia|].
  destruct (Z.ltb_spec (Z.of_nat (length s)) (Z.of_nat start)); [lia|].
  now rewrite Nat2Z.id.
Qed.

Lemma slice_middle (a m b : str) :
  slice (a ++ m ++ b) (Z.of_nat (length a)) (Z.of_nat (length a + length m)) = m.
Proof.
  unfold slice, adjust.
  destruct (Z.ltb_spec (Z.of_nat (length a)) 0); [lia|].
  destruct (Z.ltb_spec (Z.of_nat (length a + length m)) 0); [lia|].
  rewrite !length_app.
  replace (Z.to_nat (Z.max 0 (Z.min (Z.of_nat (length a + (length m + length b)))
                                (Z.of_nat (length a))))) with (length a) by lia.
  replace (Z.to_nat _) with (length m) by lia.
  rewrite skipn_app, skipn_all, Nat.sub_diag. simpl.
  rewrite firstn_app, firstn_all, Nat.sub_diag. simpl. apply app_nil_r.
Qed.

Lemma no_tagged_fence (s : str) :
  contains (lit "```") s = false -> contains (lit "```json") s = false.
Proof. exact (contains_false_longer (lit "```") (lit "json") s). Qed.

Section Wrapped.
Variable payload : str.
Hypothesis fence_free : contains (lit "```") payload = false.

Lemma payload_unfenced : find_from (lit "```") payload 0 = None.
Proof. now apply contains_false. Qed.

Lemma select_unwrapped : select_json_str payload = strip payload.
Proof.
  unfold select_json_str.
  now rewrite (no_tagged_fence payload fence_free), fence_free.
Qed.

(** The closing fence is the first marker after the opening one. *)
Lemma closing_fence (k : nat) :
  find_from (lit "```") (10%N :: payload ++ 10%N :: lit "```") k
  = Some (k + (2 + length payload)).
Proof.
  cbn [find_from]. change (starts_with (lit "```") (10%N :: _)) with false.
  cbv iota.
  rewrite (find_from_past (lit "```") payload (lit "```") 0 (S k)
             (fun x H => H) payload_unfenced).
  cbn [find_from]. change (starts_with (lit "```") (10%N :: _)) with false.
  cbv iota. simpl. f_equal. lia.
Qed.

Lemma no_tag_inside (k : nat) :
  find_from (lit "```json") (10%N :: payload ++ 10%N :: lit "```") k = None.
Proof.
  cbn [find_from]. change (starts_with (lit "```json") (10%N :: _)) with false.
  cbv iota.
  rewrite (find_from_past (lit "```json") payload (lit "```") 0 (S k)
             (starts_with_prefix (lit "```") (lit "json")) payload_unfenced).
  reflexivity.
Qed.

Lemma select_fenced (open : str) :
  find (lit "```") (open ++ (10%N :: payload ++ [10%N]) ++ lit "```")
    (Z.of_nat (length open))
  = Z.of_nat (length open + length (10%N :: payload ++ [10%N])) ->
  strip (slice (open ++ (10%N :: payload ++ [10%N]) ++ lit "```")
           (Z.of_nat (length open))
           (find (lit "```") (open ++ (10%N :: payload ++ [10%N]) ++ lit "```")
              (Z.of_nat (length open))))
  = strip payload.
Proof.
  intros ->. rewrite slice_middle. now apply strip_padded.
Qed.

Lemma find_closing (open : str) :
  find (lit "```") (open ++ (10%N :: payload ++ [10%N]) ++ lit "```")
    (Z.of_nat (length open))
  = Z.of_nat (length open + length (10%N :: payload ++ [10%N])).
Proof.
  rewrite find_at by (rewrite length_app; lia).
  rewrite skipn_app, skipn_all, Nat.sub_diag. simpl skipn.
  rewrite app_nil_l, <- app_assoc. change ([10%N] ++ lit "```") with (10%N :: lit "```").
  rewrite closing_fence. f_equal. simpl. rewrite length_app. simpl. lia.
Qed.

Lemma wrap_shape (open : str) :
  open ++ [10%N] ++ payload ++ [10%N] ++ lit "```"
  = open ++ (10%N :: payload ++ [10%N]) ++ lit "```".
Proof.
  f_equal. simpl. now rewrite <- app_assoc.
Qed.

Lemma select_json_fence :
  select_json_str (wrap_in_json_fence payload) = strip payload.
Proof.
  unfold select_json_str, wrap_in_json_fence.
  rewrite wrap_shape.
  set (text := lit "```json" ++ (10%N :: payload ++ [10%N]) ++ lit "```").
  assert (find (lit "```json") text 0 = 0%Z) as E0 by reflexivity.
  assert (contains (lit "```json") text = true) as ->
      by (unfold contains; now rewrite E0).
  rewrite E0. change (0 + 7)%Z with (Z.of_nat (length (lit "```json"))).
  apply select_fenced, find_closing.
Qed.

Lemma select_generic_fence :
  select_json_str (wrap_in_generic_fence payload) = strip payload.
Proof.
  unfold select_json_str, wrap_in_generic_fence.
  rewrite wrap_shape.
  set (text := lit "```" ++ (10%N :: payload ++ [10%N]) ++ lit "```").
  assert (contains (lit "```json") text = false) as ->.
  { apply contains_false. subst text.
    change (lit "```" ++ (10%N :: payload ++ [10%N]) ++ lit "```")
      with (96%N :: 96%N :: 96%N :: (10%N :: payload ++ [10%N]) ++ lit "```").
    rewrite <- app_comm_cons, <- app_assoc.
    change ([10%N] ++ lit "```") with (10%N :: lit "```").
    cbn [find_from].
    repeat (match goal with
            | |- context [starts_with ?a ?b] =>
                change (starts_with a b) with false
            end; cbv iota).
    apply no_tag_inside. }
  assert (find (lit "```") text 0 = 0%Z) as E0 by reflexivity.
  assert (contains (lit "```") text = true) as ->
      by (unfold contains; now rewrite E0).
  rewrite E0. change (0 + 3)%Z with (Z.of_nat (length (lit "```"))).
  apply select_fenced, find_closing.
Qed.

End Wrapped.
End FenceFacts.

Module ExtractorMore.
Import Json Extractor PyStr PyStrFacts ExtractorFacts.

Lemma parse_by_cases (text : str) :
  _parse_analysis_response text =
  match loads (select_json_str text) with
  | Return data => validate data
  | Raise _ => Return (failure_default text)
  end.
Proof.
  destruct (loads (select_json_str text)) as [data|e] eqn:E.
  - now apply parse_parsed.
  - pose proof (loads_raises _ _ E) as ->. now apply parse_unparsed.
Qed.

Lemma validate_well_shaped (v : json) :
  well_shaped v = true -> validate v = Return v.
Proof.
  destruct v as [| | | | | |l|d]; try discriminate. unfold well_shaped.
  intros H. apply andb_true_iff in H as [H Hc].
  apply andb_true_iff in H as [Hm Hp].
  destruct (first_missing d) eqn:Em; [discriminate|].
  apply check_required_present in Em.
  unfold validate. rewrite Em. simpl.
  unfold log_parsed, py_getitem.
  destruct (dict_get d (lit "provider")) as [[]|]; try discriminate. simpl.
  destruct (dict_get d (lit "detected_components")) as [[]|];
    try discriminate; simpl;
    apply check_required_present in Em; unfold first_missing in Em;
    simpl in Em;
    destruct (dict_get d (lit "provider")); try discriminate;
    destruct (dict_get d (lit "detected_components")); try discriminate;
    destruct (dict_get d (lit "complexity")); try discriminate;
    destruct (dict_get d (lit "estimated_monthly_cost")); try discriminate;
    reflexivity.
Qed.

(** The opening fence found by [find] leaves room for its own length. *)
Lemma fence_start (open text : str) :
  contains open text = true ->
  (0 <= find open text 0 + Z.of_nat (length open) <= Z.of_nat (length text))%Z.
Proof.
  intros H. apply contains_true in H as (i & Hi & ->).
  apply find_from_bounds in Hi. lia.
Qed.

End ExtractorMore.

Import Json Extractor.

(** C1 (amended).  When the selected text is not JSON, [extract] returns the
    failure-shaped default; whatever it returns is a dictionary holding the
    four required keys, never a partially populated one; but when the
    selected text is a JSON object that lacks a required key, the
    [ValueError] naming the first missing key leaves [extract] uncaught,
    because the handler catches [json.JSONDecodeError] only. *)
Theorem extract_outcomes (text : str) :
  (loads (select_json_str text) = Raise JSONDecodeError ->
   _parse_analysis_response text = Return (failure_default text))
  /\ (forall d f,
         loads (select_json_str text) = Return (JDict d) ->
         first_missing d = Some f ->
         _parse_analysis_response text
         = Raise (ValueError (lit "Missing required field: " ++ f)))
  /\ (forall v,
         _parse_analysis_response text = Return v ->
         exists d, v = JDict d /\ first_missing d = None).
Proof.
  split; [apply ExtractorFacts.parse_unparsed|split].
  - intros d f Hl Hm. rewrite (ExtractorFacts.parse_parsed _ _ Hl).
    unfold validate. now rewrite (ExtractorFacts.check_required_missing _ _ Hm).
  - intros v. rewrite ExtractorMore.parse_by_cases.
    destruct (loads (select_json_str text)) as [data|e].
    + intros H. apply ExtractorFacts.validate_returns in H as (d & -> & _ & Hm).
      now exists d.
    + intros [= <-]. apply ExtractorFacts.first_missing_default.
Qed.

Lemma extract_outcomes_witness :
  _parse_analysis_response (jq "{'provider':'aws','complexity':'low'}")
  = Raise (ValueError (lit "Missing required field: detected_components")).
Proof.
  eapply (proj1 (proj2 (extract_outcomes _))); vm_compute; reflexivity.
Defined.

(** C1 as stated fails: the object of the specification's own example,
    which lacks two required keys, makes [extract] raise. *)
Lemma extract_missing_key_raises :
  let text := jq "{'provider':'aws','complexity':'low'}" in
  _parse_analysis_response text
  = Raise (ValueError (lit "Missing required field: detected_components"))
  /\ _parse_analysis_response text <> Return (failure_default text)
  /\ forall v, _parse_analysis_response text <> Return v.
Proof.
  assert (_parse_analysis_response (jq "{'provider':'aws','complexity':'low'}")
          = Raise (ValueError (lit "Missing required field: detected_components")))
    as E by (vm_compute; reflexivity).
  cbv zeta. rewrite E. repeat split; discriminate.
Qed.

(** C2 (amended).  When [json.loads] rejects with [JSONDecodeError] the
    text selected from the input (the whole input, trimmed as [str.strip]
    trims it, when it has no fence marker), [extract] returns the default
    with [error] set, no components, complexity ["medium"], cost [0] and
    the first 500 characters of the raw input. *)
Theorem extract_unparseable_default (text : str) :
  loads (select_json_str text) = Raise JSONDecodeError ->
  exists r,
    _parse_analysis_response text = Return r
    /\ field r (lit "error") = Some (JStr (lit "Failed to parse AI response"))
    /\ field r (lit "detected_components") = Some (JList [])
    /\ field r (lit "complexity") = Some (JStr (lit "medium"))
    /\ field r (lit "estimated_monthly_cost") = Some (JInt 0)
    /\ field r (lit "raw_response") = Some (JStr (firstn 500 text))
    /\ (PyStr.contains (lit "```") text = false ->
        select_json_str text = PyStr.strip text).
Proof.
  intros H. exists (failure_default text).
  split; [|repeat split].
  - now apply ExtractorFacts.parse_unparsed.
  - rewrite <- (PyStrFacts.slice_prefix text 500). reflexivity.
  - apply FenceFacts.select_unwrapped.
Qed.

Lemma extract_unparseable_default_witness :
  exists r,
    _parse_analysis_response (lit "not json at all") = Return r
    /\ field r (lit "error") = Some (JStr (lit "Failed to parse AI response"))
    /\ field r (lit "detected_components") = Some (JList [])
    /\ field r (lit "complexity") = Some (JStr (lit "medium"))
    /\ field r (lit "estimated_monthly_cost") = Some (JInt 0)
    /\ field r (lit "raw_response") = Some (JStr (lit "not json at all")).
Proof.
  destruct (extract_unparseable_default (lit "not json at all")) as (r & H).
  - vm_compute. reflexivity.
  - exists r. intuition.
Defined.

(** C2 as stated fails: an input that is not JSON, and has no fence marker,
    can come back parsed.  A no-break space (U+00A0) before an object is
    not white space for [json.loads], which rejects the input, but it is
    for [str.strip]: [extract] parses the trimmed text and returns the
    object, without the [error] field and with the components and the
    complexity that were read. *)
Lemma trimmed_input_is_parsed :
  let text :=
    160%N :: jq "{'provider':'gcp','detected_components':['vm'],'complexity':'high','estimated_monthly_cost':7}" in
  loads text = Raise JSONDecodeError
  /\ PyStr.contains (lit "```") text = false
  /\ exists r,
      _parse_analysis_response text = Return r
      /\ field r (lit "error") = None
      /\ field r (lit "detected_components") = Some (JList [JStr (lit "vm")])
      /\ field r (lit "complexity") = Some (JStr (lit "high"))
      /\ r <> failure_default text.
Proof.
  cbv zeta. split; [vm_compute; reflexivity|]. split; [vm_compute; reflexivity|].
  eexists. split; [vm_compute; reflexivity|].
  split; [reflexivity|]. split; [reflexivity|]. split; [reflexivity|].
  discriminate.
Qed.

(** C3 (amended).  For every valid JSON payload that contains no fence
    marker, [extract] on the payload inside a fence tagged [json], inside an
    untagged fence and bare selects the same text, the trimmed payload, and
    gives one and the same result: what validation makes of the parsed
    value, which is the parsed object itself when it holds the four required
    keys with a string provider and sized components. *)
Theorem fenced_payload_same_result (payload : str) (v : json) :
  PyStr.contains (lit "```") payload = false ->
  loads payload = Return v ->
  _parse_analysis_response (wrap_in_json_fence payload) = validate v
  /\ _parse_analysis_response (wrap_in_generic_fence payload) = validate v
  /\ _parse_analysis_response payload = validate v
  /\ (well_shaped v = true -> validate v = Return v).
Proof.
  intros Hfree Hv. apply StripJson.loads_strip in Hv. repeat split.
  - apply ExtractorFacts.parse_parsed.
    now rewrite (FenceFacts.select_json_fence payload Hfree).
  - apply ExtractorFacts.parse_parsed.
    now rewrite (FenceFacts.select_generic_fence payload Hfree).
  - apply ExtractorFacts.parse_parsed.
    now rewrite (FenceFacts.select_unwrapped payload Hfree).
  - apply ExtractorMore.validate_well_shaped.
Qed.

Lemma fenced_payload_same_result_witness :
  let payload :=
    jq "{'provider':'aws','detected_components':[],'complexity':'low','estimated_monthly_cost':120.0}" in
  exists d,
    _parse_analysis_response (wrap_in_json_fence payload) = Return (JDict d)
    /\ _parse_analysis_response (wrap_in_generic_fence payload) = Return (JDict d)
    /\ _parse_analysis_response payload = Return (JDict d)
    /\ Json.dict_get d (lit "estimated_monthly_cost") = Some (JFloat (lit "120.0")).
Proof.
  cbv zeta.
  match goal with
  | |- context [_parse_analysis_response (wrap_in_json_fence ?p)] =>
      destruct (loads p) as [v|e] eqn:E;
      [ destruct (fenced_payload_same_result p v ltac:(vm_compute; reflexivity) E)
          as (H1 & H2 & H3 & H4)
      | vm_compute in E; discriminate E ]
  end.
  vm_compute in E. injection E as <-.
  rewrite H1, H2, H3, H4 by (vm_compute; reflexivity).
  eexists. repeat split.
Defined.

(** C3 as stated fails: a valid payload with the four required keys and a
    fence marker inside one of its strings is cut at that marker, so the
    bare and the fenced payload both end in the failure default, each with
    its own raw text. *)
Lemma fence_inside_payload_differs :
  let payload :=
    jq "{'provider':'aws','detected_components':[],'complexity':'low','estimated_monthly_cost':1,'architecture_pattern':'```'}" in
  (exists v, loads payload = Return v /\ well_shaped v = true)
  /\ _parse_analysis_response payload = Return (failure_default payload)
  /\ _parse_analysis_response (wrap_in_json_fence payload)
     = Return (failure_default (wrap_in_json_fence payload))
  /\ _parse_analysis_response (wrap_in_json_fence payload)
     <> _parse_analysis_response payload.
Proof.
  cbv zeta. split; [|split; [|split]].
  - eexists. split; vm_compute; reflexivity.
  - vm_compute. reflexivity.
  - vm_compute. reflexivity.
  - vm_compute. discriminate.
Qed.

(** C10.  When the text has an opening fence (the tagged one, or else the
    first untagged one) and no fence marker after it, the search for the
    closing fence gives [-1]; the text selected is then the text after the
    opening marker without its final character, trimmed, and not the whole
    trimmed text, and the result is what parsing that selection gives:
    what validation makes of the value when it parses, the failure default
    when [json.loads] rejects it with [JSONDecodeError], and any other
    exception of [json.loads] raised to the caller. *)
Theorem unclosed_fence_drops_last_char (text open : str) :
  (open = lit "```json" /\ PyStr.contains (lit "```json") text = true)
  \/ (open = lit "```" /\ PyStr.contains (lit "```json") text = false
      /\ PyStr.contains (lit "```") text = true) ->
  PyStr.find (lit "```") text
    (PyStr.find open text 0 + Z.of_nat (length open)) = (-1)%Z ->
  let start := Z.to_nat (PyStr.find open text 0 + Z.of_nat (length open)) in
  let selected := PyStr.strip (removelast (skipn start text)) in
  select_json_str text = selected
  /\ _parse_analysis_response text =
     match loads selected with
     | Return data => validate data
     | Raise JSONDecodeError => Return (failure_default text)
     | Raise e => Raise e
     end.
Proof.
  intros Hopen Hend. cbv zeta.
  assert (select_json_str text
          = PyStr.strip (removelast
              (skipn (Z.to_nat (PyStr.find open text 0 + Z.of_nat (length open))) text)))
    as Hsel.
  { unfold select_json_str.
    destruct Hopen as [[-> Hc] | (-> & Hj & Hc)].
    - rewrite Hc. change (Z.of_nat (length (lit "```json"))) with 7%Z in *.
      rewrite Hend. f_equal. apply PyStrFacts.slice_to_minus_one.
      apply (ExtractorMore.fence_start _ _ Hc).
    - rewrite Hj, Hc. change (Z.of_nat (length (lit "```"))) with 3%Z in *.
      rewrite Hend. f_equal. apply PyStrFacts.slice_to_minus_one.
      apply (ExtractorMore.fence_start _ _ Hc). }
  split; [exact Hsel|].
  rewrite <- Hsel.
  destruct (loads (select_json_str text)) as [data|e] eqn:E.
  - now apply ExtractorFacts.parse_parsed.
  - unfold _parse_analysis_response, parse_body. rewrite E. cbn [bind].
    destruct e; reflexivity.
Qed.

Lemma unclosed_fence_drops_last_char_witness :
  let text := jq "Here it is: ```json {'provider':'aws'}" in
  select_json_str text = jq "{'provider':'aws'"
  /\ _parse_analysis_response text = Return (failure_default text).
Proof.
  cbv zeta.
  destruct (unclosed_fence_drops_last_char
              (jq "Here it is: ```json {'provider':'aws'}") (lit "```json"))
    as [H1 H2].
  - left. split; reflexivity.
  - vm_compute. reflexivity.
  - rewrite H1, H2. split; vm_compute; reflexivity.
Defined.

(** ** Images *)

Module ImagingFacts.
Import Imaging.

Lemma DIV255_exact (v : Z) : (0 <= v <= 255)%Z -> DIV255 (v * 255) = v.
Proof.
  intros H. unfold DIV255. rewrite !Z.shiftr_div_pow2 by lia.
  change (2 ^ 8)%Z with 256%Z.
  destruct (Z.le_gt_cases v 128).
  - rewrite <- (Z.div_unique (v * 255 + 128) 256 v (128 - v)) by lia.
    symmetry. apply (Z.div_unique _ _ v 128); lia.
  - rewrite <- (Z.div_unique (v * 255 + 128) 256 (v - 1) (384 - v)) by lia.
    symmetry. apply (Z.div_unique _ _ v 127); lia.
Qed.




Lemma mode_in_eq (m : str) (ms : list str) :
  mode_in m ms = true <-> In m ms.
Proof.
  unfold mode_in. rewrite existsb_exists. split.
  - intros (x & Hx & E). apply str_eqb_eq in E. now subst.
  - intros H. exists m. split; [assumption|apply str_eqb_refl].
Qed.

Section WithLibrary.
Context {lib : Library}.

Lemma convert_shape (img out : image) (m : str) :
  convert img m = Return out ->
  mode out = m /\ width out = width img /\ height out = height img.
Proof.
  unfold convert.
  destruct (convert_pixel (palette img) (mode img) m).
  - intros [= <-]. now repeat split.
  - destruct (convert_data img m); simpl; [|discriminate].
    intros [= <-]. now repeat split.
Qed.

(** Mode coercion ends in mode RGB and keeps the size. *)
Lemma convert_to_rgb_shape (img out : image) :
  convert_to_rgb img = Return out ->
  mode out = lit "RGB" /\ width out = width img /\ height out = height img.
Proof.
  unfold convert_to_rgb.
  destruct (mode_in (mode img) [lit "RGBA"; lit "LA"; lit "P"]).
  - match goal with
    | |- context [bind ?m _] => destruct m as [img1|e]
    end; simpl; [|discriminate].
    intros [= <-]. now repeat split.
  - destruct (str_eqb (mode img) (lit "RGB")) eqn:E; simpl.
    + intros [= <-]. apply str_eqb_eq in E. now repeat split.
    + apply convert_shape.
Qed.

(** What the compositing branch computes. *)
Lemma convert_to_rgb_composite (img : image) :
  mode_in (mode img) [lit "RGBA"; lit "LA"; lit "P"] = true ->
  exists src : image,
    (if str_eqb (mode img) (lit "P")
     then src = set_mode_data img (lit "RGBA")
                  (map (palette_entry (palette img))
                     (map (fun px => band px 0) (data img)))
     else src = img)
    /\ convert_to_rgb img
       = Return (paste (Image_new (lit "RGB") (size img) white) src
                   (Some (map alpha (data src)))).
Proof.
  intros Hm. unfold convert_to_rgb. rewrite Hm.
  destruct (str_eqb (mode img) (lit "P")) eqn:EP.
  - apply str_eqb_eq in EP. unfold convert. rewrite EP.
    change (convert_pixel (palette img) (lit "P") (lit "RGBA"))
      with (Some (fun px : pixel => palette_entry (palette img) (band px 0))).
    simpl bind. eexists. split; [rewrite map_map; reflexivity|].
    reflexivity.
  - exists img. split; [reflexivity|]. simpl bind.
    unfold mode_in in Hm. cbn [existsb] in Hm. rewrite EP in Hm.
    cbn [orb] in Hm. now rewrite Hm.
Qed.

End WithLibrary.
End ImagingFacts.

Module ThumbnailFacts.
Import Imaging.

Lemma floor_le_ceiling (q : Q) : (Qfloor q <= Qceiling q)%Z.
Proof.
  pose proof (Qfloor_le q) as H1. pose proof (Qle_ceiling q) as H2.
  pose proof (Qle_trans _ _ _ H1 H2) as H. now rewrite <- Zle_Qle in H.
Qed.

(** [round_aspect] never exceeds a whole bound of its argument. *)
Lemma round_aspect_le (q : Q) (key : Z -> Q) (n : Z) :
  (1 <= n)%Z -> (q <= inject_Z n)%Q -> (round_aspect q key <= n)%Z.
Proof.
  intros Hn Hq. unfold round_aspect.
  assert (Qceiling q <= n)%Z as Hc.
  { rewrite <- (Qceiling_Z n). now apply Qceiling_resp_le. }
  pose proof (floor_le_ceiling q).
  destruct (Qle_bool (key (Qfloor q)) (key (Qceiling q))); lia.
Qed.

Lemma round_aspect_ge (q : Q) (key : Z -> Q) : (1 <= round_aspect q key)%Z.
Proof. unfold round_aspect. lia. Qed.

(** For a positive argument [round_aspect] is its floor or its ceiling. *)
Lemma round_aspect_between (q : Q) (key : Z -> Q) :
  (0 < q)%Q ->
  (inject_Z (round_aspect q key - 1) < q)%Q
  /\ (q < inject_Z (round_aspect q key + 1))%Q.
Proof.
  intros Hq.
  pose proof (Qfloor_le q) as F1. pose proof (Qlt_floor q) as F2.
  pose proof (Qle_ceiling q) as C1. pose proof (Qceiling_lt q) as C2.
  pose proof (floor_le_ceiling q) as FC.
  assert (0 <= Qfloor q)%Z as F0.
  { assert (inject_Z 0 < inject_Z (Qfloor q + 1))%Q as H
        by (eapply Qlt_trans; [exact Hq|exact F2]).
    rewrite <- Zlt_Qlt in H. lia. }
  assert (1 <= Qceiling q)%Z as C0.
  { assert (inject_Z 0 < inject_Z (Qceiling q))%Q as H
        by (eapply Qlt_le_trans; [exact Hq|exact C1]).
    rewrite <- Zlt_Qlt in H. lia. }
  assert (forall a b : Z, (a <= b)%Z -> (inject_Z a <= inject_Z b)%Q) as mono
      by (intros; now rewrite <- Zle_Qle).
  unfold round_aspect.
  destruct (Qle_bool (key (Qfloor q)) (key (Qceiling q))).
  - destruct (Z.le_gt_cases 1 (Qfloor q)).
    + rewrite Z.max_l by lia. split.
      * eapply Qlt_le_trans; [|exact F1]. rewrite <- Zlt_Qlt. lia.
      * exact F2.
    + rewrite Z.max_r by lia. split.
      * exact Hq.
      * eapply Qlt_le_trans; [exact F2|]. apply mono. lia.
  - rewrite Z.max_l by lia. split.
    + exact C2.
    + eapply Qle_lt_trans; [exact C1|]. rewrite <- Zlt_Qlt. lia.
Qed.

Lemma scaled_pos (a b c : positive) :
  (inject_Z (Zpos a) * (inject_Z (Zpos b) / inject_Z (Zpos c)) == Zpos (a * b) # c)%Q.
Proof.
  rewrite <- (Qmake_Qdiv (Zpos b) c). unfold Qeq, Qmult, inject_Z. simpl. lia.
Qed.

Lemma unscaled_pos (a b c : positive) :
  (inject_Z (Zpos a) / (inject_Z (Zpos b) / inject_Z (Zpos c)) == Zpos (a * c) # b)%Q.
Proof.
  rewrite <- (Qmake_Qdiv (Zpos b) c). unfold Qeq, Qdiv, Qmult, Qinv, inject_Z.
  simpl. lia.
Qed.

(** The size that [thumbnail] settles on fits the requested box. *)
Lemma preserve_aspect_ratio_fits (img : image) (x y x' y' : Z) :
  (0 < x)%Z -> (0 < y)%Z ->
  preserve_aspect_ratio img x y = Return (Some (x', y')) ->
  (1 <= x' <= x)%Z /\ (1 <= y' <= y)%Z.
Proof.
  intros Hx Hy. unfold preserve_aspect_ratio.
  destruct ((x >=? width img) && (y >=? height img))%Z; [discriminate|].
  destruct (height img =? 0)%Z; [discriminate|].
  set (aspect := (inject_Z (width img) / inject_Z (height img))%Q).
  assert (0 < inject_Z y)%Q as Hy' by (change 0%Q with (inject_Z 0); now rewrite <- Zlt_Qlt).
  assert (0 < inject_Z x)%Q as Hx' by (change 0%Q with (inject_Z 0); now rewrite <- Zlt_Qlt).
  assert (~ inject_Z y == 0)%Q as Hy0
      by (intros H; rewrite H in Hy'; discriminate Hy').
  destruct (Qle_bool aspect (inject_Z x / inject_Z y)) eqn:E; intros [= <- <-].
  - apply Qle_bool_iff in E. split; [|lia]. split; [apply round_aspect_ge|].
    apply round_aspect_le; [lia|].
    apply (Qmult_le_l _ _ _ Hy') in E. now rewrite Qmult_div_r in E.
  - split; [lia|]. split; [apply round_aspect_ge|].
    assert (inject_Z x / inject_Z y < aspect)%Q as E'.
    { apply Qnot_le_lt. intros H. apply Qle_bool_iff in H. congruence. }
    apply (Qmult_lt_l _ _ _ Hy') in E'. rewrite Qmult_div_r in E' by exact Hy0.
    assert (0 < aspect)%Q as Ha.
    { apply (Qmult_lt_l _ _ _ Hy'). rewrite Qmult_0_r.
      eapply Qlt_trans; [exact Hx'|exact E']. }
    apply round_aspect_le; [lia|].
    apply Qle_shift_div_r; [exact Ha|]. now apply Qlt_le_weak.
Qed.

(** With positive dimensions the scaled side is within one pixel of the
    exact quotient: the aspect ratio is kept up to rounding. *)
Lemma preserve_aspect_ratio_aspect (img : image) (x y x' y' : Z) :
  (0 < x)%Z -> (0 < y)%Z -> (0 < width img)%Z -> (0 < height img)%Z ->
  preserve_aspect_ratio img x y = Return (Some (x', y')) ->
  (y' = y /\ (Z.abs (x' * height img - y * width img) < height img)%Z)
  \/ (x' = x /\ (Z.abs (y' * width img - x * height img) < width img)%Z).
Proof.
  intros Hx Hy Hw Hh. unfold preserve_aspect_ratio.
  destruct ((x >=? width img) && (y >=? height img))%Z; [discriminate|].
  destruct (height img =? 0)%Z; [discriminate|].
  destruct (width img) as [|w|w]; try lia.
  destruct (height img) as [|h|h]; try lia.
  destruct x as [|xp|xp]; try lia. destruct y as [|yp|yp]; try lia.
  set (aspect := (inject_Z (Zpos w) / inject_Z (Zpos h))%Q).
  assert (0 < aspect)%Q as Ha.
  { unfold aspect. rewrite <- Qmake_Qdiv. reflexivity. }
  destruct (Qle_bool aspect (inject_Z (Zpos xp) / inject_Z (Zpos yp)));
    intros [= <- <-]; [left|right]; (split; [reflexivity|]).
  - match goal with
    | |- context [round_aspect ?q ?k] =>
        destruct (round_aspect_between q k) as [L U];
        [|set (r := round_aspect q k) in *]
    end.
    { unfold aspect. rewrite scaled_pos. reflexivity. }
    unfold aspect in L, U. rewrite scaled_pos in L, U.
    unfold Qlt, inject_Z in L, U. simpl in L, U. lia.
  - match goal with
    | |- context [round_aspect ?q ?k] =>
        destruct (round_aspect_between q k) as [L U];
        [|set (r := round_aspect q k) in *]
    end.
    { unfold aspect. rewrite unscaled_pos. reflexivity. }
    unfold aspect in L, U. rewrite unscaled_pos in L, U.
    unfold Qlt, inject_Z in L, U. simpl in L, U. lia.
Qed.

End ThumbnailFacts.

Module PipelineFacts.
Import Imaging ImagingFacts ThumbnailFacts.

Section WithLibrary.
Context {lib : Library}.

Lemma thumbnail_result (img out : image) (x y : Z) :
  thumbnail img (x, y) = Return out ->
  mode out = mode img
  /\ exists final,
      preserve_aspect_ratio img x y = Return final
      /\ match final with
         | None => out = img
         | Some (x', y') => width out = x' /\ height out = y'
         end.
Proof.
  unfold thumbnail. cbn [fst snd].
  destruct (preserve_aspect_ratio img x y) as [[[x' y']|]|e]; simpl;
    [| |discriminate].
  - destruct ((x' =? width img) && (y' =? height img))%Z eqn:E.
    + intros [= <-]. apply andb_true_iff in E as [E1 E2].
      apply Z.eqb_eq in E1, E2. split; [reflexivity|].
      eexists. split; [reflexivity|]. simpl. now split.
    + destruct (resize_data img (x', y')); simpl; [|discriminate].
      intros [= <-]. split; [reflexivity|].
      eexists. split; [reflexivity|]. simpl. now split.
  - intros [= <-]. split; [reflexivity|]. now exists None.
Qed.

(** The stages that a successful [normalized] went through. *)
Lemma normalized_stages (content : bytes) (out : image) :
  normalized content = Return out ->
  exists img0 px rgb,
    Image_open content = Return img0
    /\ Image_load img0 = Return px
    /\ convert_to_rgb (set_mode_data img0 (mode img0) px) = Return rgb
    /\ (if ((width rgb >? MAX_WIDTH) || (height rgb >? MAX_HEIGHT))%Z
        then thumbnail rgb (MAX_WIDTH, MAX_HEIGHT) = Return out
        else out = rgb).
Proof.
  unfold normalized, load.
  destruct (Image_open content) as [img0|]; simpl; [|discriminate].
  destruct (Image_load img0) as [px|] eqn:El; simpl; [|discriminate].
  destruct (convert_to_rgb (set_mode_data img0 (mode img0) px)) as [rgb|] eqn:Ec;
    simpl; [|discriminate].
  intros H. exists img0, px, rgb.
  split; [reflexivity|]. split; [exact El|]. split; [exact Ec|].
  destruct ((width rgb >? MAX_WIDTH) || (height rgb >? MAX_HEIGHT))%Z;
    [exact H|now injection H].
Qed.

Lemma normalized_rgb (content : bytes) (out : image) :
  normalized content = Return out -> mode out = lit "RGB".
Proof.
  intros H. apply normalized_stages in H as (img0 & px & rgb & _ & _ & Hc & Ht).
  apply convert_to_rgb_shape in Hc as (Hm & _ & _).
  destruct ((width rgb >? MAX_WIDTH) || (height rgb >? MAX_HEIGHT))%Z.
  - apply thumbnail_result in Ht as [Hmode _]. congruence.
  - congruence.
Qed.

(** The size that leaves [normalized], from the size that was decoded. *)
Lemma normalized_size (content : bytes) (img0 out : image) :
  Image_open content = Return img0 ->
  normalized content = Return out ->
  if ((width img0 >? MAX_WIDTH) || (height img0 >? MAX_HEIGHT))%Z
  then exists rgb final,
      width rgb = width img0 /\ height rgb = height img0
      /\ preserve_aspect_ratio rgb MAX_WIDTH MAX_HEIGHT = Return (Some final)
      /\ width out = fst final /\ height out = snd final
  else width out = width img0 /\ height out = height img0.
Proof.
  intros Ho H.
  apply normalized_stages in H as (img0' & px & rgb & Ho' & _ & Hc & Ht).
  rewrite Ho in Ho'. injection Ho' as <-.
  apply convert_to_rgb_shape in Hc as (_ & Hw & Hh). simpl in Hw, Hh.
  rewrite Hw, Hh in Ht.
  destruct ((width img0 >? MAX_WIDTH) || (height img0 >? MAX_HEIGHT))%Z eqn:E.
  - apply thumbnail_result in Ht as (_ & final & Hp & Hf).
    destruct final as [[x' y']|].
    + exists rgb, (x', y'). now repeat split.
    + exfalso. unfold preserve_aspect_ratio in Hp.
      rewrite Hw, Hh in Hp. unfold MAX_WIDTH, MAX_HEIGHT in *.
      destruct ((1920 >=? width img0) && (1920 >=? height img0))%Z eqn:E'.
      * apply andb_true_iff in E' as [E1 E2].
        apply orb_true_iff in E as [E|E]; lia.
      * destruct (height img0 =? 0)%Z; [discriminate|].
        destruct (Qle_bool _ _) in Hp; discriminate.
  - subst out. now split.
Qed.

(** Within the cap, [normalized] is mode coercion of the loaded image. *)
Lemma normalized_within_cap (content : bytes) (img0 : image) (px : list pixel) :
  Image_open content = Return img0 ->
  Image_load img0 = Return px ->
  (width img0 <= MAX_WIDTH)%Z -> (height img0 <= MAX_HEIGHT)%Z ->
  normalized content = convert_to_rgb (set_mode_data img0 (mode img0) px).
Proof.
  intros Ho Hl Hw Hh. unfold normalized, load.
  rewrite Ho. simpl. rewrite Hl. simpl.
  destruct (convert_to_rgb (set_mode_data img0 (mode img0) px)) as [rgb|e] eqn:E;
    [|reflexivity].
  simpl. apply convert_to_rgb_shape in E as (_ & Ew & Eh). simpl in Ew, Eh.
  rewrite Ew, Eh.
  destruct (Z.gtb_spec (width img0) MAX_WIDTH); [lia|].
  destruct (Z.gtb_spec (height img0) MAX_HEIGHT); [lia|]. reflexivity.
Qed.

(** Whatever leaves [normalized] is within the cap. *)
Lemma normalized_bounded (content : bytes) (out : image) :
  normalized content = Return out ->
  (width out <= MAX_WIDTH)%Z /\ (height out <= MAX_HEIGHT)%Z.
Proof.
  intros H. apply normalized_stages in H as (img0 & px & rgb & _ & _ & _ & Ht).
  unfold MAX_WIDTH, MAX_HEIGHT in *.
  destruct ((width rgb >? 1920) || (height rgb >? 1920))%Z eqn:E.
  - apply thumbnail_result in Ht as (_ & final & Hp & Hf).
    destruct final as [[x' y']|].
    + destruct Hf as [-> ->].
      pose proof (preserve_aspect_ratio_fits rgb 1920 1920 _ _
                    ltac:(lia) ltac:(lia) Hp). lia.
    + subst out. unfold preserve_aspect_ratio in Hp.
      destruct ((1920 >=? width rgb) && (1920 >=? height rgb))%Z eqn:E'.
      * apply andb_true_iff in E' as [E1 E2]. lia.
      * destruct (height rgb =? 0)%Z; [discriminate|].
        destruct (Qle_bool _ _) in Hp; discriminate.
  - subst out. apply orb_false_iff in E as [E1 E2]. lia.
Qed.

Lemma convert_to_rgb_rgb (img : image) :
  mode img = lit "RGB" -> convert_to_rgb img = Return img.
Proof. intros H. unfold convert_to_rgb. now rewrite H. Qed.

Lemma process_image_ok (content b : bytes) :
  process_image content = Return (Some b, None) <->
  exists out, normalized content = Return out /\ save_png out = Return b.
Proof.
  unfold process_image.
  destruct (normalized content) as [out|e]; simpl.
  - destruct (save_png out) as [b'|e] eqn:E; simpl; split.
    + intros [= <-]. now exists out.
    + intros (out' & [= <-] & H). rewrite E in H. now injection H as <-.
    + discriminate.
    + intros (out' & [= <-] & H). congruence.
  - split; [discriminate|]. intros (out & H & _). discriminate.
Qed.

End WithLibrary.
End PipelineFacts.

Section ImagingClaims.
Import Imaging ImagingFacts ThumbnailFacts PipelineFacts.
Context {lib : Library}.


(** C5.  An image wider or taller than 1920 pixels leaves [process_image]
    with both sides between 1 and 1920, one side at the cap and the other
    within one pixel of the exact quotient, so that the aspect ratio is
    kept up to integer rounding; an image within the cap keeps its size.
    The quotients of [Image.thumbnail] are taken exactly here. *)
Theorem resize_within_cap (content : bytes) (img0 out : image) :
  Image_open content = Return img0 ->
  (0 < width img0)%Z -> (0 < height img0)%Z ->
  normalized content = Return out ->
  ((width img0 <= 1920)%Z /\ (height img0 <= 1920)%Z ->
   width out = width img0 /\ height out = height img0)
  /\ ((1920 < width img0)%Z \/ (1920 < height img0)%Z ->
      (1 <= width out <= 1920)%Z /\ (1 <= height out <= 1920)%Z
      /\ ((height out = 1920%Z
           /\ (Z.abs (width out * height img0 - 1920 * width img0) < height img0)%Z)
          \/ (width out = 1920%Z
              /\ (Z.abs (height out * width img0 - 1920 * height img0) < width img0)%Z))).
Proof.
  intros Ho Hw Hh Hn. pose proof (normalized_size content img0 out Ho Hn) as H.
  unfold MAX_WIDTH, MAX_HEIGHT in H.
  destruct ((width img0 >? 1920) || (height img0 >? 1920))%Z eqn:E.
  - destruct H as (rgb & [x' y'] & Ew & Eh & Hp & Hx & Hy). cbn [fst snd] in Hx, Hy.
    split; [intros [? ?]; apply orb_true_iff in E as [E|E]; lia|].
    intros _. subst x' y'.
    pose proof (preserve_aspect_ratio_fits rgb 1920 1920 _ _ ltac:(lia) ltac:(lia) Hp)
      as [Fx Fy].
    pose proof (preserve_aspect_ratio_aspect rgb 1920 1920 _ _
                  ltac:(lia) ltac:(lia) ltac:(lia) ltac:(lia) Hp) as Ha.
    rewrite Ew, Eh in Ha. repeat split; lia.
  - split; [intros _; exact H|].
    apply orb_false_iff in E as [E1 E2]. intros [?|?]; lia.
Qed.

(** C6.  [process_image] and [pdf_to_image] always return, never raise:
    the pair holds the bytes and no error, or no bytes and an error
    string.  Whatever a stage raises comes back as [str(e)], and an empty
    list of rendered pages comes back as the error that names the page. *)
Theorem no_exception_escapes :
  (forall content, exists r, process_image content = Return r /\ bytes_or_error r)
  /\ (forall pdf page, exists r, pdf_to_image pdf page = Return r /\ bytes_or_error r)
  /\ (forall content e,
         normalized content = Raise e ->
         process_image content = Return (None, Some (err_str e)))
  /\ (forall content img e,
         normalized content = Return img -> save_png img = Raise e ->
         process_image content = Return (None, Some (err_str e)))
  /\ (forall pdf page e,
         convert_from_bytes pdf RENDER_DPI page page = Raise e ->
         pdf_to_image pdf page = Return (None, Some (err_str e)))
  /\ (forall pdf page,
         convert_from_bytes pdf RENDER_DPI page page = Return [] ->
         pdf_to_image pdf page
         = Return (None, Some (lit "Could not convert PDF page " ++ PyStr.of_int page))).
Proof.
  repeat split.
  - intros content. unfold process_image.
    destruct (normalized content) as [img|e]; simpl.
    + destruct (save_png img) as [b|e]; simpl; eexists; split; try reflexivity.
      * left. now eexists.
      * right. now eexists.
    + eexists; split; [reflexivity|]. right. now eexists.
  - intros pdf page. unfold pdf_to_image.
    destruct (convert_from_bytes pdf RENDER_DPI page page) as [[|img rest]|e]; simpl.
    + eexists; split; [reflexivity|]. right. now eexists.
    + destruct (convert_to_rgb img) as [rgb|e]; simpl.
      * destruct (save_png rgb) as [b|e]; simpl; eexists; split; try reflexivity.
        -- left. now eexists.
        -- right. now eexists.
      * eexists; split; [reflexivity|]. right. now eexists.
    + eexists; split; [reflexivity|]. right. now eexists.
  - intros content e H. unfold process_image. now rewrite H.
  - intros content img e H1 H2. unfold process_image. rewrite H1. simpl.
    now rewrite H2.
  - intros pdf page e H. unfold pdf_to_image. now rewrite H.
  - intros pdf page H. unfold pdf_to_image. now rewrite H.
Qed.

(** C7.  Content within the size ceiling whose header decodes as PNG, JPEG
    or WEBP is valid, with an empty reason; content over the ceiling,
    content that does not decode, and content of a format outside the
    allow-list are invalid, each with a reason that is not empty; the file
    name plays no part.  The allow-list of the code also names [JPG], an
    identifier under which Pillow reports no file. *)
Theorem validate_image_verdict (content : bytes) (filename : str) :
  (forall img f,
      (Z.of_nat (length content) <= MAX_FILE_SIZE)%Z ->
      Image_open content = Return img ->
      format img = Some f ->
      In f [lit "PNG"; lit "JPEG"; lit "WEBP"] ->
      validate_image content filename = Return (true, []))
  /\ ((MAX_FILE_SIZE < Z.of_nat (length content))%Z ->
      exists reason,
        validate_image content filename = Return (false, reason) /\ reason <> [])
  /\ (forall e,
         (Z.of_nat (length content) <= MAX_FILE_SIZE)%Z ->
         Image_open content = Raise e ->
         exists reason,
           validate_image content filename = Return (false, reason) /\ reason <> [])
  /\ (forall img,
         (Z.of_nat (length content) <= MAX_FILE_SIZE)%Z ->
         Image_open content = Return img ->
         (forall f, format img = Some f ->
                    ~ In f [lit "PNG"; lit "JPEG"; lit "WEBP"] /\ f <> lit "JPG") ->
         exists reason,
           validate_image content filename = Return (false, reason) /\ reason <> [])
  /\ (forall other, validate_image content other = validate_image content filename).
Proof.
  unfold validate_image. repeat split.
  - intros img f Hs Ho Hf Hin.
    destruct (Z.gtb_spec (Z.of_nat (length content)) MAX_FILE_SIZE); [lia|].
    rewrite Ho. simpl. rewrite Hf.
    assert (format_supported (Some f) = true) as ->; [|reflexivity].
    unfold format_supported. apply mode_in_eq.
    unfold SUPPORTED_FORMATS. simpl In in *. intuition.
  - intros Hs.
    destruct (Z.gtb_spec (Z.of_nat (length content)) MAX_FILE_SIZE); [|lia].
    eexists. split; [reflexivity|discriminate].
  - intros e Hs Ho.
    destruct (Z.gtb_spec (Z.of_nat (length content)) MAX_FILE_SIZE); [lia|].
    rewrite Ho. simpl. eexists. split; [reflexivity|discriminate].
  - intros img Hs Ho Hf.
    destruct (Z.gtb_spec (Z.of_nat (length content)) MAX_FILE_SIZE); [lia|].
    rewrite Ho. simpl.
    assert (format_supported (format img) = false) as ->.
    { destruct (format img) as [f|]; [|reflexivity]. unfold format_supported.
      destruct (mode_in f SUPPORTED_FORMATS) eqn:E; [|reflexivity].
      apply mode_in_eq in E. destruct (Hf f eq_refl) as [H1 H2].
      unfold SUPPORTED_FORMATS in E. simpl In in E, H1. intuition congruence. }
    simpl. eexists. split; [reflexivity|discriminate].
Qed.

(** C8.  Running [process_image] on its own successful output succeeds
    again and encodes an image of the same mode (RGB), the same size and
    the same pixels.  The PNG codec is taken to be lossless on RGB images
    and to encode an image whenever it encodes one of the same mode, size
    and pixels. *)
Theorem normalize_idempotent (content b1 : bytes) :
  (forall img b,
      mode img = lit "RGB" -> save_png img = Return b ->
      exists img',
        Image_open b = Return img' /\ Image_load img' = Return (data img)
        /\ mode img' = lit "RGB"
        /\ width img' = width img /\ height img' = height img) ->
  (forall img img' b,
      save_png img = Return b ->
      mode img' = mode img -> width img' = width img ->
      height img' = height img -> data img' = data img ->
      exists b', save_png img' = Return b') ->
  process_image content = Return (Some b1, None) ->
  exists out1 out2 b2,
    normalized content = Return out1 /\ save_png out1 = Return b1
    /\ process_image b1 = Return (Some b2, None)
    /\ normalized b1 = Return out2 /\ save_png out2 = Return b2
    /\ mode out1 = lit "RGB" /\ mode out2 = lit "RGB"
    /\ width out2 = width out1 /\ height out2 = height out1
    /\ data out2 = data out1.
Proof.
  intros Hrt Hre H. apply process_image_ok in H as (out1 & Hn & Hs).
  pose proof (normalized_rgb content out1 Hn) as Hm.
  pose proof (normalized_bounded content out1 Hn) as [Bw Bh].
  destruct (Hrt out1 b1 Hm Hs) as (img' & Ho & Hl & Hm' & Hw & Hh).
  set (out2 := set_mode_data img' (mode img') (data out1)).
  assert (normalized b1 = Return out2) as Hn2.
  { rewrite (normalized_within_cap b1 img' (data out1) Ho Hl) by lia.
    apply convert_to_rgb_rgb. exact Hm'. }
  destruct (Hre out1 out2 b1 Hs) as [b2 Hs2];
    try (subst out2; simpl; congruence).
  exists out1, out2, b2. repeat split; try assumption.
  apply process_image_ok. now exists out2.
Qed.

End ImagingClaims.

(** ** The imaging claims on the example library *)

Module FixtureFacts.
Import Imaging.

Lemma to_byte_val (z : Z) (b : Byte.byte) :
  Fixture.to_byte z = Some b -> Fixture.byte_val b = z.
Proof.
  unfold Fixture.to_byte, Fixture.byte_val.
  destruct (Z.ltb_spec z 0) as [Hneg|Hpos]; [discriminate|]. intros E.
  apply Byte.to_of_N in E. rewrite E. lia.
Qed.

(** What the example encoder accepts, and what it writes. *)
Lemma save_png_inv (img : image) (b : bytes) :
  Fixture.save_png img = Return b ->
  mode img = lit "RGB" /\ width img = 1%Z /\ height img = 1%Z
  /\ exists r g bl,
      b = [r; g; bl]
      /\ data img = [[Fixture.byte_val r; Fixture.byte_val g; Fixture.byte_val bl]].
Proof.
  unfold Fixture.save_png.
  destruct (str_eqb (mode img) (lit "RGB")) eqn:Em; [|discriminate].
  destruct (width img =? 1)%Z eqn:Ew; [|discriminate].
  destruct (height img =? 1)%Z eqn:Eh; [|discriminate]. cbn [andb].
  apply str_eqb_eq in Em. apply Z.eqb_eq in Ew, Eh.
  destruct (data img) as [|[|r [|g [|bl [|]]]] [|]]; try discriminate.
  destruct (Fixture.to_byte r) as [r'|] eqn:Er; [|discriminate].
  destruct (Fixture.to_byte g) as [g'|] eqn:Eg; [|discriminate].
  destruct (Fixture.to_byte bl) as [b'|] eqn:Eb; [|discriminate].
  intros [= <-]. repeat split; try assumption.
  exists r', g', b'. split; [reflexivity|].
  now rewrite (to_byte_val _ _ Er), (to_byte_val _ _ Eg), (to_byte_val _ _ Eb).
Qed.

Lemma roundtrip (img : image) (b : bytes) :
  mode img = lit "RGB" -> @save_png Fixture.library img = Return b ->
  exists img',
    @Image_open Fixture.library b = Return img'
    /\ @Image_load Fixture.library img' = Return (data img)
    /\ mode img' = lit "RGB"
    /\ width img' = width img /\ height img' = height img.
Proof.
  intros _ H. apply save_png_inv in H as (Hm & Hw & Hh & r & g & bl & -> & Hd).
  eexists. split; [reflexivity|]. simpl. rewrite Hd, Hw, Hh. now repeat split.
Qed.

Lemma reencode (img img' : image) (b : bytes) :
  @save_png Fixture.library img = Return b ->
  mode img' = mode img -> width img' = width img ->
  height img' = height img -> data img' = data img ->
  exists b', @save_png Fixture.library img' = Return b'.
Proof.
  intros H Hm Hw Hh Hd. exists b. revert H. simpl.
  unfold Fixture.save_png. now rewrite Hm, Hw, Hh, Hd.
Qed.

End FixtureFacts.

Import Imaging.


Lemma resize_within_cap_witness :
  exists out,
    @normalized Fixture.library [Byte.x00] = Return out
    /\ (1 <= width out <= 1920)%Z /\ (1 <= height out <= 1920)%Z
    /\ width out = 1920%Z /\ height out = 1440%Z.
Proof.
  eexists. split; [vm_compute; reflexivity|].
  destruct (@resize_within_cap Fixture.library [Byte.x00]
              (mkImage (Some (lit "JPEG")) (lit "RGB") 4000 3000 [] [])
              (mkImage (Some (lit "JPEG")) (lit "RGB") 1920 1440 [] []))
    as [_ H].
  - reflexivity.
  - reflexivity.
  - reflexivity.
  - vm_compute. reflexivity.
  - destruct H as (H1 & H2 & _); [left; reflexivity|].
    repeat split; solve [apply H1 | apply H2].
Defined.

Lemma no_exception_escapes_witness :
  @pdf_to_image Fixture.library [Byte.x25; Byte.x50] 3
  = Return (None, Some (lit "Could not convert PDF page 3")).
Proof.
  apply (proj2 (proj2 (proj2 (proj2 (proj2 (@no_exception_escapes Fixture.library)))))).
  reflexivity.
Defined.

Lemma validate_image_verdict_witness :
  @validate_image Fixture.library [Byte.x10; Byte.x20; Byte.x30] (lit "diagram.gif")
  = Return (true, []).
Proof.
  eapply (proj1 (@validate_image_verdict Fixture.library _ _)).
  - vm_compute. discriminate.
  - reflexivity.
  - reflexivity.
  - simpl. tauto.
Defined.

Lemma normalize_idempotent_witness :
  exists out1 out2 b2,
    @normalized Fixture.library [Byte.x10; Byte.x20; Byte.x30; Byte.x80] = Return out1
    /\ @normalized Fixture.library [Byte.x87; Byte.x8f; Byte.x97] = Return out2
    /\ @process_image Fixture.library [Byte.x87; Byte.x8f; Byte.x97]
       = Return (Some b2, None)
    /\ mode out2 = mode out1 /\ size out2 = size out1 /\ data out2 = data out1.
Proof.
  destruct (@normalize_idempotent Fixture.library
              [Byte.x10; Byte.x20; Byte.x30; Byte.x80]
              [Byte.x87; Byte.x8f; Byte.x97]
              FixtureFacts.roundtrip FixtureFacts.reencode)
    as (out1 & out2 & b2 & H1 & H2 & H3 & H4 & H5 & H6 & H7 & H8 & H9 & H10).
  - vm_compute. reflexivity.
  - exists out1, out2, b2. repeat split; try assumption.
    + congruence.
    + unfold size. congruence.
Defined.

(** ** Diagram analysis client *)

Import Client.

(** C9.  When the call of the remote model raises, [analyze] raises that
    same exception to its caller, and the trace of calls shows the one
    request and no other: the failure is neither absorbed nor retried by
    this component (retries inside the SDK's own [invoke_model] lie below
    the endpoint of the model). *)
Theorem transport_failure_propagates
        (ep : endpoint) (model_id image_base64 image_format : str)
        (calls : list call) (e : exn) :
  ep calls (mkCall model_id (request_body image_base64 image_format)) = Raise e ->
  analyze_architecture_diagram ep model_id image_base64 image_format calls
  = (Raise e, calls ++ [mkCall model_id (request_body image_base64 image_format)]).
Proof.
  intros H. unfold analyze_architecture_diagram, analyze_body. now rewrite H.
Qed.

Lemma transport_failure_propagates_witness :
  let down : endpoint :=
    fun _ _ => Raise (LibraryError (lit "EndpointConnectionError")
                        (lit "Could not connect to the endpoint URL")) in
  let model := lit "anthropic.claude-3-5-sonnet-20241022-v2:0" in
  analyze_architecture_diagram down model (lit "iVBORw0KGgo=") (lit "png") []
  = (Raise (LibraryError (lit "EndpointConnectionError")
              (lit "Could not connect to the endpoint URL")),
     [mkCall model (request_body (lit "iVBORw0KGgo=") (lit "png"))]).
Proof.
  exact (transport_failure_propagates
           (fun _ _ => Raise (LibraryError (lit "EndpointConnectionError")
                                (lit "Could not connect to the endpoint URL")))
           (lit "anthropic.claude-3-5-sonnet-20241022-v2:0")
           (lit "iVBORw0KGgo=") (lit "png") [] _ eq_refl).
Defined.

(** ** Base64 text *)

Module Base64Facts.
Import Base64 Base64Aux.

Lemma by_threes {A} (P : list A -> Prop) :
  P [] -> (forall a, P [a]) -> (forall a b, P [a; b]) ->
  (forall a b c r, P r -> P (a :: b :: c :: r)) ->
  forall l, P l.
Proof.
  intros H0 H1 H2 H3 l.
  enough (P l /\ (forall a, P (a :: l)) /\ (forall a b, P (a :: b :: l))) by tauto.
  induction l as [|x l (I0 & I1 & I2)]; auto.
Qed.

Lemma lor_shift8 (a d : N) : (d < 256)%N -> N.lor (N.shiftl a 8) d = (a * 256 + d)%N.
Proof.
  intros H. rewrite N.shiftl_mul_pow2. change (2 ^ 8)%N with 256%N.
  rewrite <- N.lxor_lor, <- N.add_nocarry_lxor; try reflexivity.
  all: apply N.bits_inj; intros i; rewrite N.land_spec, N.bits_0;
    change 256%N with (2 ^ 8)%N; rewrite <- N.shiftl_mul_pow2;
    destruct (N.lt_ge_cases i 8) as [L|G].
  all: try (rewrite N.shiftl_spec_low by exact L; reflexivity).
  all: rewrite <- (N.mod_small d (2 ^ 8)) by exact H;
    rewrite N.mod_pow2_bits_high by exact G; apply andb_false_r.
Qed.

Ltac divlia := zify; Z.to_euclidean_division_equations; lia.

Ltac arith :=
  unfold uint;
  change 4294967295%N with (N.ones 32); change 63%N with (N.ones 6);
  change 15%N with (N.ones 4); change 3%N with (N.ones 2);
  rewrite ?N.land_ones, ?N.shiftr_div_pow2, ?N.shiftl_mul_pow2;
  change (2 ^ 32)%N with 4294967296%N; change (2 ^ 6)%N with 64%N;
  change (2 ^ 4)%N with 16%N; change (2 ^ 2)%N with 4%N;
  change (2 ^ 0)%N with 1%N.

Lemma step0 (d : N) (rest : list N) (lc : N) :
  b2a_loop (d :: rest) lc 0
  = b2a (N.land (N.shiftr (next lc d) 2) 63) :: b2a_loop rest (next lc d) 2.
Proof. reflexivity. Qed.

Lemma step2 (d : N) (rest : list N) (lc : N) :
  b2a_loop (d :: rest) lc 2
  = b2a (N.land (N.shiftr (next lc d) 4) 63) :: b2a_loop rest (next lc d) 4.
Proof. reflexivity. Qed.

Lemma step4 (d : N) (rest : list N) (lc : N) :
  b2a_loop (d :: rest) lc 4
  = b2a (N.land (N.shiftr (next lc d) 6) 63)
      :: b2a (N.land (N.shiftr (next lc d) 0) 63) :: b2a_loop rest (next lc d) 0.
Proof. reflexivity. Qed.

Lemma char1 (lc d0 : N) :
  (d0 < 256)%N -> N.land (N.shiftr (next lc d0) 2) 63 = (d0 / 4)%N.
Proof. intros H. unfold next. rewrite lor_shift8 by exact H. arith. divlia. Qed.

Lemma char2 (lc d0 d1 : N) :
  (d0 < 256)%N -> (d1 < 256)%N ->
  N.land (N.shiftr (next (next lc d0) d1) 4) 63 = (d0 mod 4 * 16 + d1 / 16)%N.
Proof.
  intros H0 H1. unfold next. rewrite !lor_shift8 by assumption. arith. divlia.
Qed.

Lemma char3 (lc d1 d2 : N) :
  (d1 < 256)%N -> (d2 < 256)%N ->
  N.land (N.shiftr (next (next lc d1) d2) 6) 63 = (d1 mod 16 * 4 + d2 / 64)%N.
Proof.
  intros H0 H1. unfold next. rewrite !lor_shift8 by assumption. arith. divlia.
Qed.

Lemma char4 (lc d2 : N) :
  (d2 < 256)%N -> N.land (N.shiftr (next lc d2) 0) 63 = (d2 mod 64)%N.
Proof. intros H. unfold next. rewrite lor_shift8 by exact H. arith. divlia. Qed.

Lemma last1 (lc d0 : N) :
  (d0 < 256)%N -> N.shiftl (N.land (next lc d0) 3) 4 = (d0 mod 4 * 16)%N.
Proof. intros H. unfold next. rewrite lor_shift8 by exact H. arith. divlia. Qed.

Lemma last2 (lc d1 : N) :
  (d1 < 256)%N -> N.shiftl (N.land (next lc d1) 15) 2 = (d1 mod 16 * 4)%N.
Proof. intros H. unfold next. rewrite lor_shift8 by exact H. arith. divlia. Qed.

(** The loop of the encoder computes the groups of three. *)
Lemma loop_groups (data : list N) :
  Forall is_byte data -> forall lc, b2a_loop data lc 0 = groups data.
Proof.
  induction data as [|d0|d0 d1|d0 d1 d2 rest IH] using by_threes; intros F lc.
  - reflexivity.
  - inversion_clear F as [|? ? H0 _]. rewrite step0. cbn [b2a_loop N.eqb Pos.eqb groups].
    now rewrite char1, last1.
  - inversion_clear F as [|? ? H0 F1]. inversion_clear F1 as [|? ? H1 _].
    rewrite step0, step2. cbn [b2a_loop groups].
    change ((4 =? 2)%N) with false. change ((4 =? 4)%N) with true. cbv iota.
    now rewrite char1, char2, last2.
  - inversion_clear F as [|? ? H0 F1]. inversion_clear F1 as [|? ? H1 F2].
    inversion_clear F2 as [|? ? H2 F3].
    rewrite step0, step2, step4. cbn [groups].
    now rewrite char1, char2, char3, char4, IH.
Qed.

Lemma bytes_are_bytes (s : Imaging.bytes) : Forall is_byte (map Byte.to_N s).
Proof.
  apply Forall_forall. intros x H. apply in_map_iff in H as (b & <- & _).
  pose proof (Byte.to_N_bounded b). unfold is_byte. lia.
Qed.


Lemma table_index (x : N) :
  (x < 64)%N ->
  In (b2a x) table_b2a_base64 /\ a2b (b2a x) = x /\ b2a x <> BASE64_PAD
  /\ (b2a x < 128)%N.
Proof.
  intros H.
  assert (forallb (fun x => existsb (N.eqb (b2a x)) table_b2a_base64
                            && (a2b (b2a x) =? x)%N && negb (b2a x =? BASE64_PAD)%N
                            && (b2a x <? 128)%N)
            (map N.of_nat (seq 0 64)) = true) as A by (vm_compute; reflexivity).
  rewrite forallb_forall in A. specialize (A x).
  rewrite !andb_true_iff in A. destruct A as [[[A1 A2] A3] A4].
  { apply in_map_iff. exists (N.to_nat x). split; [lia|]. apply in_seq. lia. }
  repeat split.
  - apply existsb_exists in A1 as (y & Hy & E). apply N.eqb_eq in E. now rewrite E.
  - now apply N.eqb_eq.
  - apply negb_true_iff in A3. now apply N.eqb_neq.
  - now apply N.ltb_lt.
Qed.

Lemma sextets (d0 d1 : N) :
  is_byte d0 -> is_byte d1 ->
  sextet (d0 / 4) /\ sextet (d0 mod 4 * 16 + d1 / 16)
  /\ sextet (d0 mod 16 * 4 + d1 / 64) /\ sextet (d0 mod 64)
  /\ sextet (d0 mod 4 * 16) /\ sextet (d0 mod 16 * 4).
Proof. unfold is_byte, sextet. intros H0 H1. repeat split; divlia. Qed.

Ltac all_of :=
  repeat (apply Forall_cons; [first [assumption | unfold BASE64_PAD; lia]|]);
  first [assumption | apply Forall_nil].

Lemma groups_length (data : list N) :
  length (groups data) = 4 * ((length data + 2) / 3).
Proof.
  induction data as [|d0|d0 d1|d0 d1 d2 rest IH] using by_threes; try reflexivity.
  cbn [groups length]. rewrite IH.
  replace (S (S (S (length rest))) + 2) with (length rest + 2 + 1 * 3) by lia.
  rewrite Nat.div_add by lia. lia.
Qed.

(** Characters of the table, then the padding. *)
Lemma groups_shape (data : list N) :
  Forall is_byte data ->
  exists body,
    groups data = body ++ repeat BASE64_PAD (padding (length data))
    /\ Forall (fun c => In c table_b2a_base64) body
    /\ Forall (fun c => (c < 128)%N) (groups data).
Proof.
  induction data as [|d0|d0 d1|d0 d1 d2 rest IH] using by_threes; intros F.
  - exists []. repeat split; apply Forall_nil.
  - inversion_clear F as [|? ? H0 _].
    destruct (sextets d0 d0 H0 H0) as (S1 & _ & _ & _ & S5 & _).
    apply table_index in S1 as (I1 & _ & _ & L1), S5 as (I5 & _ & _ & L5).
    exists [b2a (d0 / 4); b2a (d0 mod 4 * 16)]. repeat split.
    + all_of.
    + cbn [groups]. all_of.
  - inversion_clear F as [|? ? H0 F1]. inversion_clear F1 as [|? ? H1 _].
    destruct (sextets d0 d1 H0 H1) as (S1 & S2 & _).
    destruct (sextets d1 d1 H1 H1) as (_ & _ & _ & _ & _ & S6).
    apply table_index in S1 as (I1 & _ & _ & L1), S2 as (I2 & _ & _ & L2),
        S6 as (I6 & _ & _ & L6).
    exists [b2a (d0 / 4); b2a (d0 mod 4 * 16 + d1 / 16); b2a (d1 mod 16 * 4)].
    repeat split.
    + all_of.
    + cbn [groups]. all_of.
  - inversion_clear F as [|? ? H0 F1]. inversion_clear F1 as [|? ? H1 F2].
    inversion_clear F2 as [|? ? H2 F3].
    destruct (IH F3) as (body & E & B & A).
    destruct (sextets d0 d1 H0 H1) as (S1 & S2 & _).
    destruct (sextets d1 d2 H1 H2) as (_ & _ & S3 & _).
    destruct (sextets d2 d2 H2 H2) as (_ & _ & _ & S4 & _).
    apply table_index in S1 as (I1 & _ & _ & L1), S2 as (I2 & _ & _ & L2),
        S3 as (I3 & _ & _ & L3), S4 as (I4 & _ & _ & L4).
    exists (b2a (d0 / 4) :: b2a (d0 mod 4 * 16 + d1 / 16)
              :: b2a (d1 mod 16 * 4 + d2 / 64) :: b2a (d2 mod 64) :: body).
    repeat split.
    + assert (padding (length (d0 :: d1 :: d2 :: rest)) = padding (length rest)) as ->.
      { unfold padding. cbn [length].
        replace (S (S (S (length rest)))) with (length rest + 1 * 3) by lia.
        now rewrite Nat.Div0.mod_add. }
      cbn [groups]. now rewrite E.
    + all_of.
    + cbn [groups]. all_of.
Qed.

(** Text of ASCII characters decodes to itself. *)
Lemma utf8_ascii (s : list N) (pos : nat) :
  Forall (fun c => (c < 128)%N) s -> utf8_decode s pos = Return s.
Proof.
  intros F. revert pos. induction F as [|c s Hc F IH]; intros pos; [reflexivity|].
  cbn [utf8_decode]. apply N.ltb_lt in Hc. rewrite Hc, IH. reflexivity.
Qed.

Lemma encode_groups (s : Imaging.bytes) :
  encode_image_base64 s = Return (groups (map Byte.to_N s)).
Proof.
  unfold encode_image_base64, b64encode.
  rewrite (loop_groups _ (bytes_are_bytes s)).
  apply utf8_ascii.
  now destruct (groups_shape _ (bytes_are_bytes s)) as (body & _ & _ & A).
Qed.

Lemma ungroups_groups (data : list N) :
  Forall is_byte data -> ungroups (groups data) = data.
Proof.
  induction data as [|d0|d0 d1|d0 d1 d2 rest IH] using by_threes; intros F.
  - reflexivity.
  - inversion_clear F as [|? ? H0 _].
    destruct (sextets d0 d0 H0 H0) as (S1 & _ & _ & _ & S5 & _).
    apply table_index in S1 as (_ & A1 & _ & _), S5 as (_ & A5 & _ & _).
    cbn [groups ungroups]. rewrite N.eqb_refl, A1, A5.
    f_equal. unfold is_byte in H0. divlia.
  - inversion_clear F as [|? ? H0 F1]. inversion_clear F1 as [|? ? H1 _].
    destruct (sextets d0 d1 H0 H1) as (S1 & S2 & _).
    destruct (sextets d1 d1 H1 H1) as (_ & _ & _ & _ & _ & S6).
    apply table_index in S1 as (_ & A1 & _ & _), S2 as (_ & A2 & _ & _),
        S6 as (_ & A6 & P6 & _).
    cbn [groups ungroups]. apply N.eqb_neq in P6. rewrite P6, N.eqb_refl, A1, A2, A6.
    unfold is_byte in H0, H1. repeat f_equal; divlia.
  - inversion_clear F as [|? ? H0 F1]. inversion_clear F1 as [|? ? H1 F2].
    inversion_clear F2 as [|? ? H2 F3].
    destruct (sextets d0 d1 H0 H1) as (S1 & S2 & _).
    destruct (sextets d1 d2 H1 H2) as (_ & _ & S3 & _).
    destruct (sextets d2 d2 H2 H2) as (_ & _ & _ & S4 & _).
    apply table_index in S1 as (_ & A1 & _ & _), S2 as (_ & A2 & _ & _),
        S3 as (_ & A3 & P3 & _), S4 as (_ & A4 & P4 & _).
    cbn [groups ungroups]. apply N.eqb_neq in P3, P4.
    rewrite P3, P4, A1, A2, A3, A4, (IH F3).
    unfold is_byte in H0, H1, H2. repeat f_equal; divlia.
Qed.

Lemma to_N_inj (a b : Imaging.bytes) : map Byte.to_N a = map Byte.to_N b -> a = b.
Proof.
  revert b. induction a as [|x a IH]; intros [|y b]; simpl; try discriminate.
  - reflexivity.
  - intros [= E1 E2]. f_equal; [|now apply IH].
    pose proof (Byte.of_to_N x) as Hx. pose proof (Byte.of_to_N y) as Hy.
    rewrite E1 in Hx. congruence.
Qed.

End Base64Facts.

Import Base64.

(** X1.  [encode_image_base64] never raises: for every byte string it returns
    a text of four characters for every three bytes begun, made of
    characters of the Base64 alphabet followed by as many [=] as bytes are
    missing from the last group of three. *)
Theorem encode_image_base64_text (image_bytes : Imaging.bytes) :
  exists body,
    encode_image_base64 image_bytes
    = Return (body ++ repeat 61%N ((3 - length image_bytes mod 3) mod 3))
    /\ length (body ++ repeat 61%N ((3 - length image_bytes mod 3) mod 3))
       = 4 * ((length image_bytes + 2) / 3)
    /\ Forall (fun c => In c table_b2a_base64) body.
Proof.
  rewrite Base64Facts.encode_groups.
  destruct (Base64Facts.groups_shape _ (Base64Facts.bytes_are_bytes image_bytes))
    as (body & E & B & _).
  pose proof (Base64Facts.groups_length (map Byte.to_N image_bytes)) as L.
  rewrite E, length_map in *. exists body. now repeat split.
Qed.

(** X2.  Byte strings that differ have different encodings: the bytes can be
    read back from the text. *)
Theorem encode_image_base64_injective (a b : Imaging.bytes) :
  encode_image_base64 a = encode_image_base64 b -> a = b.
Proof.
  rewrite !Base64Facts.encode_groups. intros [= E].
  apply Base64Facts.to_N_inj.
  rewrite <- (Base64Facts.ungroups_groups _ (Base64Facts.bytes_are_bytes a)).
  rewrite <- (Base64Facts.ungroups_groups _ (Base64Facts.bytes_are_bytes b)).
  now rewrite E.
Qed.

Lemma encode_image_base64_injective_witness :
  [Byte.x89; Byte.x50; Byte.x4e; Byte.x47] = [Byte.x89; Byte.x50; Byte.x4e; Byte.x47].
Proof.
  apply encode_image_base64_injective. vm_compute. reflexivity.
Defined.

(** ** Metadata of uploads and pages of PDF files *)

Section InfoClaims.
Import Imaging ImagingFacts PipelineFacts Info.
Context {lib : Library} {pdflib : PdfLibrary}.

(** X3.  [get_image_info] never raises: it returns the empty dictionary when
    the header cannot be decoded, and otherwise the format, mode and size
    of the header with the length of the content.  [validate_image] accepts
    a file exactly when [get_image_info] reports one of the supported
    formats and a size of at most 10 MB. *)
Theorem image_info_matches_validation (content : bytes) (filename : str) :
  (forall e, Image_open content = Raise e -> get_image_info content = Return (JDict []))
  /\ (forall img,
         Image_open content = Return img ->
         get_image_info content
         = Return (JDict [(lit "format", format_value (format img));
                          (lit "mode", JStr (mode img));
                          (lit "width", JInt (width img));
                          (lit "height", JInt (height img));
                          (lit "size_bytes", JInt (Z.of_nat (length content)))]))
  /\ (validate_image content filename = Return (true, []) <->
      exists info f n,
        get_image_info content = Return (JDict info)
        /\ Json.dict_get info (lit "format") = Some (JStr f)
        /\ In f SUPPORTED_FORMATS
        /\ Json.dict_get info (lit "size_bytes") = Some (JInt n)
        /\ (n <= MAX_FILE_SIZE)%Z).
Proof.
  unfold get_image_info, validate_image. split; [|split].
  - intros e ->. reflexivity.
  - intros img ->. reflexivity.
  - destruct (Image_open content) as [img|e]; cbn [bind try_except].
    + destruct (Z.gtb_spec (Z.of_nat (length content)) MAX_FILE_SIZE) as [G|L].
      * split; [discriminate|]. intros (info & f & n & [= <-] & _ & _ & Hn & Hle).
        injection Hn as <-. lia.
      * destruct (format_supported (format img)) eqn:Es; cbn [negb try_except]; split.
        -- intros _. unfold format_supported in Es.
           destruct (format img) as [f|]; [|discriminate].
           eexists _, f, _. split; [reflexivity|].
           split; [reflexivity|]. split; [exact (proj1 (mode_in_eq _ _) Es)|].
           split; [reflexivity|exact L].
        -- reflexivity.
        -- discriminate.
        -- intros (info & f' & n & [= <-] & Hf & Hin & _). exfalso.
           unfold format_supported in Es. destruct (format img) as [f|].
           ++ injection Hf as <-.
              apply (proj2 (mode_in_eq f SUPPORTED_FORMATS)) in Hin. congruence.
           ++ discriminate Hf.
    + destruct (Z.of_nat (length content) >? MAX_FILE_SIZE)%Z;
        (split; [discriminate|]);
        intros (info & f & n & [= <-] & Hf & _); discriminate.
Qed.

(** X4.  [validate_pdf] never raises and does not look at the file name.  It
    accepts, with an empty reason, exactly the content of at most 20 MB
    that PyPDF2 opens and in which it counts at least one page; every
    rejection carries a reason that is not empty, and content over the
    limit is rejected for its size, whatever it holds. *)
Theorem validate_pdf_verdict (content : bytes) (filename : str) :
  exists ok reason,
    validate_pdf content filename = Return (ok, reason)
    /\ (ok = true <->
        (Z.of_nat (length content) <= PDF_MAX_FILE_SIZE)%Z
        /\ exists pdf n, PdfReader content = Return pdf /\ pages_len pdf = Return (S n))
    /\ (ok = true -> reason = [])
    /\ (ok = false -> reason <> [])
    /\ ((PDF_MAX_FILE_SIZE < Z.of_nat (length content))%Z ->
        reason = lit "PDF size exceeds maximum of 20.0MB")
    /\ (forall other, validate_pdf content other = validate_pdf content filename).
Proof.
  unfold validate_pdf.
  destruct (Z.gtb_spec (Z.of_nat (length content)) PDF_MAX_FILE_SIZE) as [G|L].
  - eexists false, _. split; [reflexivity|]. repeat split; try discriminate.
    intros [H _]. lia.
  - destruct (PdfReader content) as [pdf|e]; simpl.
    + destruct (pages_len pdf) as [[|n]|e] eqn:Ep; simpl.
      * eexists false, _. split; [reflexivity|]. repeat split; try discriminate.
        -- intros (_ & pdf' & n & [= <-] & H). congruence.
        -- lia.
      * eexists true, _. split; [reflexivity|]. repeat split; try discriminate.
        -- exact L.
        -- now exists pdf, n.
        -- lia.
      * eexists false, _. split; [reflexivity|]. repeat split; try discriminate.
        -- intros (_ & pdf' & n & [= <-] & H). congruence.
        -- lia.
    + eexists false, _. split; [reflexivity|]. repeat split; try discriminate.
      * intros (_ & pdf' & n & H & _). discriminate.
      * lia.
Qed.

(** X5.  [get_pdf_info] never raises, and where it reports a page count it
    is the count on which [validate_pdf] decides: a file of at most 20 MB
    is accepted when the count reported is positive and rejected with
    "PDF has no pages" when it is zero.  The size reported is the length of
    the content. *)
Theorem pdf_info_matches_validation (content : bytes) (filename : str) :
  exists info,
    get_pdf_info content = Return (JDict info)
    /\ forall count,
        Json.dict_get info (lit "page_count") = Some (JInt count) ->
        Json.dict_get info (lit "size_bytes")
        = Some (JInt (Z.of_nat (length content)))
        /\ (0 <= count)%Z
        /\ ((Z.of_nat (length content) <= PDF_MAX_FILE_SIZE)%Z ->
            validate_pdf content filename
            = Return (if (count =? 0)%Z then (false, lit "PDF has no pages")
                      else (true, []))).
Proof.
  unfold get_pdf_info, validate_pdf, metadata_dict.
  destruct (PdfReader content) as [pdf|e]; simpl;
    [|exists []; split; [reflexivity|discriminate]].
  destruct (pages_len pdf) as [n|e]; simpl;
    [|exists []; split; [reflexivity|discriminate]].
  destruct (metadata pdf) as [[[|entry entries]|]|e]; simpl;
    try (exists []; split; [reflexivity|discriminate]).
  all: eexists; (split; [reflexivity|]); intros count [= <-];
    (split; [reflexivity|]); (split; [lia|]); intros L;
    destruct (Z.gtb_spec (Z.of_nat (length content)) PDF_MAX_FILE_SIZE); [lia|];
    destruct n; reflexivity.
Qed.

(** X6.  A page that [pdf_to_image] converts keeps the size at which it was
    rendered at 200 dpi: the bytes returned encode an RGB image of the
    width and height of the first rendered page, whatever they are; there
    is no downscaling to the 1920 pixel cap of [process_image], and pages
    rendered after the first are left aside. *)
Theorem pdf_page_keeps_size (pdf b : bytes) (page_number : Z)
        (page : image) (others : list image) :
  convert_from_bytes pdf 200 page_number page_number = Return (page :: others) ->
  pdf_to_image pdf page_number = Return (Some b, None) ->
  exists out,
    convert_to_rgb page = Return out /\ save_png out = Return b
    /\ mode out = lit "RGB"
    /\ width out = width page /\ height out = height page.
Proof.
  intros Hr. unfold pdf_to_image. change RENDER_DPI with 200%Z. rewrite Hr. simpl.
  destruct (convert_to_rgb page) as [out|e] eqn:Ec; simpl; [|discriminate].
  destruct (save_png out) as [b'|e] eqn:Es; simpl; [|discriminate].
  intros [= <-]. exists out. split; [reflexivity|]. split; [exact Es|].
  now apply convert_to_rgb_shape.
Qed.

End InfoClaims.

Import Imaging Info.

Lemma image_info_matches_validation_witness :
  @get_image_info Fixture.library [Byte.x10; Byte.x20; Byte.x30]
  = Return (JDict [(lit "format", JStr (lit "PNG")); (lit "mode", JStr (lit "RGB"));
                   (lit "width", JInt 1); (lit "height", JInt 1);
                   (lit "size_bytes", JInt 3)]).
Proof.
  apply (proj1 (proj2 (@image_info_matches_validation Fixture.library
                         [Byte.x10; Byte.x20; Byte.x30] (lit "diagram.png")))
           (mkImage (Some (lit "PNG")) (lit "RGB") 1 1 [] [[16; 32; 48]%Z])).
  reflexivity.
Defined.

Lemma validate_pdf_verdict_witness :
  @validate_pdf PdfFixture.pdf_library [Byte.x25; Byte.x50] (lit "plan.pdf")
  = Return (true, []).
Proof.
  destruct (@validate_pdf_verdict PdfFixture.pdf_library
              [Byte.x25; Byte.x50] (lit "plan.pdf"))
    as (ok & reason & H & Hok & Hempty & _).
  assert (ok = true) as E.
  { apply Hok. split; [vm_compute; discriminate|].
    exists (mkReader (Return 1) (Return None)), 0. split; reflexivity. }
  rewrite H, E, (Hempty E). reflexivity.
Defined.

Lemma pdf_info_matches_validation_witness :
  exists info,
    @get_pdf_info PdfFixture.pdf_library [Byte.x25; Byte.x50; Byte.x50]
    = Return (JDict info)
    /\ Json.dict_get info (lit "page_count") = Some (JInt 2)
    /\ @validate_pdf PdfFixture.pdf_library [Byte.x25; Byte.x50; Byte.x50]
         (lit "plan.pdf") = Return (true, []).
Proof.
  destruct (@pdf_info_matches_validation PdfFixture.pdf_library
              [Byte.x25; Byte.x50; Byte.x50] (lit "plan.pdf"))
    as (info & H & Hc).
  exists info. split; [exact H|].
  assert (Json.dict_get info (lit "page_count") = Some (JInt 2)) as E.
  { revert H. vm_compute. now intros [= <-]. }
  split; [exact E|].
  destruct (Hc 2%Z E) as (_ & _ & Hv). apply Hv. vm_compute. discriminate.
Defined.

Lemma pdf_page_keeps_size_witness :
  exists out,
    @pdf_to_image PdfFixture.library [Byte.x25; Byte.x50] 1
    = Return (Some [Byte.x89; Byte.x50; Byte.x4e; Byte.x47], None)
    /\ mode out = lit "RGB" /\ width out = 1700%Z /\ height out = 2200%Z
    /\ @save_png PdfFixture.library out
       = Return [Byte.x89; Byte.x50; Byte.x4e; Byte.x47].
Proof.
  destruct (@pdf_page_keeps_size PdfFixture.library
              [Byte.x25; Byte.x50] [Byte.x89; Byte.x50; Byte.x4e; Byte.x47] 1
              (mkImage (Some (lit "PPM")) (lit "RGB") 1700 2200 [] []) [])
    as (out & H1 & H2 & H3 & H4 & H5).
  - reflexivity.
  - reflexivity.
  - exists out. repeat split; assumption.
Defined.

Module CompositeFacts.
Import Imaging ImagingFacts.

Lemma DIV255_mono (a b : Z) : (a <= b)%Z -> (DIV255 a <= DIV255 b)%Z.
Proof.
  intros H. unfold DIV255. rewrite !Z.shiftr_div_pow2 by lia.
  change (2 ^ 8)%Z with 256%Z.
  apply Z.div_le_mono; [lia|].
  pose proof (Z.div_le_mono (a + 128) (b + 128) 256 ltac:(lia) ltac:(lia)). lia.
Qed.

(** Under a mask of 255 the source replaces the canvas. *)
Lemma BLEND_opaque (out inp : Z) :
  (0 <= inp <= 255)%Z -> BLEND 255 out inp = inp.
Proof.
  intros H. unfold BLEND.
  replace (out * (255 - 255) + inp * 255)%Z with (inp * 255)%Z by lia.
  now apply DIV255_exact.
Qed.

(** Blending onto white gives a value between the source and white. *)
Lemma BLEND_white (mask inp : Z) :
  (0 <= mask <= 255)%Z -> (0 <= inp <= 255)%Z ->
  (inp <= BLEND mask 255 inp <= 255)%Z.
Proof.
  intros Hm Hi. unfold BLEND. split.
  - rewrite <- (DIV255_exact inp Hi) at 1. apply DIV255_mono. nia.
  - rewrite <- (DIV255_exact 255 ltac:(lia)) at 3. apply DIV255_mono. nia.
Qed.

(** Pasting under a mask blends pixel by pixel. *)
Lemma paste_data_nth (bg src : list pixel) (mask : list Z) (i : nat)
      (b s : pixel) (m : Z) :
  nth_error bg i = Some b ->
  nth_error src i = Some s ->
  nth_error mask i = Some m ->
  nth_error (paste_data bg src (Some mask)) i = Some (blend_pixel m b s).
Proof.
  revert src mask i.
  induction bg as [|b0 bg IH]; intros src mask i Hb Hs Hm.
  - destruct i; discriminate.
  - destruct src as [|s0 src]; [destruct i; discriminate|].
    destruct mask as [|m0 mask]; [destruct i; discriminate|].
    destruct i as [|i]; simpl in *.
    + now injection Hb as ->; injection Hs as ->; injection Hm as ->.
    + now apply IH.
Qed.

End CompositeFacts.

Section CompositeClaims.
Import Imaging ImagingFacts CompositeFacts.
Context {lib : Library}.

(** X7.  Compositing an RGBA image onto white only lightens it: each colour
    band of a composited pixel lies between the band of the source pixel
    and 255, and a fully opaque pixel keeps its colour exactly. *)
Theorem composite_between_source_and_white
        (img : image) (i : nat) (r g b a : Z) :
  mode img = lit "RGBA" ->
  length (data img) = Z.to_nat (width img * height img) ->
  nth_error (data img) i = Some [r; g; b; a] ->
  (0 <= r <= 255)%Z -> (0 <= g <= 255)%Z -> (0 <= b <= 255)%Z ->
  (0 <= a <= 255)%Z ->
  exists out r' g' b',
    convert_to_rgb img = Return out
    /\ nth_error (data out) i = Some [r'; g'; b']
    /\ (r <= r' <= 255)%Z /\ (g <= g' <= 255)%Z /\ (b <= b' <= 255)%Z
    /\ (a = 255%Z -> r' = r /\ g' = g /\ b' = b).
Proof.
  intros Hmode Hlen Hpx Hr Hg Hb Ha.
  destruct (convert_to_rgb_composite img) as (src & Hsrc & ->).
  { rewrite Hmode. reflexivity. }
  rewrite Hmode in Hsrc. change (str_eqb (lit "RGBA") (lit "P")) with false in Hsrc.
  cbv iota in Hsrc. subst src.
  assert (i < length (data img)) as Hi by (apply nth_error_Some; congruence).
  eexists _, (BLEND a 255 r), (BLEND a 255 g), (BLEND a 255 b).
  split; [reflexivity|]. split.
  - unfold paste. cbn [data Image_new set_mode_data size fst snd].
    rewrite (paste_data_nth _ _ _ i white [r; g; b] a).
    + reflexivity.
    + rewrite nth_error_repeat; [reflexivity|lia].
    + rewrite nth_error_map, Hpx, Hmode. reflexivity.
    + rewrite nth_error_map, Hpx. reflexivity.
  - split; [now apply BLEND_white|]. split; [now apply BLEND_white|].
    split; [now apply BLEND_white|].
    intros ->. now rewrite !BLEND_opaque.
Qed.

End CompositeClaims.

Lemma composite_between_source_and_white_witness :
  let img := mkImage (Some (lit "PNG")) (lit "RGBA") 1 1 [] [[16; 32; 48; 128]%Z] in
  exists out,
    @convert_to_rgb Fixture.library img = Return out
    /\ nth_error (data out) 0 = Some [135; 143; 151]%Z.
Proof.
  cbv zeta.
  destruct (@composite_between_source_and_white Fixture.library
              (mkImage (Some (lit "PNG")) (lit "RGBA") 1 1 [] [[16; 32; 48; 128]%Z])
              0 16 32 48 128)
    as (out & r' & g' & b' & H1 & H2 & _); try reflexivity; try lia.
  exists out. split; [exact H1|].
  revert H1. vm_compute. intros [= <-]. reflexivity.
Defined.

(** ** Prose around the JSON, and JSON that is no object *)

Module ProseFacts.
Import Json Extractor PyStr PyStrFacts FenceFacts.

(** The tagged fence marker does not overlap itself: it cannot begin inside
    a text and end inside a copy of itself that follows the text. *)
Lemma tag_not_across (c : char) (q rest : str) :
  starts_with (lit "```json") (c :: q) = false ->
  starts_with (lit "```json") ((c :: q) ++ lit "```json" ++ rest) = false.
Proof.
  intros H.
  destruct q as [|c1 [|c2 [|c3 [|c4 [|c5 [|c6 q]]]]]]; simpl in *;
    repeat match goal with
           | |- context [(?x =? ?y)%N] => destruct (x =? y)%N; simpl in *
           end; congruence.
Qed.

(** The first tagged fence of a text is the one after a prefix that has
    none. *)
Lemma find_from_tag (before rest : str) (i : nat) :
  find_from (lit "```json") before i = None ->
  find_from (lit "```json") (before ++ lit "```json" ++ rest) i
  = Some (i + length before).
Proof.
  revert i. induction before as [|c q IH]; intros i H.
  - simpl. f_equal. lia.
  - cbn [find_from] in H.
    destruct (starts_with (lit "```json") (c :: q)) eqn:E; [discriminate|].
    pose proof (tag_not_across c q rest E) as F.
    change ((c :: q) ++ lit "```json" ++ rest)
      with (c :: (q ++ lit "```json" ++ rest)) in *.
    cbn [find_from]. rewrite F, (IH (S i) H). simpl. f_equal. lia.
Qed.

Lemma strip_snoc (p : str) (w : char) :
  isspace w = true -> strip (p ++ [w]) = strip p.
Proof.
  intros Hw. unfold strip.
  destruct (lstrip_snoc p w Hw) as [[E1 E2] | E]; rewrite ?E1, ?E2, ?E; [reflexivity|].
  now apply rstrip_snoc.
Qed.

(** The selection from a text with prose around a tagged fence. *)
Lemma select_in_prose (before payload after : str) :
  contains (lit "```json") before = false ->
  contains (lit "```") payload = false ->
  select_json_str
    (before ++ lit "```json" ++ payload ++ 10%N :: lit "```" ++ after)
  = strip payload.
Proof.
  intros Hb Hp. apply contains_false in Hb, Hp.
  set (text := before ++ lit "```json" ++ payload ++ 10%N :: lit "```" ++ after).
  pose proof (find_from_tag before (payload ++ 10%N :: lit "```" ++ after) 0 Hb) as Ft.
  fold text in Ft. simpl in Ft.
  assert (find (lit "```json") text 0 = Z.of_nat (length before)) as E0
      by (rewrite find_zero; now rewrite Ft).
  unfold select_json_str.
  assert (contains (lit "```json") text = true) as ->.
  { apply contains_true. now exists (length before). }
  rewrite E0.
  replace (Z.of_nat (length before) + 7)%Z
    with (Z.of_nat (length (before ++ lit "```json")))
    by (rewrite length_app; simpl; lia).
  assert (text = (before ++ lit "```json") ++ (payload ++ [10%N]) ++ lit "```" ++ after)
    as Et.
  { subst text. rewrite <- !app_assoc. reflexivity. }
  assert (find (lit "```") text (Z.of_nat (length (before ++ lit "```json")))
          = Z.of_nat (length (before ++ lit "```json") + length (payload ++ [10%N])))
    as Ec.
  { rewrite find_at by (rewrite Et, !length_app; lia).
    rewrite Et at 1. rewrite skipn_app, skipn_all, Nat.sub_diag. simpl skipn.
    rewrite app_nil_l, <- app_assoc.
    change ([10%N] ++ lit "```" ++ after) with (10%N :: lit "```" ++ after).
    rewrite (find_from_past (lit "```") payload (lit "```" ++ after) 0 _
               (fun x H => H) Hp).
    cbn [find_from]. change (starts_with (lit "```") (10%N :: _)) with false.
    cbv iota. simpl. f_equal. rewrite !length_app. simpl. lia. }
  rewrite Ec, Et, slice_middle. apply strip_snoc. reflexivity.
Qed.

(** The required fields of a value that is not a dictionary: the check
    raises, or it passes and the log line raises. *)
Lemma check_required_not_dict (fields : list str) (v : json) :
  (forall d, v <> JDict d) ->
  check_required fields v = Return tt
  \/ check_required fields v = Raise TypeError
  \/ exists f, In f fields
       /\ check_required fields v
          = Raise (ValueError (lit "Missing required field: " ++ f)).
Proof.
  intros Hv. induction fields as [|f fields IH]; [now left|].
  cbn [check_required].
  destruct v as [| | | | |s|l|d]; cbn [py_contains bind];
    try (right; left; reflexivity).
  - destruct (contains f s); cbn [negb].
    + destruct IH as [IH|[IH|(f' & Hin & IH)]]; rewrite IH; auto.
      right. right. exists f'. split; [now right|reflexivity].
    + right. right. exists f. split; [now left|reflexivity].
  - destruct (existsb _ l); cbn [negb].
    + destruct IH as [IH|[IH|(f' & Hin & IH)]]; rewrite IH; auto.
      right. right. exists f'. split; [now right|reflexivity].
    + right. right. exists f. split; [now left|reflexivity].
  - now destruct (Hv d).
Qed.

Lemma log_parsed_not_dict (v : json) :
  (forall d, v <> JDict d) -> log_parsed v = Raise TypeError.
Proof.
  intros Hv. destruct v; try reflexivity. now destruct (Hv d).
Qed.

(** What [validate] lets through has a string provider and components
    with a length. *)
Lemma validate_shape (data v : json) :
  validate data = Return v -> data = v /\ well_shaped v = true.
Proof.
  intros H. pose proof (ExtractorFacts.validate_returns _ _ H) as (d & -> & -> & Hm).
  split; [reflexivity|]. unfold well_shaped. rewrite Hm. cbn [andb].
  unfold validate in H.
  destruct (check_required required_fields (JDict d)) as [[]|]; [|discriminate].
  cbn [bind] in H. unfold log_parsed, py_getitem in H.
  destruct (dict_get d (lit "provider")) as [p|]; [|discriminate].
  cbn [bind] in H. destruct p; try discriminate. cbn [bind py_upper] in H.
  destruct (dict_get d (lit "detected_components")) as [c|]; [|discriminate].
  cbn [bind] in H. destruct c; try discriminate; reflexivity.
Qed.

End ProseFacts.

Import Json Extractor.

(** X8.  Prose around a fenced block is ignored.  When the text before the
    first fence tagged [json] holds no such tag and the block holds valid
    JSON without a fence marker, closed by a fence on the next line, the
    result is what validation makes of the parsed block, whatever else
    comes before the block (untagged fences included) or after its closing
    fence (further blocks included): the parsed object itself when it holds
    the four required keys with a string provider and sized components. *)
Theorem prose_around_fence_ignored (before payload after : str) (v : json) :
  PyStr.contains (lit "```json") before = false ->
  PyStr.contains (lit "```") payload = false ->
  loads payload = Return v ->
  _parse_analysis_response
    (before ++ lit "```json" ++ payload ++ 10%N :: lit "```" ++ after)
  = validate v
  /\ (well_shaped v = true -> validate v = Return v).
Proof.
  intros Hb Hp Hv. apply StripJson.loads_strip in Hv. split.
  - apply ExtractorFacts.parse_parsed.
    now rewrite (ProseFacts.select_in_prose before payload after Hb Hp).
  - apply ExtractorMore.validate_well_shaped.
Qed.

Lemma prose_around_fence_ignored_witness :
  let before := lit "```" ++ 10%N :: lit "draft" ++ 10%N :: lit "```" ++ 10%N
                :: lit "Here is the analysis:" ++ [10%N] in
  let payload :=
    10%N :: jq "{'provider':'gcp','detected_components':[],'complexity':'low','estimated_monthly_cost':12}" in
  let after := 10%N :: lit "A second block: ```json {} ```" in
  exists d,
    _parse_analysis_response
      (before ++ lit "```json" ++ payload ++ 10%N :: lit "```" ++ after)
    = Return (JDict d)
    /\ Json.dict_get d (lit "provider") = Some (JStr (lit "gcp")).
Proof.
  cbv zeta.
  match goal with
  | |- context [_parse_analysis_response (?b ++ _ ++ ?p ++ _ :: _ ++ ?a)] =>
      destruct (loads p) as [v|e] eqn:E;
      [ destruct (prose_around_fence_ignored b p a v
                    ltac:(vm_compute; reflexivity) ltac:(vm_compute; reflexivity) E)
          as (H1 & H2)
      | vm_compute in E; discriminate E ]
  end.
  vm_compute in E. injection E as <-.
  eexists. split.
  - etransitivity; [exact H1|]. apply H2. vm_compute. reflexivity.
  - reflexivity.
Defined.

(** X9.  Valid JSON that is not an object never comes back as a result: for
    a selected text that parses to a list, a string, a number, a Boolean or
    [null], [extract] raises [TypeError], or the [ValueError] of a missing
    required field, and returns neither the value nor the failure
    default. *)
Theorem non_object_json_raises (text : str) (v : json) :
  loads (select_json_str text) = Return v ->
  (forall d, v <> JDict d) ->
  exists e,
    _parse_analysis_response text = Raise e
    /\ (e = TypeError
        \/ exists f, In f required_fields
             /\ e = ValueError (lit "Missing required field: " ++ f)).
Proof.
  intros Hl Hv. rewrite (ExtractorFacts.parse_parsed _ _ Hl). unfold validate.
  destruct (ProseFacts.check_required_not_dict required_fields v Hv)
    as [E|[E|(f & Hin & E)]]; rewrite E; cbn [bind].
  - rewrite (ProseFacts.log_parsed_not_dict v Hv). exists TypeError. now split; [|left].
  - exists TypeError. now split; [|left].
  - eexists. split; [reflexivity|]. right. now exists f.
Qed.

Lemma non_object_json_raises_witness :
  exists e,
    _parse_analysis_response
      (jq "['provider', 'detected_components', 'complexity', 'estimated_monthly_cost']")
    = Raise e
    /\ e = TypeError.
Proof.
  destruct (non_object_json_raises
              (jq "['provider', 'detected_components', 'complexity', 'estimated_monthly_cost']")
              (JList [JStr (lit "provider"); JStr (lit "detected_components");
                      JStr (lit "complexity"); JStr (lit "estimated_monthly_cost")]))
    as (e & H & _).
  - vm_compute. reflexivity.
  - discriminate.
  - exists e. split; [exact H|].
    revert H. vm_compute. now intros [= <-].
Defined.

(** X10.  Whatever [extract] returns, the parsed object or the failure
    default, would pass its own validation again: it is a dictionary with
    the four required keys whose provider is a string and whose
    [detected_components] has a length, so that the caller can upper-case
    the one and iterate the other. *)
Theorem result_passes_validation (text : str) (v : json) :
  _parse_analysis_response text = Return v ->
  well_shaped v = true /\ validate v = Return v.
Proof.
  rewrite ExtractorMore.parse_by_cases. intros H.
  assert (well_shaped v = true) as W.
  { destruct (loads (select_json_str text)) as [data|e].
    - now apply ProseFacts.validate_shape in H.
    - now injection H as <-. }
  split; [exact W|]. now apply ExtractorMore.validate_well_shaped.
Qed.

Lemma result_passes_validation_witness :
  validate (failure_default (lit "no diagram found"))
  = Return (failure_default (lit "no diagram found")).
Proof.
  apply (result_passes_validation (lit "no diagram found")).
  vm_compute. reflexivity.
Defined.

(** ** Replies of the model, and the agent that asks for them *)

Import Json Extractor Client Agent.

(** X11.  A reply whose envelope is malformed makes [analyze] raise, while a
    reply whose text is malformed degrades.  Whatever [json.loads] raises
    on the body is raised to the caller, a body without [content] raises
    [KeyError] and an empty [content] raises [IndexError]; but when the body
    holds a text, the result is that of [extract] on the text, so a text
    whose selected part [json.loads] rejects with [JSONDecodeError] comes
    back as the failure default.  One request is made in each case. *)
Theorem envelope_errors_raise_text_errors_degrade
        (ep : endpoint) (model image_base64 image_format : str)
        (calls : list call) (raw : str) :
  let c := mkCall model (request_body image_base64 image_format) in
  let run := analyze_architecture_diagram ep model image_base64 image_format calls in
  ep calls c = Return raw ->
  snd run = calls ++ [c]
  /\ (forall e, loads_body raw = Raise e -> fst run = Raise e)
  /\ (forall d,
         loads_body raw = Return (JDict d) ->
         dict_get d (lit "content") = None ->
         fst run = Raise (KeyError (JStr (lit "content"))))
  /\ (forall d,
         loads_body raw = Return (JDict d) ->
         dict_get d (lit "content") = Some (JList []) ->
         fst run = Raise IndexError)
  /\ (forall d first rest text,
         loads_body raw = Return (JDict d) ->
         dict_get d (lit "content") = Some (JList (JDict first :: rest)) ->
         dict_get first (lit "text") = Some (JStr text) ->
         fst run = _parse_analysis_response text
         /\ (loads (select_json_str text) = Raise JSONDecodeError ->
             fst run = Return (failure_default text))).
Proof.
  cbv zeta. intros Hep.
  unfold analyze_architecture_diagram, analyze_body. rewrite Hep.
  cbn [fst snd bind].
  split; [reflexivity|]. split; [|split; [|split]].
  - intros e ->. reflexivity.
  - intros d -> Hc. cbn [bind py_getitem]. now rewrite Hc.
  - intros d -> Hc. cbn [bind py_getitem]. now rewrite Hc.
  - intros d first rest text -> Hc Ht.
    assert (try_except
              (response_body <- Return (JDict d) ;;
               content <- py_getitem response_body (lit "content") ;;
               first0 <- py_first content ;;
               analysis_text <- py_getitem first0 (lit "text") ;;
               parse_reply analysis_text) (fun e => Raise e)
            = _parse_analysis_response text) as E.
    { cbn [bind py_getitem]. rewrite Hc. cbn [bind py_first py_getitem].
      rewrite Ht. cbn [bind parse_reply].
      now destruct (_parse_analysis_response text). }
    split; [exact E|]. intros Hno. rewrite E.
    now apply ExtractorFacts.parse_unparsed.
Qed.

Lemma envelope_errors_raise_text_errors_degrade_witness :
  let ep : endpoint :=
    fun _ _ => Return (jq "{'content':[{'type':'text','text':'I cannot read this diagram.'}]}") in
  analyze_architecture_diagram ep (lit "model") (lit "iVBORw0KGgo=") (lit "png") []
  = (Return (failure_default (lit "I cannot read this diagram.")),
     [mkCall (lit "model") (request_body (lit "iVBORw0KGgo=") (lit "png"))]).
Proof.
  cbv zeta.
  destruct (envelope_errors_raise_text_errors_degrade
              (fun _ _ => Return (jq "{'content':[{'type':'text','text':'I cannot read this diagram.'}]}"))
              (lit "model") (lit "iVBORw0KGgo=") (lit "png") []
              (jq "{'content':[{'type':'text','text':'I cannot read this diagram.'}]}")
              eq_refl)
    as (Hs & _ & _ & _ & Ht).
  destruct (Ht [(lit "content",
                 JList [JDict [(lit "type", JStr (lit "text"));
                               (lit "text", JStr (lit "I cannot read this diagram."))]])]
              [(lit "type", JStr (lit "text"));
               (lit "text", JStr (lit "I cannot read this diagram."))]
              [] (lit "I cannot read this diagram."))
    as [_ Hd];
    [vm_compute; reflexivity | vm_compute; reflexivity | vm_compute; reflexivity |].
  rewrite (surjective_pairing (analyze_architecture_diagram _ _ _ _ _)).
  apply f_equal2; [apply Hd; vm_compute; reflexivity|exact Hs].
Defined.

(** X12.  The agent is created once.  After a first call of
    [get_image_analysis_agent] that succeeds, every later call returns the
    same agent without creating a client or reading the environment again;
    the requests made through it name the model that the environment gave
    when it was created, or the default when it gave none.  A first call
    that fails leaves the singleton unset. *)
Theorem agent_is_created_once
        (client : boto3_client) (env : environ)
        (r : outcome exn ImageAnalysisAgent) (global : option ImageAnalysisAgent) :
  get_image_analysis_agent client env None = (r, global) ->
  match r with
  | Return agent =>
      global = Some agent
      /\ model_id agent
         = getenv env (lit "BEDROCK_MODEL_ID")
             (lit "anthropic.claude-3-5-sonnet-20241022-v2:0")
      /\ client (lit "bedrock-runtime")
           (getenv env (lit "AWS_DEFAULT_REGION") (lit "us-west-2"))
         = Return (bedrock_client agent)
      /\ (forall client' env',
             get_image_analysis_agent client' env' global = (Return agent, global))
      /\ (forall image_base64 image_format calls,
             snd (analyze agent image_base64 image_format calls)
             = calls ++ [mkCall (getenv env (lit "BEDROCK_MODEL_ID")
                                   (lit "anthropic.claude-3-5-sonnet-20241022-v2:0"))
                           (request_body image_base64 image_format)])
  | Raise e =>
      global = None
      /\ client (lit "bedrock-runtime")
           (getenv env (lit "AWS_DEFAULT_REGION") (lit "us-west-2"))
         = Raise e
  end.
Proof.
  unfold get_image_analysis_agent, __init__.
  destruct (client _ _) as [bedrock|e]; cbn [bind]; intros [= <- <-].
  - repeat split.
  - now split.
Qed.

Lemma agent_is_created_once_witness :
  let client : boto3_client := fun _ _ => Return (fun _ _ => Raise IndexError) in
  let env : environ :=
    fun k => if str_eqb k (lit "BEDROCK_MODEL_ID") then Some (lit "m1") else None in
  let env' : environ := fun _ => Some (lit "m2") in
  exists agent,
    get_image_analysis_agent client env None = (Return agent, Some agent)
    /\ get_image_analysis_agent client env' (Some agent) = (Return agent, Some agent)
    /\ model_id agent = lit "m1".
Proof.
  cbv zeta. eexists. split; [reflexivity|].
  pose proof (agent_is_created_once
                (fun _ _ => Return (fun _ _ => Raise IndexError))
                (fun k => if str_eqb k (lit "BEDROCK_MODEL_ID")
                          then Some (lit "m1") else None)
                _ _ eq_refl) as H.
  cbv beta iota in H. destruct H as (_ & Hm & _ & Hs & _).
  split; [apply Hs|exact Hm].
Defined.

(** ** The upload endpoint *)

Module ApiFacts.
Import Imaging ImagingFacts PipelineFacts Info Api PyStr PyStrFacts.

Lemma find_from_char (c : char) (s : str) (i : nat) :
  find_from [c] s i = None <-> ~ In c s.
Proof.
  revert i. induction s as [|x s IH]; intros i; cbn [find_from starts_with].
  - split; [intros _ []|reflexivity].
  - rewrite andb_true_r. destruct (N.eqb_spec c x) as [->|Hne].
    + split; [discriminate|]. intros H. destruct H. now left.
    + rewrite IH. simpl. intuition congruence.
Qed.

Lemma contains_char (c : char) (s : str) :
  contains [c] s = false <-> ~ In c s.
Proof. rewrite contains_false. apply find_from_char. Qed.

Lemma split_nonempty (sep : char) (s : str) : split sep s <> [].
Proof.
  destruct s as [|c s]; cbn [split]; [discriminate|].
  destruct (c =? sep)%N; [discriminate|].
  destruct (split sep s); discriminate.
Qed.

Lemma split_whole (sep : char) (s : str) : ~ In sep s -> split sep s = [s].
Proof.
  induction s as [|c s IH]; intros H; cbn [split]; [reflexivity|].
  destruct (N.eqb_spec c sep) as [->|Hne]; [destruct H; now left|].
  rewrite IH; [reflexivity|]. intros Hin. apply H. now right.
Qed.

Lemma split_app (sep : char) (a b : str) :
  split sep (a ++ sep :: b) = split sep a ++ split sep b.
Proof.
  induction a as [|c a IH]; cbn [app split].
  - now rewrite N.eqb_refl.
  - rewrite IH. destruct (c =? sep)%N; [reflexivity|].
    pose proof (split_nonempty sep a) as Hn.
    destruct (split sep a) as [|part parts]; [congruence|reflexivity].
Qed.

(** The last part of a name is what follows its last separator. *)
Lemma split_last (sep : char) (stem ext : str) :
  ~ In sep ext -> last (split sep (stem ++ sep :: ext)) [] = ext.
Proof.
  intros H. rewrite split_app, (split_whole sep ext H). apply last_last.
Qed.

Section WithLibrary.
Context {lib : Library} {pdflib : PdfLibrary} {uni : Unicode}.

Lemma file_extension_dotted (file : UploadFile) (stem ext : str) :
  filename file = stem ++ 46%N :: ext -> ~ In 46%N ext -> is_ascii ext = true ->
  file_extension file = map ascii_lower ext.
Proof.
  intros Hn Hd Ha. unfold file_extension.
  destruct (contains (lit ".") (filename file)) eqn:E.
  2: { exfalso. apply (proj1 (contains_char 46%N (filename file)) E).
       rewrite Hn. apply in_or_app. right. now left. }
  match goal with
  | |- context [last ?l ?d] =>
      assert (last l d = ext) as -> by (rewrite Hn; apply split_last; exact Hd)
  end.
  unfold lower. now rewrite Ha.
Qed.

Lemma file_extension_plain (file : UploadFile) :
  ~ In 46%N (filename file) -> file_extension file = [].
Proof.
  intros H. unfold file_extension.
  destruct (contains (lit ".") (filename file)) eqn:E; [|reflexivity].
  exfalso.
  exact (eq_true_false_abs _ E (proj2 (contains_char 46%N (filename file)) H)).
Qed.

Lemma type_is_pdf (t : option str) :
  match t with
  | Some t' => str_eqb t' (lit "application/pdf")
  | None => false
  end = true <-> t = Some (lit "application/pdf").
Proof.
  destruct t as [t'|]; [|split; discriminate].
  rewrite str_eqb_eq. split; congruence.
Qed.

(** [validate_image] always returns, and a rejection has a reason. *)
Lemma validate_image_returns (content : bytes) (name : str) :
  validate_image content name = Return (true, [])
  \/ exists reason, validate_image content name = Return (false, reason) /\ reason <> [].
Proof.
  unfold validate_image.
  destruct (Z.of_nat (length content) >? MAX_FILE_SIZE)%Z.
  - right. eexists. split; [reflexivity|discriminate].
  - destruct (Image_open content) as [img|e]; cbn [bind try_except].
    + destruct (format_supported (format img)); cbn [negb try_except].
      * now left.
      * right. eexists. split; [reflexivity|discriminate].
    + right. eexists. split; [reflexivity|discriminate].
Qed.

(** [validate_pdf] always returns, and a rejection has a reason. *)
Lemma validate_pdf_returns (content : bytes) (name : str) :
  (validate_pdf content name = Return (true, [])
   /\ (Z.of_nat (length content) <= PDF_MAX_FILE_SIZE)%Z)
  \/ exists reason, validate_pdf content name = Return (false, reason) /\ reason <> [].
Proof.
  unfold validate_pdf.
  destruct (Z.gtb_spec (Z.of_nat (length content)) PDF_MAX_FILE_SIZE).
  - right. eexists. split; [reflexivity|discriminate].
  - destruct (PdfReader content) as [pdf|e]; cbn [bind try_except].
    + destruct (pages_len pdf) as [[|n]|e]; cbn [bind try_except Nat.eqb].
      * right. eexists. split; [reflexivity|discriminate].
      * left. now split.
      * right. eexists. split; [reflexivity|discriminate].
    + right. eexists. split; [reflexivity|discriminate].
Qed.

(** The two ways in which [process_image] returns. *)
Lemma process_image_returns (content : bytes) :
  (exists b out,
      process_image content = Return (Some b, None)
      /\ normalized content = Return out /\ save_png out = Return b)
  \/ exists msg, process_image content = Return (None, Some msg).
Proof.
  unfold process_image.
  destruct (normalized content) as [out|e]; cbn [bind try_except].
  - destruct (save_png out) as [b|e] eqn:E; cbn [bind try_except].
    + left. now exists b, out.
    + right. now eexists.
  - right. now eexists.
Qed.

(** The ways in which [pdf_to_image] returns. *)
Lemma pdf_to_image_returns (content : bytes) (page_number : Z) :
  (exists b page others out,
      pdf_to_image content page_number = Return (Some b, None)
      /\ convert_from_bytes content 200 page_number page_number
         = Return (page :: others)
      /\ convert_to_rgb page = Return out /\ save_png out = Return b)
  \/ exists msg, pdf_to_image content page_number = Return (None, Some msg).
Proof.
  unfold pdf_to_image. change RENDER_DPI with 200%Z.
  destruct (convert_from_bytes content 200 page_number page_number)
    as [[|page others]|e]; cbn [bind try_except].
  - right. now eexists.
  - destruct (convert_to_rgb page) as [out|e] eqn:Ec; cbn [bind try_except].
    + destruct (save_png out) as [b|e] eqn:Es; cbn [bind try_except].
      * left. now exists b, page, others, out.
      * right. now eexists.
    + right. now eexists.
  - right. now eexists.
Qed.

End WithLibrary.
End ApiFacts.

Section ApiClaims.
Import Imaging ImagingFacts PipelineFacts Info Api ApiFacts.
Context {lib : Library} {pdflib : PdfLibrary} {uni : Unicode}.

(** X13.  An upload is taken for a PDF by its name or by its declared type,
    not by its content: when the text after the last dot of the file name,
    in lower case, is [pdf], or when the content type is
    [application/pdf].  A name without a dot has no extension. *)
Theorem pdf_by_name_or_type (file : UploadFile) :
  (forall stem ext,
      filename file = stem ++ 46%N :: ext -> ~ In 46%N ext -> is_ascii ext = true ->
      (is_pdf file = true <->
       map ascii_lower ext = lit "pdf"
       \/ content_type file = Some (lit "application/pdf")))
  /\ (~ In 46%N (filename file) ->
      (is_pdf file = true <-> content_type file = Some (lit "application/pdf"))).
Proof.
  split.
  - intros stem ext Hn Hd Ha. unfold is_pdf.
    rewrite (file_extension_dotted file stem ext Hn Hd Ha).
    pose proof (type_is_pdf (content_type file)) as T.
    pose proof (str_eqb_eq (map ascii_lower ext) (lit "pdf")) as S.
    split.
    + intros H. apply orb_true_iff in H as [H|H];
        [left; now apply S|right; now apply T].
    + intros [H|H]; apply orb_true_iff; [left; now apply S|right; now apply T].
  - intros Hd. unfold is_pdf. rewrite (file_extension_plain file Hd).
    apply type_is_pdf.
Qed.

(** X14.  What passes the image branch of the upload endpoint.  For an upload
    that is not taken for a PDF, the content passed on is the PNG encoding
    of an RGB image of at most 1920 x 1920 pixels that [validate_image]
    accepted; otherwise the request ends with status 400 and a reason that
    is not empty.  The one exception: when processing fails with an
    exception whose message is empty, the test [if img_error] does not
    fire and no content at all is passed on. *)
Theorem image_upload_gate (file : UploadFile) (content : bytes) :
  read file = Return content ->
  is_pdf file = false ->
  (exists b out,
      processed_content file = Return (Some b)
      /\ validate_image content (filename file) = Return (true, [])
      /\ normalized content = Return out /\ save_png out = Return b
      /\ mode out = lit "RGB"
      /\ (width out <= 1920)%Z /\ (height out <= 1920)%Z)
  \/ (exists reason,
         processed_content file = Raise (mkHTTPException 400 reason)
         /\ reason <> [])
  \/ (processed_content file = Return None
      /\ process_image content = Return (None, Some [])).
Proof.
  intros Hread Hpdf. unfold processed_content, processed_content_body.
  rewrite Hread, Hpdf. cbn [lift bind].
  destruct (validate_image_returns content (filename file))
    as [Hv|(reason & Hv & Hr)]; rewrite Hv; cbn [lift bind negb].
  - destruct (process_image_returns content)
      as [(b & out & Hp & Hn & Hs)|([|c msg] & Hp)]; rewrite Hp;
      cbn [lift bind truthy].
    + left. exists b, out. repeat split; try assumption.
      * eapply normalized_rgb, Hn.
      * apply (normalized_bounded content out Hn).
      * apply (normalized_bounded content out Hn).
    + right. right. now split.
    + right. left. eexists. split; [reflexivity|discriminate].
  - right. left. now exists reason.
Qed.

(** X15.  What passes the PDF branch of the upload endpoint.  For an upload
    taken for a PDF, the content passed on is the PNG encoding of the first
    page as rendered at 200 dpi, in mode RGB and at its rendered size, of a
    file of at most 20 MB that [validate_pdf] accepted; otherwise the
    request ends with status 400 and a reason that is not empty, except
    that a conversion failing with an empty message passes no content
    on. *)
Theorem pdf_upload_gate (file : UploadFile) (content : bytes) :
  read file = Return content ->
  is_pdf file = true ->
  (exists b page others out,
      processed_content file = Return (Some b)
      /\ validate_pdf content (filename file) = Return (true, [])
      /\ (Z.of_nat (length content) <= 20 * 1024 * 1024)%Z
      /\ convert_from_bytes content 200 1 1 = Return (page :: others)
      /\ convert_to_rgb page = Return out /\ save_png out = Return b
      /\ mode out = lit "RGB"
      /\ width out = width page /\ height out = height page)
  \/ (exists reason,
         processed_content file = Raise (mkHTTPException 400 reason)
         /\ reason <> [])
  \/ (processed_content file = Return None
      /\ pdf_to_image content 1 = Return (None, Some [])).
Proof.
  intros Hread Hpdf. unfold processed_content, processed_content_body.
  rewrite Hread, Hpdf. cbn [lift bind].
  destruct (validate_pdf_returns content (filename file))
    as [[Hv Hsize]|(reason & Hv & Hr)]; rewrite Hv; cbn [lift bind negb].
  - destruct (pdf_to_image_returns content 1)
      as [(b & page & others & out & Hp & Hc & Hrgb & Hs)|([|c msg] & Hp)];
      rewrite Hp; cbn [lift bind truthy].
    + left. exists b, page, others, out.
      pose proof (convert_to_rgb_shape page out Hrgb) as (Hm & Hw & Hh).
      repeat split; assumption.
    + right. right. now split.
    + right. left. eexists. split; [reflexivity|discriminate].
  - right. left. now exists reason.
Qed.

End ApiClaims.

Import Imaging Info Api.

Lemma pdf_by_name_or_type_witness :
  @is_pdf ApiFixture.unicode
    (mkUploadFile (lit "Report.v2.PDF") (Some (lit "application/octet-stream"))
       (Return [])) = true.
Proof.
  apply (proj1 (@pdf_by_name_or_type ApiFixture.unicode _) (lit "Report.v2") (lit "PDF")).
  - reflexivity.
  - vm_compute. intuition discriminate.
  - reflexivity.
  - left. reflexivity.
Defined.

Lemma image_upload_gate_witness :
  let file := mkUploadFile (lit "diagram.png") (Some (lit "image/png"))
                (Return [Byte.x10; Byte.x20; Byte.x30; Byte.x80]) in
  @processed_content Fixture.library PdfFixture.pdf_library ApiFixture.unicode file
  = Return (Some [Byte.x87; Byte.x8f; Byte.x97]).
Proof.
  cbv zeta.
  destruct (@image_upload_gate Fixture.library PdfFixture.pdf_library
              ApiFixture.unicode
              (mkUploadFile (lit "diagram.png") (Some (lit "image/png"))
                 (Return [Byte.x10; Byte.x20; Byte.x30; Byte.x80]))
              [Byte.x10; Byte.x20; Byte.x30; Byte.x80] eq_refl eq_refl)
    as [(b & out & Hp & _ & Hn & Hs & _)|[(reason & Hp & _)|(Hp & _)]].
  - rewrite Hp. revert Hn Hs. vm_compute. intros [= <-] [= <-]. reflexivity.
  - exfalso. revert Hp. vm_compute. discriminate.
  - exfalso. revert Hp. vm_compute. discriminate.
Defined.

Lemma pdf_upload_gate_witness :
  let file := mkUploadFile (lit "plan.pdf") None (Return [Byte.x25; Byte.x50]) in
  exists b page out,
    @processed_content PdfFixture.library PdfFixture.pdf_library ApiFixture.unicode file
    = Return (Some b)
    /\ @convert_from_bytes PdfFixture.library [Byte.x25; Byte.x50] 200 1 1
       = Return [page]
    /\ @save_png PdfFixture.library out = Return b
    /\ width out = 1700%Z /\ height out = 2200%Z.
Proof.
  cbv zeta.
  destruct (@pdf_upload_gate PdfFixture.library PdfFixture.pdf_library
              ApiFixture.unicode
              (mkUploadFile (lit "plan.pdf") None (Return [Byte.x25; Byte.x50]))
              [Byte.x25; Byte.x50] eq_refl eq_refl)
    as [(b & page & others & out & Hp & _ & _ & Hc & _ & Hs & _ & Hw & Hh)
       |[(reason & Hp & _)|(Hp & _)]].
  - exists b, page, out. revert Hc. vm_compute convert_from_bytes.
    intros [= <- <-]. repeat split; assumption.
  - exfalso. revert Hp. vm_compute. discriminate.
  - exfalso. revert Hp. vm_compute. discriminate.
Defined.

(** ** Language tags on the opening fence *)

Module TagFacts.
Import Json JsonAux JsonFacts JsonFuel TailFacts TailLex TailString TailScan SolidEnd.
Import StripJson Extractor PyStr PyStrFacts FenceFacts ExtractorFacts TagAux.

(** A JSON value begins with one of the characters of [json_start]. *)
Lemma scan_start (f : nat) (c : char) (t : str) (v : json) (r : str) :
  scan_once f (c :: t) = POk v r -> json_start c = true.
Proof.
  destruct f as [|f]; [discriminate|]. cbn [scan_once].
  assert (forall k, (c =? k)%N = true -> json_start k = true -> json_start c = true) as K.
  { intros k E. apply N.eqb_eq in E. now subst. }
  assert (forall p k, starts_with (k :: p) (c :: t) = true -> (c =? k)%N = true) as L.
  { intros p k E. cbn [starts_with] in E. apply andb_true_iff in E as [E _].
    now rewrite N.eqb_sym. }
  destruct (c =? 34)%N eqn:E1; [intros _; now apply (K _ E1)|].
  destruct (c =? 123)%N eqn:E2; [intros _; now apply (K _ E2)|].
  destruct (c =? 91)%N eqn:E3; [intros _; now apply (K _ E3)|].
  destruct (starts_with (lit "null") (c :: t)) eqn:E4;
    [intros _; now apply (K _ (L _ _ E4))|].
  destruct (starts_with (lit "true") (c :: t)) eqn:E5;
    [intros _; now apply (K _ (L _ _ E5))|].
  destruct (starts_with (lit "false") (c :: t)) eqn:E6;
    [intros _; now apply (K _ (L _ _ E6))|].
  destruct (match_number (c :: t)) as [[v0 r0]|] eqn:E7.
  { intros _. unfold match_number in E7.
    destruct (match_integer (c :: t)) as [[i r1]|] eqn:Ei; [|discriminate].
    rewrite match_integer_unfold in Ei.
    destruct (c =? 45)%N eqn:E45; [now apply (K _ E45)|].
    simpl in Ei. destruct (c =? 48)%N eqn:E48; [now apply (K _ E48)|].
    destruct (is_digit c) eqn:Ed; [|discriminate].
    unfold json_start. rewrite Ed. now rewrite !orb_true_r. }
  destruct (starts_with (lit "NaN") (c :: t)) eqn:E8;
    [intros _; now apply (K _ (L _ _ E8))|].
  destruct (starts_with (lit "Infinity") (c :: t)) eqn:E9;
    [intros _; now apply (K _ (L _ _ E9))|].
  destruct (starts_with (lit "-Infinity") (c :: t)) eqn:E10;
    [intros _; now apply (K _ (L _ _ E10))|discriminate].
Qed.

Lemma solid_not_ws (c : char) : isspace c = false -> is_ws c = false.
Proof.
  intros H. destruct (is_ws c) eqn:E; [|reflexivity].
  apply ws_isspace in E. congruence.
Qed.

(** A text that begins with no JSON start character is not JSON; nor is
    the empty text. *)
Lemma loads_bad_start (c : char) (t : str) :
  isspace c = false -> json_start c = false ->
  loads (c :: t) = Raise JSONDecodeError.
Proof.
  intros Hs Hj. unfold loads.
  destruct (starts_with [65279%N] (c :: t)); [reflexivity|].
  unfold decode. cbn [skip_ws]. rewrite (solid_not_ws c Hs).
  destruct (scan_once (budget (c :: t)) (c :: t)) as [v r| |] eqn:E;
    try reflexivity.
  apply scan_start in E. congruence.
Qed.

Lemma loads_empty : loads [] = Raise JSONDecodeError.
Proof. reflexivity. Qed.

Lemma lstrip_solid_end (y : str) (c : char) :
  isspace c = false -> lstrip (y ++ [c]) = lstrip y ++ [c].
Proof.
  intros Hc. induction y as [|d y IH]; simpl.
  - now rewrite Hc.
  - destruct (isspace d); [exact IH|reflexivity].
Qed.

(** Trimming keeps a first character that is not white space. *)
Lemma strip_solid_head (c : char) (x : str) :
  isspace c = false -> strip (c :: x) = c :: rstrip x.
Proof.
  intros Hc. unfold strip. cbn [lstrip]. rewrite Hc.
  unfold rstrip. cbn [rev]. rewrite (lstrip_solid_end _ _ Hc).
  now rewrite rev_app_distr.
Qed.

(** The first fence of a text whose prose has no backquote. *)
Lemma find_from_fence (before rest : str) (i : nat) :
  ~ In 96%N before ->
  find_from (lit "```") (before ++ lit "```" ++ rest) i = Some (i + length before).
Proof.
  revert i. induction before as [|x q IH]; intros i H.
  - simpl. f_equal. lia.
  - change ((x :: q) ++ lit "```" ++ rest) with (x :: (q ++ lit "```" ++ rest)).
    cbn [find_from].
    assert (starts_with (lit "```") (x :: q ++ lit "```" ++ rest) = false) as ->.
    { cbn [starts_with lit map list_ascii_of_string].
      destruct (N.eqb_spec (N_of_ascii "`") x) as [E|_]; [|reflexivity].
      destruct H. left. now rewrite <- E. }
    rewrite IH by (intros Hin; apply H; now right).
    simpl. f_equal. lia.
Qed.

(** What a slice that starts inside a text can be. *)
Lemma slice_from (a : str) (c : char) (rest : str) (stop : Z) :
  exists n,
    slice (a ++ c :: rest) (Z.of_nat (length a)) stop = firstn n (c :: rest).
Proof.
  unfold slice. eexists.
  replace (Z.to_nat (adjust (Z.of_nat (length (a ++ c :: rest))) (Z.of_nat (length a))))
    with (length a).
  - rewrite skipn_app, skipn_all, Nat.sub_diag. reflexivity.
  - unfold adjust. rewrite length_app. simpl length.
    destruct (Z.ltb_spec (Z.of_nat (length a)) 0); lia.
Qed.

(** The selection from a text whose first fence is untagged and followed
    at once by [c]: nothing, or a text that begins with [c]. *)
Lemma select_after_fence (before rest : str) (c : char) :
  ~ In 96%N before ->
  contains (lit "```json") (before ++ lit "```" ++ c :: rest) = false ->
  isspace c = false ->
  select_json_str (before ++ lit "```" ++ c :: rest) = []
  \/ exists x, select_json_str (before ++ lit "```" ++ c :: rest) = c :: x.
Proof.
  intros Hb Hj Hc. unfold select_json_str. rewrite Hj.
  pose proof (find_from_fence before (c :: rest) 0 Hb) as Ff.
  change (0 + length before) with (length before) in Ff.
  assert (find (lit "```") (before ++ lit "```" ++ c :: rest) 0
          = Z.of_nat (length before)) as E0
      by (rewrite find_zero; now rewrite Ff).
  assert (contains (lit "```") (before ++ lit "```" ++ c :: rest) = true) as ->.
  { apply contains_true. now exists (length before). }
  rewrite E0.
  replace (Z.of_nat (length before) + 3)%Z
    with (Z.of_nat (length (before ++ lit "```")))
    by (rewrite length_app; simpl; lia).
  set (stop := find _ _ _). clearbody stop.
  replace (before ++ lit "```" ++ c :: rest)
    with ((before ++ lit "```") ++ c :: rest) by now rewrite <- app_assoc.
  destruct (slice_from (before ++ lit "```") c rest stop) as [[|n] ->].
  - left. reflexivity.
  - right. cbn [firstn]. rewrite (strip_solid_head c _ Hc). now eexists.
Qed.

End TagFacts.

Import Json Extractor TagAux.

(** X16.  A language tag other than [json] on the opening fence is not
    skipped.  When the text holds no fence tagged [json] (the tag is
    matched in lower case only) and the prose before its first fence has
    no backquote, the text selected begins with the character that follows
    the three backquotes; if that character is not white space and cannot
    begin a JSON value, as the first letter of [JSON], [javascript] or
    [python] cannot, parsing fails and [extract] returns the failure
    default. *)
Theorem other_tag_gives_default (before rest : str) (c : char) :
  let text := before ++ lit "```" ++ c :: rest in
  ~ In 96%N before ->
  PyStr.contains (lit "```json") text = false ->
  PyStr.isspace c = false ->
  json_start c = false ->
  _parse_analysis_response text = Return (failure_default text).
Proof.
  cbv zeta. intros Hb Hj Hc Hs.
  apply ExtractorFacts.parse_unparsed.
  destruct (TagFacts.select_after_fence before rest c Hb Hj Hc) as [->|[x ->]].
  - apply TagFacts.loads_empty.
  - now apply TagFacts.loads_bad_start.
Qed.

Lemma other_tag_gives_default_witness :
  let text :=
    lit "Result:" ++ 10%N :: lit "```JSON" ++ 10%N
      :: jq "{'provider':'aws','detected_components':[],'complexity':'low','estimated_monthly_cost':1}"
      ++ 10%N :: lit "```" in
  _parse_analysis_response text = Return (failure_default text).
Proof.
  cbv zeta.
  apply (other_tag_gives_default (lit "Result:" ++ [10%N]) _ 74%N).
  - vm_compute. intuition discriminate.
  - vm_compute. reflexivity.
  - reflexivity.
  - reflexivity.
Defined.
